(** * sync_sd_card: reconciliation of a retro-console SD card

    A shallow embedding of [sync_sd_card.py] and the properties of its
    reconciliation run.

    Modelling conventions.
    - A character is an [ascii]; a name or a file content is a [string].
      The case maps and the whitespace test act on the ASCII range, where
      Python's [str.lower], [str.upper] and [str.strip] agree with them.
      [suffix] and [stem] are those of pathlib up to Python 3.13.
    - The card is a tree of [node]s below the root path; a directory maps
      names to nodes.  A directory is listed in the enumeration order of
      its map, which plays the role of the arbitrary order of [iterdir].
    - File operations follow POSIX: a rename replaces an existing file and
      fails on a directory; text files are read with universal newlines
      and written without newline translation.
    - Every [print] of a decision is an [event]; banners are left out.
      Every performed mutation is recorded in the [trace] of the world. *)

From stdpp Require Import gmap strings list fin_maps sorting.
From Stdlib Require Import Ascii.

Open Scope string_scope.
Open Scope list_scope.
Open Scope nat_scope.

(** ** Python strings *)

Module Py.

Definition code (c : ascii) : N := N_of_ascii c.

Definition in_range (lo hi : N) (c : ascii) : bool :=
  ((lo <=? code c) && (code c <=? hi))%N.

Definition is_upper (c : ascii) : bool := in_range 65 90 c.
Definition is_lower (c : ascii) : bool := in_range 97 122 c.
Definition is_digit (c : ascii) : bool := in_range 48 57 c.

Definition lower_char (c : ascii) : ascii :=
  if is_upper c then ascii_of_N (code c + 32) else c.

Definition upper_char (c : ascii) : ascii :=
  if is_lower c then ascii_of_N (code c - 32) else c.

Fixpoint smap (f : ascii → ascii) (s : string) : string :=
  match s with
  | "" => ""
  | String c s' => String (f c) (smap f s')
  end.

(** [s.lower()] and [s.upper()] *)
Definition lower : string → string := smap lower_char.
Definition upper : string → string := smap upper_char.

(** [c in s] for a one-character [c] *)
Fixpoint has_char (c : ascii) (s : string) : bool :=
  match s with
  | "" => false
  | String x s' => Ascii.eqb x c || has_char c s'
  end.

(** [s.replace(c, '')] *)
Fixpoint remove_char (c : ascii) (s : string) : string :=
  match s with
  | "" => ""
  | String x s' =>
      if Ascii.eqb x c then remove_char c s' else String x (remove_char c s')
  end.

(** [sub in s] *)
Fixpoint contains (sub s : string) : bool :=
  String.prefix sub s ||
  match s with
  | "" => false
  | String _ s' => contains sub s'
  end.

(** The characters removed by [str.strip()]. *)
Definition is_space (c : ascii) : bool :=
  in_range 9 13 c || in_range 28 32 c.

Fixpoint lstrip (s : string) : string :=
  match s with
  | "" => ""
  | String c s' => if is_space c then lstrip s' else s
  end.

Fixpoint rstrip (s : string) : string :=
  match s with
  | "" => ""
  | String c s' =>
      match rstrip s' with
      | "" => if is_space c then "" else String c ""
      | r => String c r
      end
  end.

Definition strip (s : string) : string := lstrip (rstrip s).

(** [s.find(c)] and [s.rfind(c)], [None] for -1 *)
Fixpoint find (c : ascii) (s : string) : option nat :=
  match s with
  | "" => None
  | String x s' => if Ascii.eqb x c then Some 0 else S <$> find c s'
  end.

Fixpoint rfind (c : ascii) (s : string) : option nat :=
  match s with
  | "" => None
  | String x s' =>
      match rfind c s' with
      | Some i => Some (S i)
      | None => if Ascii.eqb x c then Some 0 else None
      end
  end.

(** [s[:i]] and [s[i:]] *)
Fixpoint take (i : nat) (s : string) : string :=
  match i, s with
  | S i', String c s' => String c (take i' s')
  | _, _ => ""
  end.

Fixpoint drop (i : nat) (s : string) : string :=
  match i, s with
  | S i', String _ s' => drop i' s'
  | _, _ => s
  end.

(** [sep.join(l)] *)
Definition join (sep : string) (l : list string) : string :=
  String.concat sep l.

(** The pieces of [s] between the characters satisfying [sep]. *)
Fixpoint split_on (sep : ascii → bool) (s : string) : list string :=
  match s with
  | "" => [""]
  | String c s' =>
      if sep c then "" :: split_on sep s'
      else match split_on sep s' with
           | [] => [String c ""]
           | h :: t => String c h :: t
           end
  end.

(** [s.split(c)[0]] *)
Definition first_field (c : ascii) (s : string) : string :=
  match find c s with
  | Some i => take i s
  | None => s
  end.

(** The longest prefix of [s] made of characters in the class [p]. *)
Fixpoint span_class (p : ascii → bool) (s : string) : string * string :=
  match s with
  | "" => ("", "")
  | String c s' =>
      if p c then let '(r, t) := span_class p s' in (String c r, t)
      else ("", s)
  end.

(** The class [[a-z0-9]]. *)
Definition is_word (c : ascii) : bool := is_lower c || is_digit c.

(** [re.findall(r'[a-z0-9]{2,}', s)]: at each position the greedy
    repetition takes the longest run that starts there; a run shorter
    than two fails and the scan moves one character on. *)
Fixpoint findall_from (fuel : nat) (s : string) : list string :=
  match fuel with
  | 0 => []
  | S fuel' =>
      match s with
      | "" => []
      | String _ s' =>
          let '(run, rest) := span_class is_word s in
          if 2 <=? String.length run
          then run :: findall_from fuel' rest
          else findall_from fuel' s'
      end
  end.

Definition findall_words (s : string) : list string :=
  findall_from (String.length s) s.

(** The lines met by [for line in f] on a text file, without their
    line ends: universal newlines end a line at "\n", "\r" or "\r\n".
    A "\r\n" gives one more empty piece here, which every reader of
    this program drops along with the blank lines. *)
Definition is_newline (c : ascii) : bool :=
  Ascii.eqb c "010"%char || Ascii.eqb c "013"%char.

Definition file_lines (content : string) : list string :=
  split_on is_newline content.

(** [[l.strip() for l in f if l.strip()]] *)
Definition stripped_lines (content : string) : list string :=
  filter (λ l, l ≠ "") (strip <$> file_lines content).

End Py.

(** ** pathlib names *)

(** [PurePath.suffix]: the part of the name from its last dot on, when
    that dot is neither the first nor the last character. *)
Definition suffix (name : string) : string :=
  match Py.rfind "." name with
  | Some i =>
      if bool_decide (0 < i ∧ i < String.length name - 1)
      then Py.drop i name else ""
  | None => ""
  end.

(** [PurePath.stem] *)
Definition stem (name : string) : string :=
  match Py.rfind "." name with
  | Some i =>
      if bool_decide (0 < i ∧ i < String.length name - 1)
      then Py.take i name else name
  | None => name
  end.

(** ** Static configuration *)

Definition ROM_EXT_MAP : list (string * list string) :=
  [ ("ATARI", [".a26"; ".a78"; ".bin"; ".zip"; ".7z"]);
    ("FC",    [".nes"; ".fds"; ".zip"; ".7z"]);
    ("GB",    [".gb"; ".zip"; ".7z"]);
    ("GBA",   [".gba"; ".zip"; ".7z"]);
    ("GBC",   [".gbc"; ".zip"; ".7z"]);
    ("GG",    [".gg"; ".sms"; ".zip"; ".7z"]);
    ("MAME",  [".fba"; ".zip"; ".7z"]);
    ("MD",    [".md"; ".gen"; ".bin"; ".zip"; ".7z"; ".smd"]);
    ("NGPC",  [".ngp"; ".ngc"; ".zip"; ".7z"]);
    ("PCE",   [".pce"; ".zip"; ".7z"]);
    ("PS",    [".img"; ".iso"; ".bin"; ".cue"; ".pbp"; ".chd"; ".zip"; ".7z"]);
    ("SFC",   [".sfc"; ".smc"; ".zip"; ".7z"]) ].

Definition IMG_EXTENSIONS : list string :=
  [".jpg"; ".jpeg"; ".png"; ".bmp"; ".gif"].

(** [ROM_EXT_MAP[platform]] *)
Fixpoint assoc_exts (platform : string) (table : list (string * list string))
  : list string :=
  match table with
  | [] => []
  | (k, v) :: table' =>
      if String.eqb k platform then v else assoc_exts platform table'
  end.

Definition rom_exts (platform : string) : list string :=
  assoc_exts platform ROM_EXT_MAP.

(** [sorted(ROM_EXT_MAP.keys())] *)
Definition platforms : list string := merge_sort String.le (ROM_EXT_MAP.*1).

(** [f.suffix.lower() in extensions] *)
Definition has_ext (extensions : list string) (name : string) : bool :=
  bool_decide (Py.lower (suffix name) ∈ extensions).

(** ** The name matcher *)

(** The inner loop of [match_score]: scan the image words up to the
    first one that matches [rw]. *)
Fixpoint scan_img_words (rw : string) (img_words : list string) : bool :=
  match img_words with
  | [] => false
  | iw :: rest =>
      if String.eqb rw iw || Py.contains rw iw || Py.contains iw rw
      then true
      else scan_img_words rw rest
  end.

(** A Python set of words is a list without repetition; the score does
    not depend on the order in which a set is iterated
    ([match_score_words_perm]). *)
Definition match_score_words (rom_words img_words : list string) : nat :=
  if bool_decide (rom_words = []) || bool_decide (img_words = []) then 0
  else
    foldl (λ score rw, if scan_img_words rw img_words then S score else score)
          0 rom_words.

Definition match_score (rom_name img_name : string) : nat :=
  let rom_words := remove_dups (Py.findall_words (Py.lower rom_name)) in
  let img_words := remove_dups (Py.findall_words (Py.lower img_name)) in
  match_score_words rom_words img_words.

(** ** The card: a tree of files and directories *)

#[warnings="-register-all"]
Inductive node :=
| File (data : string)
| Dir (entries : gmap string node).

Abbreviation path := (list string).

Fixpoint lookup_path (p : path) (t : node) : option node :=
  match p with
  | [] => Some t
  | x :: p' =>
      match t with
      | Dir es => es !! x ≫= lookup_path p'
      | File _ => None
      end
  end.

(** The entries of the directory at [d], if [d] is a directory. *)
Definition dir_entries (d : path) (t : node) : option (gmap string node) :=
  match lookup_path d t with
  | Some (Dir es) => Some es
  | _ => None
  end.

(** [Path.exists], [Path.is_file] for the path [d / n]. *)
Definition path_exists (p : path) (t : node) : bool :=
  bool_decide (is_Some (lookup_path p t)).

Definition is_file (d : path) (n : string) (t : node) : bool :=
  match lookup_path (d ++ [n]) t with
  | Some (File _) => true
  | _ => false
  end.

(** Change the entries of the directory at [d] by [g]; nothing happens
    when [d] is not a directory. *)
Fixpoint alter_in (d : path) (g : gmap string node → gmap string node)
    (t : node) : node :=
  match t with
  | File _ => t
  | Dir es =>
      match d with
      | [] => Dir (g es)
      | x :: d' =>
          match es !! x with
          | Some c => Dir (<[x := alter_in d' g c]> es)
          | None => t
          end
      end
  end.

(** Exceptions of the file operations. *)
Inductive exn :=
| FileNotFoundError
| NotADirectoryError
| IsADirectoryError
| FileExistsError
| SameFileError
| DirectoryNotEmpty.

Inductive result (A : Type) :=
| Ok (a : A)
| Raise (e : exn).
Arguments Ok {A} a.
Arguments Raise {A} e.

Definition result_bind {A B} (r : result A) (k : A → result B) : result B :=
  match r with
  | Ok a => k a
  | Raise e => Raise e
  end.

(** The error of using [d] as a directory. *)
Definition dir_error (d : path) (t : node) : exn :=
  match lookup_path d t with
  | Some (File _) => NotADirectoryError
  | _ => FileNotFoundError
  end.

(** [d.iterdir()]: the names in [d], read at once. *)
Definition iterdir (d : path) (t : node) : result (list string) :=
  match dir_entries d t with
  | Some es => Ok ((map_to_list es).*1)
  | None => Raise (dir_error d t)
  end.

(** Reading the text file [d / n]. *)
Definition read_text (d : path) (n : string) (t : node) : result string :=
  match dir_entries d t with
  | Some es =>
      match es !! n with
      | Some (File data) => Ok data
      | Some (Dir _) => Raise IsADirectoryError
      | None => Raise FileNotFoundError
      end
  | None => Raise (dir_error d t)
  end.

(** The mutations the program performs. *)
Inductive op :=
| OpRename (d : path) (old new : string)
| OpMkdir (p : path)
| OpCopy (sd : path) (sn : string) (dd : path) (dn : string)
| OpUnlink (d : path) (n : string)
| OpWrite (d : path) (n : string) (data : string).

(** [(d / old).rename(d / new)]; with an empty [new], [d / new] is the
    directory [d] itself. *)
Definition rename (d : path) (old new : string) (t : node) : result node :=
  if bool_decide (new = "") then Raise IsADirectoryError else
  match dir_entries d t with
  | None => Raise (dir_error d t)
  | Some es =>
      match es !! old, es !! new with
      | None, _ => Raise FileNotFoundError
      | Some (File _), Some (Dir _) => Raise IsADirectoryError
      | Some (Dir _), Some (File _) => Raise NotADirectoryError
      | Some (Dir _ as c), Some (Dir es') =>
          if bool_decide (size es' = 0)
          then Ok (alter_in d (λ es, <[new := c]> (delete old es)) t)
          else Raise DirectoryNotEmpty
      | Some c, _ => Ok (alter_in d (λ es, <[new := c]> (delete old es)) t)
      end
  end.

(** [p.mkdir(parents=True, exist_ok=True)] *)
Fixpoint mkdir_p (p : path) (t : node) : result node :=
  match p with
  | [] =>
      match t with
      | Dir _ => Ok t
      | File _ => Raise FileExistsError
      end
  | x :: p' =>
      match t with
      | File _ => Raise NotADirectoryError
      | Dir es =>
          result_bind (mkdir_p p' (default (Dir ∅) (es !! x)))
                      (λ c, Ok (Dir (<[x := c]> es)))
      end
  end.

(** [open(d / n, 'w').write(data)] *)
Definition write_text (d : path) (n : string) (data : string) (t : node)
  : result node :=
  match dir_entries d t with
  | None => Raise (dir_error d t)
  | Some es =>
      match es !! n with
      | Some (Dir _) => Raise IsADirectoryError
      | _ => Ok (alter_in d (<[n := File data]>) t)
      end
  end.

(** [shutil.copy2(sd / sn, dd / dn)]: a destination that is a
    directory receives the file under its source name. *)
Definition copy2 (sd : path) (sn : string) (dd : path) (dn : string)
    (t : node) : result node :=
  result_bind (read_text sd sn t) (λ data,
    if bool_decide (sd = dd ∧ sn = dn) then Raise SameFileError
    else match lookup_path (dd ++ [dn]) t with
         | Some (Dir _) => write_text (dd ++ [dn]) sn data t
         | _ => write_text dd dn data t
         end).

(** [(d / n).unlink()] *)
Definition unlink (d : path) (n : string) (t : node) : result node :=
  match dir_entries d t with
  | None => Raise (dir_error d t)
  | Some es =>
      match es !! n with
      | Some (File _) => Ok (alter_in d (delete n) t)
      | Some (Dir _) => Raise IsADirectoryError
      | None => Raise FileNotFoundError
      end
  end.

Definition apply_op (o : op) (t : node) : result node :=
  match o with
  | OpRename d old new => rename d old new t
  | OpMkdir p => mkdir_p p t
  | OpCopy sd sn dd dn => copy2 sd sn dd dn t
  | OpUnlink d n => unlink d n t
  | OpWrite d n data => write_text d n data t
  end.

(** ** The run: state, exceptions, console *)

Inductive status := VIDE | PAS_DE_ROMS | STATUS_OK | MISMATCH.

(** One constructor for each [print] that reports a decision. *)
Inductive event :=
| EvRenameRom (platform old new : string)
| EvRenameImg (platform old new : string)
| EvPlatform (platform : string) (roms : nat)
| EvMkdirImages
| EvMove (img target : string) (score : nat)
| EvError (e : exn)
| EvNoRom (img : string)
| EvDuplicate (name : string)
| EvImages (kept deleted : nat)
| EvImagesNoRoms (count : nat)
| EvCsv (entries : nat)
| EvCsvEmptied
| EvAllfiles (entries before : nat)
| EvList (lst_name : string) (kept removed : nat)
| EvSummary (platform : string) (roms csv img : nat) (st : status).

Record world := World {
  disk : node;
  trace : list op;
  out : list event
}.

Definition M (A : Type) : Type := world → result A * world.

Global Instance M_ret : MRet M := λ A a w, (Ok a, w).

Global Instance M_bind : MBind M := λ A B k m w,
  match m w with
  | (Ok a, w') => k a w'
  | (Raise e, w') => (Raise e, w')
  end.

(** Evaluate a read-only query on the card. *)
Definition gets {A} (f : node → A) : M A := λ w, (Ok (f (disk w)), w).

(** A read that may raise. *)
Definition reads {A} (f : node → result A) : M A := λ w, (f (disk w), w).

Definition print (e : event) : M unit := λ w,
  (Ok (), World (disk w) (trace w) (out w ++ [e])).

(** Perform a mutation; a failed operation leaves the card as it is. *)
Definition perform (o : op) : M unit := λ w,
  match apply_op o (disk w) with
  | Ok t => (Ok (), World t (trace w ++ [o]) (out w))
  | Raise e => (Raise e, w)
  end.

(** [try: m except Exception as e: h e] *)
Definition try_except (m : M unit) (h : exn → M unit) : M unit := λ w,
  match m w with
  | (Ok a, w') => (Ok a, w')
  | (Raise e, w') => h e w'
  end.

Fixpoint for_ {A} (l : list A) (body : A → M unit) : M unit :=
  match l with
  | [] => mret ()
  | x :: l' => body x ;; for_ l' body
  end.

Fixpoint foldM {A S} (body : S → A → M S) (s : S) (l : list A) : M S :=
  match l with
  | [] => mret s
  | x :: l' => s' ← body s x; foldM body s' l'
  end.

Definition when_ (b : bool) (m : M unit) : M unit :=
  if b then m else mret ().

Global Instance exn_eq_dec : EqDecision exn.
Proof. solve_decision. Defined.

Global Instance status_eq_dec : EqDecision status.
Proof. solve_decision. Defined.

Global Instance event_eq_dec : EqDecision event.
Proof. solve_decision. Defined.

(** ** The catalog scanner and the tabular store *)

Definition get_roms (dir_path : path) (extensions : list string) (t : node)
  : result (list string) :=
  if negb (path_exists dir_path t) then Ok []
  else
    result_bind (iterdir dir_path t) (λ names,
      Ok (merge_sort String.le
            (filter (λ f, is_file dir_path f t ∧ has_ext extensions f) names))).

Definition get_images (dir_path : path) (t : node) : result (list string) :=
  if negb (path_exists dir_path t) then Ok []
  else
    result_bind (iterdir dir_path t) (λ names,
      Ok (filter (λ f, is_file dir_path f t ∧ has_ext IMG_EXTENSIONS f) names)).

(** The loop body of [load_csv] on one line. *)
Definition csv_record (data : gmap string string) (raw : string)
  : gmap string string :=
  let line := Py.strip raw in
  if bool_decide (line = "") then data
  else match Py.find "," line with
       | Some idx =>
           if bool_decide (0 < idx)
           then <[Py.strip (Py.take idx line) := Py.drop (S idx) line]> data
           else data
       | None => data
       end.

Definition parse_csv (content : string) : gmap string string :=
  foldl csv_record ∅ (Py.file_lines content).

Definition load_csv (d : path) (n : string) (t : node)
  : result (gmap string string) :=
  if negb (path_exists (d ++ [n]) t) then Ok ∅
  else result_bind (read_text d n t) (λ content, Ok (parse_csv content)).

(** The loop that fills [old_allfiles]. *)
Definition allfiles_record (data : gmap string string) (raw : string)
  : gmap string string :=
  let line := Py.strip raw in
  if bool_decide (line = "") then data
  else <[Py.first_field "|" line := line]> data.

Definition parse_allfiles (content : string) : gmap string string :=
  foldl allfiles_record ∅ (Py.file_lines content).

(** ** The reconciliation run *)

(** The line end written between and after records. *)
Definition nl : string := String "010"%char "".

Definition images_of (platform : string) : path := [platform; "images"].
Definition cubegm : path := ["cubegm"].
Definition csv_name : string := "filelist.csv".

(** The search of the best unclaimed ROM for one image. *)
Definition best_rom (used_roms : gset string) (rom_files : list string)
    (img : string) : option string * nat :=
  foldl (λ '(best_match, best_score) rom,
           if bool_decide (rom ∈ used_roms) then (best_match, best_score)
           else
             let score := match_score (stem rom) (stem img) in
             if bool_decide (best_score < score) then (Some rom, score)
             else (best_match, best_score))
        (None, 0) rom_files.

(** A line of the regenerated [filelist.csv]. *)
Definition csv_line (old_csv : gmap string string) (rom : string) : string :=
  match old_csv !! rom with
  | Some rest => rom +:+ "," +:+ rest
  | None => rom +:+ "," +:+ stem rom +:+ "," +:+ stem rom
  end.

(** A line of the regenerated [allfiles.lst]. *)
Definition catalog_key (platform rom : string) : string :=
  platform +:+ "/" +:+ rom.

Definition catalog_line (old_allfiles : gmap string string)
    (platform rom : string) : string :=
  let key := catalog_key platform rom in
  match old_allfiles !! key with
  | Some line => line
  | None =>
      let dn := stem rom in
      let up := Py.upper dn in
      key +:+ "|" +:+ dn +:+ "|" +:+ up +:+ "|" +:+ dn +:+ "|" +:+ dn
  end.

(** The loop over the lines of a list file: the kept lines and the
    number of removed ones. *)
Definition filter_list (valid_roms : gset string) (lines : list string)
  : list string * nat :=
  foldl (λ '(kept, removed) line,
           let key := Py.first_field "|" line in
           if bool_decide (key ∈ valid_roms) then (kept ++ [line], removed)
           else (kept, S removed))
        ([], 0) lines.

Definition summary_status (rom_count csv_count img_count : nat) : status :=
  if bool_decide (rom_count = 0 ∧ img_count = 0) then VIDE
  else if bool_decide (rom_count = 0) then PAS_DE_ROMS
  else if bool_decide (rom_count = csv_count ∧ csv_count = img_count)
       then STATUS_OK
       else MISMATCH.

Section run.

Variable dry_run : bool.

(** [if not dry_run: o] *)
Definition unless_dry (m : M unit) : M unit := when_ (negb dry_run) m.

(** [try: o except Exception: pass] *)
Definition best_effort (o : op) : M unit :=
  try_except (perform o) (λ _, mret ()).

(** *** Step 1: names with commas (lines 110-132) *)

Definition rename_comma_roms (platform : string) : M unit :=
  names ← reads (iterdir [platform]);
  for_ names (λ f,
    isf ← gets (is_file [platform] f);
    when_ (isf && has_ext (rom_exts platform) f && Py.has_char "," f)
      (let new_name := Py.remove_char "," f in
       print (EvRenameRom platform f new_name);;
       unless_dry (perform (OpRename [platform] f new_name)))).

Definition rename_comma_images (platform : string) : M unit :=
  ex ← gets (path_exists (images_of platform));
  when_ ex
    (names ← reads (iterdir (images_of platform));
     for_ names (λ f,
       isf ← gets (is_file (images_of platform) f);
       when_ (isf && Py.has_char "," f)
         (let new_name := Py.remove_char "," f in
          print (EvRenameImg platform f new_name);;
          unless_dry (perform (OpRename (images_of platform) f new_name))))).

Definition sanitize_platform (platform : string) : M unit :=
  ex ← gets (path_exists [platform]);
  when_ ex (rename_comma_roms platform;; rename_comma_images platform).

(** *** Step 2: ROMs, images and CSV of one platform (lines 141-254) *)

Definition associate_image (platform : string) (rom_files : list string)
    (used_roms : gset string) (img : string) : M (gset string) :=
  match best_rom used_roms rom_files img with
  | (Some best_match, best_score) =>
      if bool_decide (1 ≤ best_score) then
        let target_name := stem best_match +:+ ".png" in
        print (EvMove img target_name best_score);;
        unless_dry
          (try_except
             (perform (OpCopy [platform] img (images_of platform) target_name);;
              perform (OpUnlink [platform] img))
             (λ e, print (EvError e)));;
        mret ({[best_match]} ∪ used_roms)
      else print (EvNoRom img);; mret used_roms
  | (None, _) => print (EvNoRom img);; mret used_roms
  end.

Definition associate_images (platform : string)
    (rom_files direct_images : list string) : M unit :=
  when_ (bool_decide (direct_images ≠ []) && bool_decide (rom_files ≠ []))
    (foldM (associate_image platform rom_files) ∅ direct_images;; mret ()).

Definition prune_duplicates (platform : string) (rom_files : list string)
  : M unit :=
  when_ (bool_decide (rom_files ≠ []))
    (let zip_stems := stem <$> filter (λ f, suffix f = ".zip") rom_files in
     for_ rom_files (λ rom,
       when_ (bool_decide (suffix rom ≠ ".zip")
              && bool_decide (stem rom ∈ zip_stems))
         (print (EvDuplicate rom);;
          unless_dry (best_effort (OpUnlink [platform] rom))))).

Definition prune_orphans (platform : string) : M unit :=
  let images_path := images_of platform in
  ex ← gets (path_exists images_path);
  when_ ex
    (current_roms ← reads (get_roms [platform] (rom_exts platform));
     let valid_stems := stem <$> current_roms in
     if bool_decide (current_roms ≠ []) then
       img_files ← reads (iterdir images_path);
       kept ← gets (λ t, length (filter (λ f, is_file images_path f t
                                             ∧ stem f ∈ valid_stems)
                                        img_files));
       deleted ← foldM (λ deleted f,
                    isf ← gets (is_file images_path f);
                    if isf && bool_decide (stem f ∉ valid_stems) then
                      unless_dry (best_effort (OpUnlink images_path f));;
                      mret (S deleted)
                    else mret deleted)
                 0 img_files;
       print (EvImages kept deleted)
     else
       listing ← reads (iterdir images_path);
       when_ (bool_decide (listing ≠ []))
         (counted ← reads (iterdir images_path);
          img_count ← gets (λ t, length (filter (λ f, is_file images_path f t)
                                                counted));
          when_ (bool_decide (0 < img_count))
            (print (EvImagesNoRoms img_count);;
             unless_dry
               (img_files ← reads (iterdir images_path);
                for_ img_files (λ f,
                  isf ← gets (is_file images_path f);
                  when_ isf (best_effort (OpUnlink images_path f))))))).

Definition generate_csv (platform : string) : M unit :=
  current_roms ← reads (get_roms [platform] (rom_exts platform));
  old_csv ← reads (load_csv [platform] csv_name);
  if bool_decide (current_roms ≠ []) then
    let csv_lines := csv_line old_csv <$> current_roms in
    if dry_run then print (EvCsv (length csv_lines))
    else
      perform (OpWrite [platform] csv_name (Py.join nl csv_lines +:+ nl));;
      print (EvCsv (length csv_lines))
  else
    ex ← gets (path_exists [platform; csv_name]);
    when_ ex
      (if dry_run then print EvCsvEmptied
       else perform (OpWrite [platform] csv_name "");; print EvCsvEmptied).

Definition sync_platform (platform : string) : M unit :=
  ex ← gets (path_exists [platform]);
  when_ ex
    (rom_files ← reads (get_roms [platform] (rom_exts platform));
     direct_images ← reads (get_images [platform]);
     print (EvPlatform platform (length rom_files));;
     has_images ← gets (path_exists (images_of platform));
     when_ (negb has_images && bool_decide (rom_files ≠ []))
       (unless_dry (perform (OpMkdir (images_of platform)));;
        print EvMkdirImages);;
     associate_images platform rom_files direct_images;;
     prune_duplicates platform rom_files;;
     prune_orphans platform;;
     generate_csv platform).

(** *** Step 3: allfiles.lst (lines 263-296) *)

Definition catalog_lines (old_allfiles : gmap string string)
  : M (list string) :=
  foldM (λ (new_lines : list string) (platform : string),
           ex ← gets (path_exists [platform]);
           if ex : bool then
             roms ← reads (get_roms [platform] (rom_exts platform));
             mret (new_lines ++ (catalog_line old_allfiles platform <$> roms))
           else mret new_lines)
        [] platforms.

Definition sync_allfiles : M unit :=
  ex ← gets (path_exists (cubegm ++ ["allfiles.lst"]));
  when_ ex
    (content ← reads (read_text cubegm "allfiles.lst");
     let old_allfiles := parse_allfiles content in
     new_lines ← catalog_lines old_allfiles;
     let old_count := size old_allfiles in
     if dry_run then print (EvAllfiles (length new_lines) old_count)
     else
       perform (OpWrite cubegm "allfiles.lst" (Py.join nl new_lines +:+ nl));;
       print (EvAllfiles (length new_lines) old_count)).

(** *** Step 4: favorites.lst and recent.lst (lines 305-336) *)

Definition valid_rom_keys : M (gset string) :=
  foldM (λ (valid_roms : gset string) (platform : string),
           ex ← gets (path_exists [platform]);
           if ex : bool then
             roms ← reads (get_roms [platform] (rom_exts platform));
             mret (foldl (λ v rom, {[catalog_key platform rom]} ∪ v)
                         valid_roms roms)
           else mret valid_roms)
        ∅ platforms.

Definition clean_list (valid_roms : gset string) (lst_name : string)
  : M unit :=
  ex ← gets (path_exists (cubegm ++ [lst_name]));
  when_ ex
    (content ← reads (read_text cubegm lst_name);
     let lines := Py.stripped_lines content in
     let '(kept, removed) := filter_list valid_roms lines in
     if dry_run then print (EvList lst_name (length kept) removed)
     else
       perform (OpWrite cubegm lst_name
                  (if bool_decide (kept ≠ []) then Py.join nl kept +:+ nl
                   else ""));;
       print (EvList lst_name (length kept) removed)).

(** *** Summary (lines 347-371) *)

Definition summary_platform (platform : string) : M unit :=
  ex ← gets (path_exists [platform]);
  when_ ex
    (roms ← reads (get_roms [platform] (rom_exts platform));
     let rom_count := length roms in
     has_images ← gets (path_exists (images_of platform));
     img_count ←
       (if has_images : bool then
          names ← reads (iterdir (images_of platform));
          gets (λ t, length (filter (λ f, is_file (images_of platform) f t)
                                    names))
        else mret 0);
     has_csv ← gets (path_exists [platform; csv_name]);
     csv_count ←
       (if has_csv : bool then
          content ← reads (read_text [platform] csv_name);
          mret (length (Py.stripped_lines content))
        else mret 0);
     print (EvSummary platform rom_count csv_count img_count
              (summary_status rom_count csv_count img_count))).

Definition clean_lists : M unit :=
  valid_roms ← valid_rom_keys;
  for_ ["favorites.lst"; "recent.lst"] (clean_list valid_roms).

(** Steps 1 to 4. *)
Definition reconcile : M unit :=
  for_ platforms sanitize_platform;;
  for_ platforms sync_platform;;
  sync_allfiles;;
  clean_lists.

Definition summary : M unit := for_ platforms summary_platform.

Definition sync_sd_card : M unit := reconcile;; summary.

End run.

(** A run from a card with an empty console. *)
Definition run (dry_run : bool) (t : node) : result unit * world :=
  sync_sd_card dry_run (World t [] []).

(** ** Vocabulary of the specification *)

(** [a] occurs in [b] as a contiguous piece. *)
Definition is_substring (a b : string) : Prop :=
  ∃ pre post, b = pre +:+ a +:+ post.

(** A token of the second name qualifies for [rw]: it is equal to it, a
    substring of it or a superstring of it. *)
Definition qualifies (rw iw : string) : Prop :=
  rw = iw ∨ is_substring iw rw ∨ is_substring rw iw.

(** The tokens of a name as the specification words them: the name is
    lowercased and cut at every character that is not alphanumeric, and
    the runs of length at least two are kept. *)
Definition spec_tokens (name : string) : list string :=
  filter (λ r, 2 ≤ String.length r)
         (Py.split_on (λ c, negb (Py.is_word c)) (Py.lower name)).

(** A regular file among the entries [es] of a directory. *)
Definition file_in (es : gmap string node) (n : string) : bool :=
  match es !! n with
  | Some (File _) => true
  | _ => false
  end.

(** The GameFiles of a directory with the entries [es]: its regular
    files whose extension, compared without case, is in the set, sorted
    by name. *)
Definition game_files (extensions : list string) (es : gmap string node)
  : list string :=
  merge_sort String.le
    (filter (λ f, file_in es f ∧ has_ext extensions f) ((map_to_list es).*1)).

(** The entries left by unlinking, one after the other, the regular
    files of [l] that satisfy [P]. *)
Definition sweep (P : string → bool) (l : list string)
    (es : gmap string node) : gmap string node :=
  foldl (λ m f, if file_in m f && P f then delete f m else m) es l.

(** The test of the duplicate loop. *)
Definition is_duplicate (rom_files : list string) (rom : string) : bool :=
  bool_decide (suffix rom ≠ ".zip")
  && bool_decide (stem rom ∈ stem <$> filter (λ f, suffix f = ".zip") rom_files).

(** The GameFiles of a platform on the card [t]; none when the
    platform has no directory. *)
Definition game_files_of (t : node) (platform : string) : list string :=
  match dir_entries [platform] t with
  | Some es => game_files (rom_exts platform) es
  | None => []
  end.

(** No platform path is a regular file (listing such a path raises). *)
Definition platform_dirs_ok (t : node) : Prop :=
  Forall (λ platform, is_file [] platform t = false) platforms.

(** [key] is "<platform>/<filename>" for a GameFile of the card. *)
Definition is_game_key (t : node) (key : string) : Prop :=
  ∃ platform rom,
    platform ∈ platforms ∧ rom ∈ game_files_of t platform
    ∧ key = catalog_key platform rom.

(** The content of a list file after filtering: the non-blank lines,
    stripped as they are read, whose first pipe-delimited field is in
    [valid_roms], in their order, each followed by a line end. *)
Definition filtered_list (valid_roms : gset string) (content : string)
  : string :=
  let kept := filter (λ line, Py.first_field "|" line ∈ valid_roms)
                     (Py.stripped_lines content) in
  if bool_decide (kept = []) then "" else Py.join nl kept +:+ nl.

(** The GameFiles of the card, platform by platform in the order of
    [platforms], each platform in the order of its GameFiles. *)
Definition catalog_entries (t : node) : list (string * string) :=
  platforms ≫= λ platform, (λ rom, (platform, rom)) <$> game_files_of t platform.

(** The catalog line of a GameFile, given the records loaded from the
    previous file. *)
Definition expected_catalog_line (old_allfiles : gmap string string)
    (entry : string * string) : string :=
  let key := entry.1 +:+ "/" +:+ entry.2 in
  default (key +:+ "|" +:+ stem entry.2 +:+ "|" +:+ Py.upper (stem entry.2)
               +:+ "|" +:+ stem entry.2 +:+ "|" +:+ stem entry.2)
          (old_allfiles !! key).

(** The catalog step as the specification states it: on every run, also
    when allfiles.lst is missing (an empty mapping then), the file is
    rewritten to one line per GameFile. *)
Definition catalog_rewritten_on_every_run : Prop :=
  ∀ w es old,
    platform_dirs_ok (disk w) →
    dir_entries cubegm (disk w) = Some es →
    es !! "allfiles.lst" = File <$> old →
    ∃ w' lines,
      sync_allfiles false w = (Ok (), w')
      ∧ lookup_path ["cubegm"; "allfiles.lst"] (disk w')
        = Some (File (Py.join nl lines +:+ nl))
      ∧ Forall2 (λ entry line,
                   line = expected_catalog_line
                            (from_option parse_allfiles ∅ old) entry)
                (catalog_entries (disk w)) lines.

(** The entries left by renaming, one after the other, the regular
    files of [l] that satisfy [P] to their names without commas. *)
Definition rename_step (P : string → bool) (f : string)
    (es : gmap string node) : gmap string node :=
  match es !! f with
  | Some (File data) =>
      if P f then <[Py.remove_char "," f := File data]> (delete f es) else es
  | _ => es
  end.

Definition rename_all (P : string → bool) (l : list string)
    (es : gmap string node) : gmap string node :=
  foldl (λ m f, rename_step P f m) es l.

(** No file of [es] would be renamed onto a directory, which raises:
    its name without commas is not empty (the directory itself) and is not
    a directory of [es]. *)
Definition no_dir_targets (es : gmap string node) : Prop :=
  ∀ f, file_in es f → Py.has_char "," f →
       Py.remove_char "," f ≠ ""
       ∧ ∀ sub, es !! Py.remove_char "," f ≠ Some (Dir sub).

(** The sanitize step as the specification states it: GameFiles and
    CoverImages with a comma are renamed at the platform root and inside
    images/ alike. *)
Definition commas_stripped_everywhere : Prop :=
  ∀ platform w es,
    dir_entries [platform] (disk w) = Some es →
    no_dir_targets es →
    (∀ data, es !! "images" ≠ Some (File data)) →
    (∀ imgs, es !! "images" = Some (Dir imgs) → no_dir_targets imgs) →
    ∃ w' es',
      sanitize_platform false platform w = (Ok (), w')
      ∧ dir_entries [platform] (disk w') = Some es'
      ∧ (∀ f, file_in es f →
              has_ext (rom_exts platform) f ∨ has_ext IMG_EXTENSIONS f →
              Py.has_char "," f →
              es' !! f = None ∧ file_in es' (Py.remove_char "," f))
      ∧ (∀ imgs f, es !! "images" = Some (Dir imgs) →
              file_in imgs f → has_ext IMG_EXTENSIONS f → Py.has_char "," f →
              ∃ imgs', es' !! "images" = Some (Dir imgs')
                       ∧ imgs' !! f = None
                       ∧ file_in imgs' (Py.remove_char "," f)).

(** The events that report an action on the card. *)
Definition is_action (e : event) : bool :=
  match e with
  | EvRenameRom _ _ _ | EvRenameImg _ _ _ | EvMkdirImages | EvMove _ _ _
  | EvDuplicate _ | EvImages _ _ | EvImagesNoRoms _ | EvCsv _ | EvCsvEmptied
  | EvAllfiles _ _ | EvList _ _ _ => true
  | EvPlatform _ _ | EvError _ | EvNoRom _ | EvSummary _ _ _ _ _ => false
  end.

Definition actions (evs : list event) : list event := filter is_action evs.

(** Parity of the two modes as the specification states it: from every
    card, the actions reported by a dry run are the actions reported as
    performed by an execute run. *)
Definition dry_run_parity : Prop :=
  ∀ t e, is_action e → e ∈ out (run true t).2 ↔ e ∈ out (run false t).2.

(** A write that stores in a file the content it already has. *)
Definition rewrite_of (t : node) (o : op) : Prop :=
  match o with
  | OpWrite d n data => lookup_path (d ++ [n]) t = Some (File data)
  | _ => False
  end.

(** On the card [t] the command [m] returns a value satisfying [Q],
    leaves the card equal to [t] and performs only writes of contents that
    are already there. *)
Definition holds {A} (t : node) (m : M A) (Q : A → Prop) : Prop :=
  ∀ w, disk w = t →
    ∃ a w', m w = (Ok a, w') ∧ disk w' = t
            ∧ (∃ ws, trace w' = trace w ++ ws ∧ Forall (rewrite_of t) ws)
            ∧ Q a.

(** A platform directory with nothing left to reconcile. *)
Definition platform_settled (platform : string) (es : gmap string node)
  : Prop :=
  let roms := game_files (rom_exts platform) es in
  (∀ rom, rom ∈ roms → Py.has_char "," rom = false)
  ∧ (∀ img rom, file_in es img → has_ext IMG_EXTENSIONS img → rom ∈ roms →
                match_score (stem rom) (stem img) = 0)
  ∧ (∀ rom, rom ∈ roms → is_duplicate roms rom = false)
  ∧ match es !! "images" with
    | Some (Dir imgs) =>
        ∀ f, file_in imgs f →
             Py.has_char "," f = false ∧ stem f ∈ stem <$> roms
    | Some (File _) => False
    | None => roms = []
    end
  ∧ match es !! csv_name with
    | Some (File content) =>
        content = if bool_decide (roms = []) then ""
                  else Py.join nl (csv_line (parse_csv content) <$> roms) +:+ nl
    | Some (Dir _) => False
    | None => roms = []
    end.

(** The catalog and the lists hold what a run writes. *)
Definition metadata_settled (t : node) : Prop :=
  match lookup_path ["cubegm"; "allfiles.lst"] t with
  | Some (File content) =>
      content = Py.join nl (expected_catalog_line (parse_allfiles content)
                              <$> catalog_entries t) +:+ nl
  | Some (Dir _) => False
  | None => True
  end
  ∧ ∀ lst_name, lst_name ∈ ["favorites.lst"; "recent.lst"] →
      match lookup_path ["cubegm"; lst_name] t with
      | Some (File content) =>
          ∀ valid_roms : gset string,
            (∀ key, key ∈ valid_roms ↔ is_game_key t key) →
            content = filtered_list valid_roms content
      | Some (Dir _) => False
      | None => True
      end.

Definition settled (t : node) : Prop :=
  platform_dirs_ok t
  ∧ (∀ platform es, platform ∈ platforms →
       dir_entries [platform] t = Some es → platform_settled platform es)
  ∧ metadata_settled t.

(** Idempotence as the specification states it: after an execute run
    that returns, a second execute run changes nothing on the card. *)
Definition execute_idempotent : Prop :=
  ∀ t, (run false t).1 = Ok () →
       disk (run false (disk (run false t).2)).2 = disk (run false t).2.

(** The summary lines computed from the card [t]. *)
Definition summary_of (t : node) : list event :=
  out (summary (World t [] [])).2.

(** [m] acts on the card alone: run after any console and trace, it
    does what it does from empty ones and appends. *)
Definition local {A} (m : M A) : Prop :=
  ∀ w, m w = ((m (World (disk w) [] [])).1,
              World (disk (m (World (disk w) [] [])).2)
                    (trace w ++ trace (m (World (disk w) [] [])).2)
                    (out w ++ out (m (World (disk w) [] [])).2)).

(** [m] performs no mutation: the card and the trace of performed
    operations come out as they went in, whether [m] returns or raises. *)
Definition quiet {A} (m : M A) : Prop :=
  ∀ w, disk (m w).2 = disk w ∧ trace (m w).2 = trace w.

(** *** What a run brings about *)

(** The directory an operation writes in. *)
Definition op_dir (o : op) : path :=
  match o with
  | OpRename d _ _ | OpMkdir d | OpCopy _ _ d _ | OpUnlink d _
  | OpWrite d _ _ => d
  end.

(** [m] changes nothing in the directory [d] outside its entry [n]. *)
Definition confined {A} (d : path) (n : string) (m : M A) : Prop :=
  ∀ w f, f ≠ n →
    lookup_path (d ++ [f]) (disk (m w).2) = lookup_path (d ++ [f]) (disk w).

(** A platform directory after the sanitize step: no GameFile and no
    file of images/ has a comma in its name. *)
Definition sanitized (platform : string) (es : gmap string node) : Prop :=
  (∀ f, file_in es f → has_ext (rom_exts platform) f →
        Py.has_char "," f = false)
  ∧ (∀ imgs f, es !! "images" = Some (Dir imgs) → file_in imgs f →
               Py.has_char "," f = false).

(** A platform directory after its reconciliation: what the run itself
    brings about. *)
Definition tidy (platform : string) (es : gmap string node) : Prop :=
  let roms := game_files (rom_exts platform) es in
  (∀ rom, rom ∈ roms → Py.has_char "," rom = false)
  ∧ (∀ rom, rom ∈ roms → is_duplicate roms rom = false)
  ∧ match es !! "images" with
    | Some (Dir imgs) =>
        ∀ f, file_in imgs f →
             Py.has_char "," f = false ∧ stem f ∈ stem <$> roms
    | Some (File _) => False
    | None => roms = []
    end
  ∧ match es !! csv_name with
    | Some (File _) => True
    | Some (Dir _) => False
    | None => roms = []
    end.

(** No image at a platform root still matches a GameFile of the
    platform. *)
Definition no_cover_pending (t : node) : Prop :=
  ∀ platform es img rom,
    platform ∈ platforms → dir_entries [platform] t = Some es →
    file_in es img → has_ext IMG_EXTENSIONS img →
    rom ∈ game_files (rom_exts platform) es →
    match_score (stem rom) (stem img) = 0.

(** Every filelist.csv holds the lines regenerated from itself. *)
Definition csv_read_back (t : node) : Prop :=
  ∀ platform es content,
    platform ∈ platforms → dir_entries [platform] t = Some es →
    es !! csv_name = Some (File content) →
    let roms := game_files (rom_exts platform) es in
    content = if bool_decide (roms = []) then ""
              else Py.join nl (csv_line (parse_csv content) <$> roms) +:+ nl.

(** What the moves keep: the regular files with a ROM extension, the
    presence of images/, and its files free of commas. *)
Definition moved (platform : string) (es es' : gmap string node) : Prop :=
  (∀ f, has_ext (rom_exts platform) f → file_in es' f = file_in es f)
  ∧ (is_Some (es !! "images") → is_Some (es' !! "images"))
  ∧ ((∀ imgs f, es !! "images" = Some (Dir imgs) → file_in imgs f →
                Py.has_char "," f = false) →
     ∀ imgs f, es' !! "images" = Some (Dir imgs) → file_in imgs f →
               Py.has_char "," f = false).

(** *** The choice of a ROM *)

(** The score of a ROM against an image, as the association loop
    computes it. *)
Definition score_of (img rom : string) : nat :=
  match_score (stem rom) (stem img).

(** *** Clean lines and records *)

(** Every character of [s] satisfies [p]. *)
Fixpoint string_forall (p : ascii → bool) (s : string) : bool :=
  match s with
  | "" => true
  | String c s' => p c && string_forall p s'
  end.

(** [s] holds no line end. *)
Definition single_line (s : string) : bool :=
  string_forall (λ c, negb (Py.is_newline c)) s.

(** A line as the readers of this program keep it: not blank, without
    surrounding whitespace, without line end. *)
Definition clean_line (l : string) : Prop :=
  l ≠ "" ∧ Py.strip l = l ∧ single_line l.

(** A name that a CSV record can carry as its key: a clean line without
    comma. *)
Definition clean_key (k : string) : Prop :=
  clean_line k ∧ Py.has_char "," k = false.

(** A rest of record as a CSV line can carry it: no trailing whitespace,
    no line end. *)
Definition clean_rest (v : string) : Prop :=
  Py.rstrip v = v ∧ single_line v.

(** The rest of line that [generate_csv] gives to a GameFile. *)
Definition csv_rest (old_csv : gmap string string) (rom : string) : string :=
  default (stem rom +:+ "," +:+ stem rom) (old_csv !! rom).

(** *** What a run leaves alone *)

(** [m] keeps [I]: from a card that satisfies [I] it leaves a card that
    satisfies [I], whether it returns or raises. *)
Definition keeps {A} (I : node → Prop) (m : M A) : Prop :=
  ∀ w, I (disk w) → I (disk (m w).2).

(** The file [f] of the directory [p] holds [data], and no entry of
    that directory has a name with a comma that the removal of commas
    turns into [f]. *)
Definition file_kept (p f data : string) (t : node) : Prop :=
  lookup_path [p; f] t = Some (File data)
  ∧ ∀ g, is_Some (lookup_path [p; g] t) → Py.has_char "," g →
         Py.remove_char "," g ≠ f.

(** *** Classes of printed lines *)

(** The lines of the summary. *)
Definition is_summary (e : event) : bool :=
  match e with
  | EvSummary _ _ _ _ _ => true
  | _ => false
  end.

(** [m] prints no event of the class [P], whether it returns or
    raises. *)
Definition mute {A} (P : event → bool) (m : M A) : Prop :=
  ∀ w, filter P (out (m w).2) = filter P (out w).

(** A summary line that reports no images without ROMs. *)
Definition sound_summary (e : event) : Prop :=
  match e with
  | EvSummary _ roms _ img st =>
      st ≠ PAS_DE_ROMS ∧ (roms = 0 → img = 0 ∧ st = VIDE)
  | _ => True
  end.

(** *** The report of a run on stable names *)

(** On the card [t] the command [m] returns a value satisfying [Q],
    performs no operation and reports no action. *)
Definition inert {A} (t : node) (m : M A) (Q : A → Prop) : Prop :=
  ∀ w, disk w = t →
    ∃ a w', m w = (Ok a, w') ∧ disk w' = t ∧ trace w' = trace w
            ∧ actions (out w') = actions (out w) ∧ Q a.

(** A platform directory where a run has nothing to rename, create,
    move or de-duplicate, and whose CSV path is no directory. *)
Definition stable_platform (platform : string) (es : gmap string node)
  : Prop :=
  let roms := game_files (rom_exts platform) es in
  (∀ rom, rom ∈ roms → Py.has_char "," rom = false)
  ∧ (∀ img rom, file_in es img → has_ext IMG_EXTENSIONS img → rom ∈ roms →
                match_score (stem rom) (stem img) = 0)
  ∧ (∀ rom, rom ∈ roms → is_duplicate roms rom = false)
  ∧ match es !! "images" with
    | Some (Dir imgs) => ∀ f, file_in imgs f → Py.has_char "," f = false
    | Some (File _) => False
    | None => roms = []
    end
  ∧ (∀ sub, es !! csv_name ≠ Some (Dir sub)).

(** The report of the orphan step on a platform directory. *)
Definition orphan_report (platform : string) (es : gmap string node)
  : list event :=
  match es !! "images" with
  | Some (Dir imgs) =>
      let roms := game_files (rom_exts platform) es in
      let names := (map_to_list imgs).*1 in
      if bool_decide (roms ≠ []) then
        [EvImages
           (length (filter (λ f, file_in imgs f ∧ stem f ∈ stem <$> roms) names))
           (length (filter (λ f, file_in imgs f ∧ stem f ∉ stem <$> roms) names))]
      else
        let count := length (filter (λ f, file_in imgs f) names) in
        if bool_decide (0 < count) then [EvImagesNoRoms count] else []
  | _ => []
  end.

(** The report of the CSV step on a platform directory. *)
Definition csv_report (platform : string) (es : gmap string node)
  : list event :=
  let roms := game_files (rom_exts platform) es in
  if bool_decide (roms ≠ []) then [EvCsv (length roms)]
  else if bool_decide (is_Some (es !! csv_name)) then [EvCsvEmptied]
       else [].

(** The keys "<platform>/<filename>" of the GameFiles of the card. *)
Definition game_keys (t : node) : gset string :=
  list_to_set ((λ entry, catalog_key entry.1 entry.2) <$> catalog_entries t).

(** The report of the catalog step. *)
Definition allfiles_report (t : node) : list event :=
  match lookup_path ["cubegm"; "allfiles.lst"] t with
  | Some (File content) =>
      [EvAllfiles (length (catalog_entries t)) (size (parse_allfiles content))]
  | _ => []
  end.

(** The report of the filtering of one list. *)
Definition list_report (valid_roms : gset string) (t : node)
    (lst_name : string) : list event :=
  match lookup_path ["cubegm"; lst_name] t with
  | Some (File content) =>
      let lines := Py.stripped_lines content in
      [EvList lst_name
         (length (filter (λ line, Py.first_field "|" line ∈ valid_roms) lines))
         (length (filter (λ line, Py.first_field "|" line ∉ valid_roms) lines))]
  | _ => []
  end.

(** The report of step 2 on one platform. *)
Definition platform_report (t : node) (platform : string) : list event :=
  match dir_entries [platform] t with
  | Some es => orphan_report platform es ++ csv_report platform es
  | None => []
  end.

(** The actions reported by a run on a card whose names are stable. *)
Definition run_report (t : node) : list event :=
  (platforms ≫= platform_report t) ++ allfiles_report t
  ++ list_report (game_keys t) t "favorites.lst"
  ++ list_report (game_keys t) t "recent.lst".

(** A card on which a run renames, creates, moves and de-duplicates
    nothing, and whose metadata paths are no directories. *)
Definition stable_card (t : node) : Prop :=
  platform_dirs_ok t
  ∧ (∀ platform es, platform ∈ platforms →
       dir_entries [platform] t = Some es → stable_platform platform es)
  ∧ (∀ lst_name sub,
       lst_name ∈ ["allfiles.lst"; "favorites.lst"; "recent.lst"] →
       lookup_path ["cubegm"; lst_name] t ≠ Some (Dir sub)).

(** The platform path is no regular file and, in its directory,
    images/ is no regular file and filelist.csv no directory. *)
Definition readable (t : node) (platform : string) : Prop :=
  is_file [] platform t = false
  ∧ ∀ es, dir_entries [platform] t = Some es →
      (∀ data, es !! "images" ≠ Some (File data))
      ∧ (∀ sub, es !! csv_name ≠ Some (Dir sub)).

(** ** Sample cards *)

Definition mkdir_of (l : list (string * node)) : node := Dir (list_to_map l).

(** A GB directory with one GameFile, its image and an orphan image. *)
Definition orphan_images : gmap string node :=
  list_to_map [("mario.png", File "m"); ("ghost.png", File "g")].

Definition orphan_gb : gmap string node :=
  list_to_map [("mario.zip", File "rom"); ("images", Dir orphan_images)].

Definition orphan_card : node := mkdir_of [("GB", Dir orphan_gb)].

(** A GB directory with a raw dump and an archive of the same name. *)
Definition zelda_gb : gmap string node :=
  list_to_map [("zelda.gb", File "raw"); ("zelda.zip", File "zip")].

Definition zelda_card : node := mkdir_of [("GB", Dir zelda_gb)].

(** The same with an archive whose extension is in upper case. *)
Definition zelda_upper_card : node :=
  mkdir_of [("GB", mkdir_of [("zelda.gb", File "raw");
                             ("zelda.ZIP", File "zip")])].

(** A GB directory with a hand-edited record and a GameFile without
    record. *)
Definition csv_gb : gmap string node :=
  list_to_map [("game.zip", File "rom"); ("new.gb", File "raw");
               ("filelist.csv", File "game.zip,Custom Name,CustomRegion")].

Definition csv_card : node := mkdir_of [("GB", Dir csv_gb)].

(** A card with a favorites list that names a GameFile and a missing
    one, and a recent list that names only a missing one. *)
Definition lists_card : node :=
  mkdir_of
    [("GB", mkdir_of [("zelda.zip", File "zip")]);
     ("cubegm",
      mkdir_of [("favorites.lst",
                 File ("GB/zelda.gbc|Zelda" +:+ nl +:+ "GB/zelda.zip|Zelda"));
                ("recent.lst", File ("GB/zelda.gbc|Zelda" +:+ nl))])].

(** A card with a GameFile and no allfiles.lst. *)
Definition no_catalog_card : node :=
  mkdir_of [("GB", mkdir_of [("zelda.zip", File "zip")]);
            ("cubegm", mkdir_of [])].

(** A card whose catalog has a record to keep, a record to discard and a
    GameFile without record. *)
Definition catalog_files : gmap string node :=
  list_to_map
    [("allfiles.lst",
      File ("GB/zelda.zip|Zelda DX|ZELDA DX|z|z" +:+ nl
            +:+ "GB/gone.gb|Gone|GONE|gone|gone" +:+ nl))].

Definition catalog_card : node :=
  mkdir_of [("GB", mkdir_of [("zelda.zip", File "zip")]);
            ("FC", mkdir_of [("Mario.nes", File "nes")]);
            ("cubegm", Dir catalog_files)].

(** A GB directory with commas in a GameFile, in a root-level image
    and in an image of images/. *)
Definition comma_images : gmap string node :=
  list_to_map [("c,d.png", File "cover")].

Definition comma_gb : gmap string node :=
  list_to_map [("x,y.gb", File "rom"); ("a,b.png", File "art");
               ("images", Dir comma_images)].

Definition comma_card : node := mkdir_of [("GB", Dir comma_gb)].

(** A GB directory with one GameFile and two images that match it. *)
Definition two_covers_card : node :=
  mkdir_of [("GB", mkdir_of [("mario.zip", File "rom");
                             ("mario_a.png", File "cover a");
                             ("mario_b.png", File "cover b")])].

(** The card left by a run on [orphan_card]. *)
Definition reconciled_images : gmap string node :=
  list_to_map [("mario.png", File "m")].

Definition reconciled_gb : gmap string node :=
  list_to_map [("mario.zip", File "rom"); ("images", Dir reconciled_images);
               ("filelist.csv", File ("mario.zip,mario,mario" +:+ nl))].

Definition reconciled_card : node := mkdir_of [("GB", Dir reconciled_gb)].

(** A card with a duplicate of an archive, a file that is neither ROM
    nor image, and a directory that is no platform. *)
Definition keepsake_gb : gmap string node :=
  list_to_map [("zelda.gb", File "raw"); ("zelda.zip", File "zip");
               ("zelda.sav", File "save"); ("zelda.png", File "cover")].

Definition keepsake_card : node :=
  mkdir_of [("GB", Dir keepsake_gb);
            ("saves", mkdir_of [("slot1", File "state")])].

(** A GB directory with a GameFile, an image that matches it and an
    empty images/. *)
Definition cover_card : node :=
  mkdir_of [("GB", mkdir_of [("mario.zip", File "rom");
                             ("mario.png", File "cover");
                             ("images", Dir ∅)])].

(** * Properties *)

(** ** Strings *)

Lemma span_class_split p s :
  Py.split_on (λ c, negb (p c)) s =
  match Py.span_class p s with
  | (run, "") => [run]
  | (run, String _ rest) => run :: Py.split_on (λ c, negb (p c)) rest
  end.
Proof.
  induction s as [|c s IH]; simpl; [done|].
  destruct (p c) eqn:Hc; simpl; [|done].
  rewrite IH. destruct (Py.span_class p s) as [r [|d t]]; done.
Qed.

Lemma span_class_length p s :
  String.length (Py.span_class p s).2 ≤ String.length s.
Proof.
  induction s as [|c s IH]; simpl; [done|].
  destruct (p c); simpl; [|done].
  destruct (Py.span_class p s); simpl in *. lia.
Qed.

Lemma span_class_lengths p s :
  String.length (Py.span_class p s).1 + String.length (Py.span_class p s).2
  = String.length s.
Proof.
  induction s as [|c s IH]; simpl; [done|].
  destruct (p c); simpl; [|done].
  destruct (Py.span_class p s); simpl in *. lia.
Qed.

Lemma span_class_stop p s run d rest :
  Py.span_class p s = (run, String d rest) → p d = false.
Proof.
  revert run. induction s as [|c s IH]; simpl; intros run; [done|].
  destruct (p c) eqn:Hc.
  - destruct (Py.span_class p s) as [r t]. intros [= <- ->]. eauto.
  - by intros [= <- <- <-].
Qed.

Lemma findall_from_runs fuel s :
  String.length s ≤ fuel →
  Py.findall_from fuel s =
  filter (λ r, 2 ≤ String.length r)
         (Py.split_on (λ c, negb (Py.is_word c)) s).
Proof.
  revert s. induction fuel as [|fuel IH]; intros [|c s] Hlen; simpl in Hlen;
    try done; try lia.
  assert (∀ fuel', Py.findall_from fuel' "" = []) as Hnil by (by intros []).
  rewrite span_class_split.
  pose proof (span_class_lengths Py.is_word (String c s)) as Hsum.
  cbn [Py.findall_from].
  destruct (Py.span_class Py.is_word (String c s)) as [run rest] eqn:Hspan.
  cbn [fst snd] in Hsum. simpl in Hsum.
  destruct (2 <=? String.length run) eqn:Hrun.
  - apply Nat.leb_le in Hrun. destruct rest as [|d rest].
    + rewrite Hnil, filter_cons_True by done. done.
    + rewrite filter_cons_True by done. f_equal.
      rewrite IH by (simpl in *; lia). simpl.
      rewrite (span_class_stop _ _ _ _ _ Hspan). simpl.
      rewrite filter_cons_False by (simpl; lia). done.
  - apply Nat.leb_gt in Hrun. rewrite IH by lia.
    simpl in Hspan. destruct (Py.is_word c) eqn:Hc.
    + rewrite span_class_split.
      destruct (Py.span_class Py.is_word s) as [r t].
      injection Hspan as <- <-. simpl in Hrun.
      destruct r; [|simpl in Hrun; lia].
      destruct t; rewrite !filter_cons_False by (simpl; lia); done.
    + injection Hspan as <- <-. rewrite filter_cons_False by (simpl; lia).
      done.
Qed.

Lemma findall_words_runs s :
  Py.findall_words s =
  filter (λ r, 2 ≤ String.length r)
         (Py.split_on (λ c, negb (Py.is_word c)) s).
Proof. by apply findall_from_runs. Qed.

Lemma app_cons x a b : String x a +:+ b = String x (a +:+ b).
Proof. reflexivity. Qed.

Lemma app_empty_l b : "" +:+ b = b.
Proof. reflexivity. Qed.

Lemma prefix_spec a b : String.prefix a b = true ↔ ∃ post, b = a +:+ post.
Proof.
  revert b. induction a as [|x a IH]; intros b; simpl.
  - split; [|by destruct b]. intros _. by exists b.
  - destruct b as [|y b]; simpl.
    + split; [done|]. by intros [? ?].
    + destruct (Ascii.ascii_dec x y) as [->|Hne].
      * rewrite IH. split; intros [post Hp]; exists post;
          rewrite app_cons in *; congruence.
      * split; [done|]. intros [post Hp]. rewrite app_cons in Hp.
        congruence.
Qed.

Lemma contains_cons a y b :
  Py.contains a (String y b) = String.prefix a (String y b) || Py.contains a b.
Proof. reflexivity. Qed.

Lemma contains_spec a b : Py.contains a b = true ↔ is_substring a b.
Proof.
  unfold is_substring. induction b as [|y b IH].
  - change (Py.contains a "") with (String.prefix a "" || false).
    rewrite orb_false_r, prefix_spec. split.
    + intros [post Hp]. by exists "", post.
    + intros ([|? pre] & post & Hp); [by exists post|done].
  - rewrite contains_cons, orb_true_iff, prefix_spec, IH. split.
    + intros [[post Hp]|(pre & post & Hp)].
      * by exists "", post.
      * exists (String y pre), post. rewrite app_cons. by rewrite Hp.
    + intros ([|x pre] & post & Hp).
      * left. by exists post.
      * right. exists pre, post. rewrite app_cons in Hp. congruence.
Qed.

(** ** The name matcher *)

Lemma scan_img_words_spec rw img_words :
  scan_img_words rw img_words = true
  ↔ ∃ iw, iw ∈ img_words ∧ qualifies rw iw.
Proof.
  unfold qualifies. induction img_words as [|iw rest IH]; simpl.
  - split; [done|]. intros (iw & Hin & _). by apply elem_of_nil in Hin.
  - destruct (_ || _ || _) eqn:Hhit.
    + split; [|done]. intros _. exists iw. split; [left|].
      rewrite !orb_true_iff, String.eqb_eq, !contains_spec in Hhit. tauto.
    + rewrite IH. split.
      * intros (iw' & Hin & Hq). exists iw'. split; [by right|done].
      * intros (iw' & [->|Hin]%elem_of_cons & Hq); [|by exists iw'].
        rewrite <- !contains_spec, <- String.eqb_eq in Hq.
        rewrite !orb_false_iff in Hhit. destruct Hhit as [[? ?] ?].
        destruct Hq as [?|[?|?]]; congruence.
Qed.

Lemma count_loop_length (hit : string → bool) words n :
  foldl (λ score rw, if hit rw then S score else score) n words
  = n + length (filter (λ rw, hit rw = true) words).
Proof.
  revert n. induction words as [|w words IH]; intros n; simpl; [lia|].
  rewrite IH. destruct (hit w) eqn:Hw.
  - rewrite filter_cons_True by done. simpl. lia.
  - rewrite filter_cons_False by congruence. done.
Qed.

Lemma match_score_words_count rom_words img_words :
  match_score_words rom_words img_words
  = length (filter (λ rw, scan_img_words rw img_words = true) rom_words).
Proof.
  unfold match_score_words.
  destruct (bool_decide (rom_words = [])) eqn:Hr; simpl.
  { apply bool_decide_eq_true in Hr. by subst. }
  destruct (bool_decide (img_words = [])) eqn:Hi; simpl.
  { apply bool_decide_eq_true in Hi. subst. clear.
    induction rom_words as [|w l IH]; [done|].
    by rewrite filter_cons_False by done. }
  by rewrite count_loop_length.
Qed.

(** The score does not depend on the order in which the two sets of
    words are iterated. *)
Lemma match_score_words_perm rom_words rom_words' img_words img_words' :
  rom_words ≡ₚ rom_words' →
  (∀ w, w ∈ img_words ↔ w ∈ img_words') →
  match_score_words rom_words img_words
  = match_score_words rom_words' img_words'.
Proof.
  intros Hperm Hsame. rewrite !match_score_words_count.
  assert (∀ rw, scan_img_words rw img_words = true
                ↔ scan_img_words rw img_words' = true) as Hscan.
  { intros rw. rewrite !scan_img_words_spec.
    split; intros (iw & Hin & Hq); exists iw; split; try done;
      by apply Hsame. }
  rewrite (list_filter_iff _ (λ rw, scan_img_words rw img_words' = true))
    by done.
  by rewrite Hperm.
Qed.


(** ** Commands that leave the card alone *)

Lemma quiet_ret {A} (a : A) : quiet (mret a : M A).
Proof. by intros w. Qed.

Lemma quiet_bind {A B} (m : M A) (k : A → M B) :
  quiet m → (∀ a, quiet (k a)) → quiet (m ≫= k).
Proof.
  intros Hm Hk w. unfold mbind, M_bind.
  destruct (Hm w) as [Hd Ht]. destruct (m w) as [[a|e] w']; simpl in *.
  - destruct (Hk a w') as [Hd' Ht']. split; congruence.
  - done.
Qed.

Lemma quiet_gets {A} (f : node → A) : quiet (gets f).
Proof. by intros w. Qed.

Lemma quiet_reads {A} (f : node → result A) : quiet (reads f).
Proof. by intros w. Qed.

Lemma quiet_print e : quiet (print e).
Proof. by intros w. Qed.

Lemma quiet_when b m : (b = true → quiet m) → quiet (when_ b m).
Proof. destruct b; simpl; [auto|intros _; apply quiet_ret]. Qed.

Lemma quiet_unless_dry m : quiet (unless_dry true m).
Proof. apply quiet_ret. Qed.

Lemma quiet_for {A} (l : list A) body :
  (∀ x, quiet (body x)) → quiet (for_ l body).
Proof.
  intros Hb. induction l as [|x l IH]; simpl.
  - apply quiet_ret.
  - apply quiet_bind; auto.
Qed.

Lemma quiet_foldM {A S} (body : S → A → M S) s (l : list A) :
  (∀ s x, quiet (body s x)) → quiet (foldM body s l).
Proof.
  intros Hb. revert s. induction l as [|x l IH]; intros s; simpl.
  - apply quiet_ret.
  - apply quiet_bind; auto.
Qed.

Ltac quiet_step :=
  lazymatch goal with
  | |- quiet (mret _) => apply quiet_ret
  | |- quiet (_ ≫= _) => apply quiet_bind
  | |- quiet (gets _) => apply quiet_gets
  | |- quiet (reads _) => apply quiet_reads
  | |- quiet (print _) => apply quiet_print
  | |- quiet (for_ _ _) => apply quiet_for
  | |- quiet (foldM _ _ _) => apply quiet_foldM
  | |- quiet (when_ _ _) => apply quiet_when
  | |- quiet (unless_dry true _) => apply quiet_unless_dry
  | |- quiet (if ?b then _ else _) => destruct b
  | |- quiet (match ?x with _ => _ end) => destruct x
  | |- ∀ _, _ => intro
  end.

Ltac quiet := repeat quiet_step.

Lemma quiet_sanitize_platform platform : quiet (sanitize_platform true platform).
Proof. unfold sanitize_platform, rename_comma_roms, rename_comma_images. quiet. Qed.

Lemma quiet_associate_images platform rom_files direct_images :
  quiet (associate_images true platform rom_files direct_images).
Proof. unfold associate_images, associate_image. quiet. Qed.

Lemma quiet_prune_duplicates platform rom_files :
  quiet (prune_duplicates true platform rom_files).
Proof. unfold prune_duplicates. quiet. Qed.

Lemma quiet_prune_orphans platform : quiet (prune_orphans true platform).
Proof. unfold prune_orphans. quiet. Qed.

Lemma quiet_generate_csv platform : quiet (generate_csv true platform).
Proof. unfold generate_csv. quiet. Qed.

Lemma quiet_sync_platform platform : quiet (sync_platform true platform).
Proof.
  unfold sync_platform. quiet;
    auto using quiet_associate_images, quiet_prune_duplicates,
      quiet_prune_orphans, quiet_generate_csv.
Qed.

Lemma quiet_sync_allfiles : quiet (sync_allfiles true).
Proof. unfold sync_allfiles, catalog_lines. quiet. Qed.

Lemma quiet_valid_rom_keys : quiet valid_rom_keys.
Proof. unfold valid_rom_keys. quiet. Qed.

Lemma quiet_clean_list valid_roms lst_name :
  quiet (clean_list true valid_roms lst_name).
Proof. unfold clean_list. quiet. Qed.

Lemma quiet_clean_lists : quiet (clean_lists true).
Proof.
  unfold clean_lists. quiet;
    auto using quiet_valid_rom_keys, quiet_clean_list.
Qed.

Lemma quiet_summary_platform platform : quiet (summary_platform platform).
Proof. unfold summary_platform. quiet. Qed.

Lemma quiet_sync_sd_card : quiet (sync_sd_card true).
Proof.
  unfold sync_sd_card, reconcile, summary. quiet;
    auto using quiet_sanitize_platform, quiet_sync_platform,
      quiet_sync_allfiles, quiet_clean_lists, quiet_summary_platform.
Qed.

(** C1. A dry run performs no filesystem mutation: from every card the
    run, whether it returns or raises, leaves the card equal to the one it
    started from and performs no operation at all. *)
Theorem dry_run_no_mutation (t : node) :
  disk (run true t).2 = t ∧ trace (run true t).2 = [].
Proof. apply (quiet_sync_sd_card (World t [] [])). Qed.

(** ** The card *)

Lemma dir_entries_nil t :
  dir_entries [] t = match t with Dir es => Some es | File _ => None end.
Proof. by destruct t. Qed.

Lemma dir_entries_cons x d es :
  dir_entries (x :: d) (Dir es) = es !! x ≫= dir_entries d.
Proof. unfold dir_entries. simpl. by destruct (es !! x). Qed.

Lemma lookup_path_snoc d n t :
  lookup_path (d ++ [n]) t = dir_entries d t ≫= λ es, es !! n.
Proof.
  revert t. induction d as [|x d IH]; intros t.
  - rewrite dir_entries_nil. destruct t as [|es]; simpl; [done|].
    by destruct (es !! n).
  - destruct t as [|es]; [done|]. rewrite dir_entries_cons. simpl.
    destruct (es !! x); simpl; [apply IH|done].
Qed.

Lemma dir_entries_alter_in d g t :
  dir_entries d (alter_in d g t) = g <$> dir_entries d t.
Proof.
  revert t. induction d as [|x d IH]; intros [data|es]; try done.
  simpl. destruct (es !! x) as [c|] eqn:Hx.
  - rewrite !dir_entries_cons, lookup_insert_eq, Hx. simpl. apply IH.
  - rewrite dir_entries_cons, Hx. done.
Qed.

Lemma is_file_entries d n t es :
  dir_entries d t = Some es →
  is_file d n t = match es !! n with Some (File _) => true | _ => false end.
Proof. intros Hd. unfold is_file. by rewrite lookup_path_snoc, Hd. Qed.

Lemma path_exists_entries d n t es :
  dir_entries d t = Some es →
  path_exists (d ++ [n]) t = bool_decide (is_Some (es !! n)).
Proof. intros Hd. unfold path_exists. by rewrite lookup_path_snoc, Hd. Qed.

Lemma path_exists_dir d t es : dir_entries d t = Some es → path_exists d t = true.
Proof.
  unfold dir_entries, path_exists. intros Hd. apply bool_decide_eq_true.
  destruct (lookup_path d t); [by eexists|done].
Qed.

Lemma iterdir_entries d t es :
  dir_entries d t = Some es → iterdir d t = Ok ((map_to_list es).*1).
Proof. intros Hd. unfold iterdir. by rewrite Hd. Qed.

Lemma elem_of_listing (es : gmap string node) n :
  n ∈ (map_to_list es).*1 ↔ is_Some (es !! n).
Proof.
  rewrite list_elem_of_fmap. split.
  - intros ([k v] & -> & Hin). apply elem_of_map_to_list in Hin. by eexists.
  - intros [v Hv]. exists (n, v). split; [done|]. by apply elem_of_map_to_list.
Qed.

Lemma is_file_entries' d n t es :
  dir_entries d t = Some es → is_file d n t = file_in es n.
Proof. apply is_file_entries. Qed.

Lemma file_in_spec es n : file_in es n = true ↔ ∃ data, es !! n = Some (File data).
Proof.
  unfold file_in. destruct (es !! n) as [[data|sub]|]; split; try done;
    try by intros [? ?].
  intros _. by exists data.
Qed.

Lemma get_roms_entries d exts t es :
  dir_entries d t = Some es → get_roms d exts t = Ok (game_files exts es).
Proof.
  intros Hd. unfold get_roms, game_files.
  rewrite (path_exists_dir _ _ _ Hd), (iterdir_entries _ _ _ Hd). simpl.
  do 2 f_equal. apply list_filter_iff. intros f.
  by rewrite (is_file_entries' _ _ _ _ Hd).
Qed.

Lemma elem_of_game_files exts es f :
  f ∈ game_files exts es ↔ file_in es f ∧ has_ext exts f.
Proof.
  unfold game_files. rewrite merge_sort_Permutation, list_elem_of_filter.
  rewrite elem_of_listing. split; [tauto|].
  intros [Hf He]. split; [done|]. apply Is_true_true, file_in_spec in Hf.
  destruct Hf as [data Hf]. by eexists.
Qed.

Lemma file_in_delete es f n :
  file_in (delete f es) n = if decide (f = n) then false else file_in es n.
Proof. unfold file_in. rewrite lookup_delete. by case_decide. Qed.

Lemma lookup_sweep P l es n :
  sweep P l es !! n =
  if bool_decide (n ∈ l) && file_in es n && P n then None else es !! n.
Proof.
  unfold sweep. revert es. induction l as [|f l IH]; intros es; cbn [foldl].
  - by rewrite bool_decide_eq_false_2 by apply not_elem_of_nil.
  - rewrite IH. destruct (decide (f = n)) as [->|Hne].
    + rewrite (bool_decide_eq_true_2 (n ∈ n :: l)) by left.
      rewrite andb_true_l. destruct (file_in es n && P n) eqn:Hdel.
      * rewrite file_in_delete, decide_True by done.
        by rewrite andb_false_r, lookup_delete_eq.
      * by rewrite <- andb_assoc, Hdel, andb_false_r.
    + assert (file_in (if file_in es f && P f then delete f es else es) n
              = file_in es n) as ->.
      { destruct (_ && _); [|done]. by rewrite file_in_delete, decide_False. }
      assert ((if file_in es f && P f then delete f es else es) !! n
              = es !! n) as ->.
      { destruct (_ && _); [|done]. by rewrite lookup_delete_ne. }
      rewrite (bool_decide_ext (n ∈ f :: l) (n ∈ l)); [done|].
      rewrite elem_of_cons. intuition congruence.
Qed.

(** ** Running commands *)

Lemma run_bind {A B} (m : M A) (k : A → M B) w a w' :
  m w = (Ok a, w') → (m ≫= k) w = k a w'.
Proof. unfold mbind, M_bind. by intros ->. Qed.

Lemma run_gets {A B} (f : node → A) (k : A → M B) w :
  (gets f ≫= k) w = k (f (disk w)) w.
Proof. done. Qed.

Lemma run_reads {A B} (f : node → result A) (k : A → M B) w a :
  f (disk w) = Ok a → (reads f ≫= k) w = k a w.
Proof. unfold mbind, M_bind, reads. by intros ->. Qed.

Lemma run_print {B} e (k : unit → M B) w :
  (print e ≫= k) w = k () (World (disk w) (trace w) (out w ++ [e])).
Proof. done. Qed.

Lemma run_ret {A B} (a : A) (k : A → M B) w : (mret a ≫= k) w = k a w.
Proof. done. Qed.

Lemma run_assoc {A B C} (m : M A) (f : A → M B) (g : B → M C) w :
  ((m ≫= f) ≫= g) w = (m ≫= λ a, f a ≫= g) w.
Proof. unfold mbind, M_bind. by destruct (m w) as [[a|e] w']. Qed.

(** A loop whose body always returns and acts on the entries of the
    directory [d] as [step], keeping the invariant [I]. *)
Lemma for_entries {A} d (I : gmap string node → Prop)
    (step : A → gmap string node → gmap string node) (body : A → M unit) l :
  (∀ x w es, x ∈ l → I es → dir_entries d (disk w) = Some es →
     ∃ w', body x w = (Ok (), w')
           ∧ dir_entries d (disk w') = Some (step x es) ∧ I (step x es)) →
  ∀ w es, I es → dir_entries d (disk w) = Some es →
    ∃ w', for_ l body w = (Ok (), w')
          ∧ dir_entries d (disk w') = Some (foldl (λ m x, step x m) es l)
          ∧ I (foldl (λ m x, step x m) es l).
Proof.
  induction l as [|x l IH]; intros Hbody w es HI Hd; simpl.
  - by exists w.
  - destruct (Hbody x w es) as (w1 & Hrun & Hd1 & HI1); [by left|done..|].
    destruct (IH (λ y w es Hy, Hbody y w es (list_elem_of_further _ _ _ Hy))
                 w1 _ HI1 Hd1) as (w2 & Hrun2 & Hd2 & HI2).
    exists w2. by rewrite (run_bind _ _ _ _ _ Hrun).
Qed.

Lemma foldM_entries {A S} d (I : gmap string node → Prop)
    (step : A → gmap string node → gmap string node)
    (body : S → A → M S) l :
  (∀ s x w es, x ∈ l → I es → dir_entries d (disk w) = Some es →
     ∃ s' w', body s x w = (Ok s', w')
              ∧ dir_entries d (disk w') = Some (step x es) ∧ I (step x es)) →
  ∀ s w es, I es → dir_entries d (disk w) = Some es →
    ∃ s' w', foldM body s l w = (Ok s', w')
             ∧ dir_entries d (disk w') = Some (foldl (λ m x, step x m) es l)
             ∧ I (foldl (λ m x, step x m) es l).
Proof.
  induction l as [|x l IH]; intros Hbody s w es HI Hd; simpl.
  - by exists s, w.
  - destruct (Hbody s x w es) as (s1 & w1 & Hrun & Hd1 & HI1);
      [by left|done..|].
    destruct (IH (λ s y w es Hy, Hbody s y w es (list_elem_of_further _ _ _ Hy))
                 s1 w1 _ HI1 Hd1) as (s2 & w2 & Hrun2 & Hd2 & HI2).
    exists s2, w2. by rewrite (run_bind _ _ _ _ _ Hrun).
Qed.

(** A best-effort unlink removes the name when it is a regular file
    and does nothing otherwise. *)
Lemma run_best_effort_unlink d f w es :
  dir_entries d (disk w) = Some es →
  ∃ w', best_effort (OpUnlink d f) w = (Ok (), w')
        ∧ dir_entries d (disk w')
          = Some (if file_in es f then delete f es else es).
Proof.
  intros Hd. unfold best_effort, try_except, perform. simpl.
  unfold unlink, file_in. rewrite Hd.
  destruct (es !! f) as [[data|sub]|]; simpl; try by eexists.
  eexists. split; [done|]. simpl. by rewrite dir_entries_alter_in, Hd.
Qed.

(** ** Orphan images *)

Lemma when_true (m : M unit) : when_ true m = m.
Proof. done. Qed.

Lemma file_in_listed (es : gmap string node) f :
  file_in es f → f ∈ (map_to_list es).*1.
Proof.
  intros Hf. apply elem_of_listing. apply Is_true_true, file_in_spec in Hf.
  destruct Hf as [data Hf]. by eexists.
Qed.

Lemma no_files_counted (es : gmap string node) d t :
  dir_entries d t = Some es →
  length (filter (λ f, is_file d f t) ((map_to_list es).*1)) = 0 →
  ∀ f, ¬ file_in es f.
Proof.
  intros Hd Hlen f Hf. apply length_zero_iff_nil in Hlen.
  assert (f ∈ filter (λ f, is_file d f t) ((map_to_list es).*1)) as Hin.
  { apply list_elem_of_filter. split; [|by apply file_in_listed].
    by rewrite (is_file_entries' _ _ _ _ Hd). }
  rewrite Hlen in Hin. by apply elem_of_nil in Hin.
Qed.

Lemma run_prune_orphans platform w es imgs :
  dir_entries [platform] (disk w) = Some es →
  dir_entries (images_of platform) (disk w) = Some imgs →
  ∃ w', prune_orphans false platform w = (Ok (), w')
    ∧ dir_entries (images_of platform) (disk w')
      = Some (sweep (λ f, bool_decide
                            (stem f ∉ stem <$> game_files (rom_exts platform) es))
                    ((map_to_list imgs).*1) imgs).
Proof.
  intros Hes Himgs. unfold prune_orphans.
  rewrite run_gets, (path_exists_dir _ _ _ Himgs), when_true.
  rewrite (run_reads _ _ _ _ (get_roms_entries _ _ _ _ Hes)).
  set (roms := game_files (rom_exts platform) es).
  set (P := λ f, bool_decide (stem f ∉ stem <$> roms)).
  case_bool_decide as Hroms.
  - rewrite (run_reads _ _ _ _ (iterdir_entries _ _ _ Himgs)), run_gets.
    lazymatch goal with
    | |- context [foldM ?body0 ?s0 ?l0] =>
        destruct (foldM_entries (images_of platform) (λ _, True)
                    (λ f m, if file_in m f && P f then delete f m else m)
                    body0 l0) with (s := s0) (w := w) (es := imgs)
          as (n & w2 & Hrun & Hd2 & _); [|done|exact Himgs|]
    end.
    2:{ rewrite (run_bind _ _ _ _ _ Hrun). eexists. split; [done|].
        simpl. exact Hd2. }
    intros s f w1 es1 _ _ Hd1. rewrite run_gets.
    rewrite (is_file_entries' _ _ _ _ Hd1). fold (P f).
    destruct (file_in es1 f && P f) eqn:Hdel; [|by exists s, w1].
    apply andb_true_iff in Hdel as [Hf _].
    destruct (run_best_effort_unlink (images_of platform) f w1 es1 Hd1)
      as (w1' & Hrun & Hd1').
    unfold unless_dry. simpl negb. rewrite when_true.
    rewrite (run_bind _ _ _ _ _ Hrun). exists (S s), w1'.
    by rewrite Hf in Hd1'.
  - assert (∀ f, P f = true) as HP.
    { intros f. apply bool_decide_eq_true. rewrite Hroms.
      apply not_elem_of_nil. }
    rewrite (run_reads _ _ _ _ (iterdir_entries _ _ _ Himgs)).
    assert (∀ l, (∀ f, ¬ file_in imgs f) → sweep P l imgs = imgs) as Hstay.
    { intros l Hnone. apply map_eq. intros f. rewrite lookup_sweep.
      destruct (file_in imgs f) eqn:Hf; [by destruct (Hnone f); rewrite Hf|].
      by rewrite andb_false_r. }
    case_bool_decide as Hlisting; simpl.
    2:{ exists w. split; [done|]. rewrite Himgs, Hstay; [done|].
        intros f Hf%file_in_listed.
        rewrite Hlisting in Hf. by apply elem_of_nil in Hf. }
    rewrite (run_reads _ _ _ _ (iterdir_entries _ _ _ Himgs)), run_gets.
    case_bool_decide as Hcount; simpl.
    2:{ exists w. split; [done|]. rewrite Himgs, Hstay; [done|].
        eapply no_files_counted; [done|lia]. }
    rewrite run_print. unfold unless_dry. simpl negb. rewrite when_true.
    set (w0 := World _ _ _).
    rewrite (run_reads _ _ w0 _ (iterdir_entries _ _ _ Himgs)).
    lazymatch goal with
    | |- context [for_ ?l0 ?body0] =>
        destruct (for_entries (images_of platform) (λ _, True)
                    (λ f m, if file_in m f && P f then delete f m else m)
                    body0 l0) with (w := w0) (es := imgs)
          as (w2 & Hrun & Hd2 & _); [|done|exact Himgs|]
    end.
    2:{ exists w2. split; [exact Hrun|exact Hd2]. }
    intros f w1 es1 _ _ Hd1. rewrite run_gets.
    rewrite (is_file_entries' _ _ _ _ Hd1), HP, andb_true_r.
    destruct (file_in es1 f) eqn:Hf; [|by exists w1].
    destruct (run_best_effort_unlink (images_of platform) f w1 es1 Hd1)
      as (w1' & Hrun & Hd1').
    rewrite when_true. exists w1'. by rewrite Hf in Hd1'.
Qed.

(** C6. Orphan pruning, with the GameFile stems computed at that point
    of the run: when some GameFile exists, every regular file of images/
    whose stem is not among the stems is deleted and every file whose stem
    is among them is kept; when no GameFile exists, every regular file of
    images/ is deleted.  What is not a regular file stays.  In particular,
    from mario.zip with images/mario.png and images/ghost.png, the run
    keeps images/mario.png and removes images/ghost.png. *)
Theorem orphan_images_pruned :
  (∀ platform w es imgs,
      dir_entries [platform] (disk w) = Some es →
      dir_entries (images_of platform) (disk w) = Some imgs →
      ∃ w' imgs',
        prune_orphans false platform w = (Ok (), w')
        ∧ dir_entries (images_of platform) (disk w') = Some imgs'
        ∧ ∀ f,
            if file_in imgs f then
              if bool_decide (game_files (rom_exts platform) es = [])
              then imgs' !! f = None
              else if bool_decide
                        (stem f ∈ stem <$> game_files (rom_exts platform) es)
                   then imgs' !! f = imgs !! f
                   else imgs' !! f = None
            else imgs' !! f = imgs !! f)
  ∧ (let t := disk (run false orphan_card).2 in
     (run false orphan_card).1 = Ok ()
     ∧ lookup_path ["GB"; "images"; "mario.png"] t = Some (File "m")
     ∧ lookup_path ["GB"; "images"; "ghost.png"] t = None
     ∧ lookup_path ["GB"; "mario.zip"] t = Some (File "rom")).
Proof.
  split; [|by vm_compute].
  intros platform w es imgs Hes Himgs.
  destruct (run_prune_orphans platform w es imgs Hes Himgs)
    as (w' & Hrun & Hd').
  eexists w', _. split; [exact Hrun|]. split; [exact Hd'|].
  intros f. rewrite lookup_sweep.
  destruct (file_in imgs f) eqn:Hf; [|by rewrite andb_false_r].
  rewrite (bool_decide_eq_true_2 (f ∈ (map_to_list imgs).*1))
    by (by apply file_in_listed; rewrite Hf).
  rewrite andb_true_l. case_bool_decide as Hroms.
  - rewrite Hroms. by rewrite bool_decide_eq_true_2 by apply not_elem_of_nil.
  - case_bool_decide as Hstem.
    + by rewrite bool_decide_eq_false_2 by tauto.
    + by rewrite bool_decide_eq_true_2.
Qed.

(** The orphan step on the card with mario.zip, images/mario.png and
    images/ghost.png. *)
Lemma orphan_images_pruned_witness :
  ∃ w' imgs',
    prune_orphans false "GB" (World orphan_card [] []) = (Ok (), w')
    ∧ dir_entries (images_of "GB") (disk w') = Some imgs'
    ∧ ∀ f,
        if file_in orphan_images f then
          if bool_decide (game_files (rom_exts "GB") orphan_gb = [])
          then imgs' !! f = None
          else if bool_decide
                    (stem f ∈ stem <$> game_files (rom_exts "GB") orphan_gb)
               then imgs' !! f = orphan_images !! f
               else imgs' !! f = None
        else imgs' !! f = orphan_images !! f.
Proof.
  apply (proj1 orphan_images_pruned "GB" (World orphan_card [] [])
           orphan_gb orphan_images); reflexivity.
Defined.

(** ** Duplicates of an archive *)

Lemma is_duplicate_spec rom_files rom :
  is_duplicate rom_files rom = true
  ↔ suffix rom ≠ ".zip"
    ∧ ∃ z, z ∈ rom_files ∧ suffix z = ".zip" ∧ stem z = stem rom.
Proof.
  unfold is_duplicate.
  rewrite andb_true_iff, !bool_decide_eq_true, list_elem_of_fmap.
  setoid_rewrite list_elem_of_filter.
  split; intros [? (z & ? & ?)]; (split; [done|]); exists z; intuition.
Qed.

Lemma run_prune_duplicates platform rom_files w es :
  dir_entries [platform] (disk w) = Some es →
  ∃ w', prune_duplicates false platform rom_files w = (Ok (), w')
    ∧ dir_entries [platform] (disk w')
      = Some (sweep (is_duplicate rom_files) rom_files es).
Proof.
  intros Hes. unfold prune_duplicates.
  case_bool_decide as Hroms; simpl.
  2:{ exists w. split; [done|]. by rewrite Hroms. }
  lazymatch goal with
  | |- context [for_ ?l0 ?body0] =>
      destruct (for_entries [platform] (λ _, True)
                  (λ f m, if file_in m f && is_duplicate rom_files f
                          then delete f m else m)
                  body0 l0) with (w := w) (es := es)
        as (w2 & Hrun & Hd2 & _); [|done|exact Hes|]
  end.
  2:{ exists w2. split; [exact Hrun|exact Hd2]. }
  intros f w1 es1 _ _ Hd1. fold (is_duplicate rom_files f).
  destruct (is_duplicate rom_files f); simpl.
  2:{ exists w1. by rewrite andb_false_r. }
  rewrite run_print. set (w0 := World _ _ _).
  destruct (run_best_effort_unlink [platform] f w0 es1 Hd1)
    as (w1' & Hrun & Hd1').
  unfold unless_dry. simpl negb. rewrite when_true.
  exists w1'. by rewrite andb_true_r.
Qed.



(** ** The regenerated filelist.csv *)

Lemma read_text_entries d n t es data :
  dir_entries d t = Some es → es !! n = Some (File data) →
  read_text d n t = Ok data.
Proof. intros Hd Hn. unfold read_text. by rewrite Hd, Hn. Qed.

Lemma load_csv_entries d n t es old :
  dir_entries d t = Some es → es !! n = File <$> old →
  load_csv d n t = Ok (from_option parse_csv ∅ old).
Proof.
  intros Hd Hn. unfold load_csv. rewrite (path_exists_entries _ _ _ _ Hd), Hn.
  destruct old as [data|]; [|done].
  rewrite bool_decide_eq_true_2 by (by eexists).
  by rewrite (read_text_entries _ _ _ _ _ Hd Hn).
Qed.

(** Writing a text file that is not a directory. *)
Lemma run_write d n data w es old :
  dir_entries d (disk w) = Some es → es !! n = File <$> old →
  ∃ w', perform (OpWrite d n data) w = (Ok (), w')
        ∧ dir_entries d (disk w') = Some (<[n := File data]> es)
        ∧ out w' = out w.
Proof.
  intros Hd Hn. unfold perform. simpl. unfold write_text. rewrite Hd, Hn.
  destruct old; simpl; (eexists; split; [done|]); simpl;
    by rewrite dir_entries_alter_in, Hd.
Qed.

Lemma game_files_sorted exts es : StronglySorted String.le (game_files exts es).
Proof. apply StronglySorted_merge_sort; apply _. Qed.

Lemma csv_line_default old_csv rom :
  csv_line old_csv rom
  = rom +:+ "," +:+ default (stem rom +:+ "," +:+ stem rom) (old_csv !! rom).
Proof. unfold csv_line. by destruct (old_csv !! rom). Qed.



(** ** Scanning all platforms *)

Lemma foldM_pure {A S} (body : S → A → M S) (g : S → A → S) l s w :
  (∀ s x, x ∈ l → body s x w = (Ok (g s x), w)) →
  foldM body s l w = (Ok (foldl g s l), w).
Proof.
  revert s. induction l as [|x l IH]; intros s Hbody; simpl; [done|].
  rewrite (run_bind _ _ _ _ _ (Hbody s x ltac:(left))).
  apply IH. intros s' y Hy. apply Hbody. by right.
Qed.

Lemma platform_lookup t platform :
  (∀ data, lookup_path [platform] t ≠ Some (File data)) →
  (path_exists [platform] t = false ∧ dir_entries [platform] t = None)
  ∨ (∃ es, dir_entries [platform] t = Some es).
Proof.
  intros Hok. unfold path_exists, dir_entries in *.
  destruct (lookup_path [platform] t) as [[data|es]|].
  - by destruct (Hok data).
  - right. by exists es.
  - left. split; [|done]. apply bool_decide_eq_false. by intros [? ?].
Qed.

(** The scan of the platforms reads the card and leaves it alone. *)
Lemma run_platform_scan {S} (g : S → string → list string → S) l s w :
  (∀ platform data,
      platform ∈ l → lookup_path [platform] (disk w) ≠ Some (File data)) →
  foldM (λ (acc : S) (platform : string),
           ex ← gets (path_exists [platform]);
           if ex : bool then
             roms ← reads (get_roms [platform] (rom_exts platform));
             mret (g acc platform roms)
           else mret acc) s l w
  = (Ok (foldl (λ acc platform,
                  match dir_entries [platform] (disk w) with
                  | Some es => g acc platform (game_files (rom_exts platform) es)
                  | None => acc
                  end) s l), w).
Proof.
  intros Hok. apply foldM_pure. intros acc platform Hin. rewrite run_gets.
  destruct (platform_lookup (disk w) platform) as [[Hex Hd]|[es Hd]].
  { intros data. by apply Hok. }
  - by rewrite Hex, Hd.
  - rewrite (path_exists_dir _ _ _ Hd), Hd.
    by rewrite (run_reads _ _ _ _ (get_roms_entries _ _ _ _ Hd)).
Qed.

Lemma elem_of_key_union platform roms (v : gset string) key :
  key ∈ foldl (λ v rom, {[catalog_key platform rom]} ∪ v) v roms
  ↔ key ∈ v ∨ ∃ rom, rom ∈ roms ∧ key = catalog_key platform rom.
Proof.
  revert v. induction roms as [|r roms IH]; intros v; simpl.
  - split; [by left|]. intros [?|(rom & Hin & _)]; [done|].
    by apply elem_of_nil in Hin.
  - rewrite IH, elem_of_union, elem_of_singleton. split.
    + intros [[->|?]|(rom & Hin & ->)]; eauto.
      * right. exists r. split; [left|done].
      * right. exists rom. split; [by right|done].
    + intros [?|(rom & [->|Hin]%elem_of_cons & ->)]; eauto.
Qed.

Lemma platform_dirs_ok_lookup t platform data :
  platform_dirs_ok t → platform ∈ platforms →
  lookup_path [platform] t ≠ Some (File data).
Proof.
  intros Hok Hin Hfile. unfold platform_dirs_ok in Hok.
  rewrite Forall_forall in Hok. specialize (Hok platform Hin).
  unfold is_file in Hok. simpl in Hok, Hfile. by rewrite Hfile in Hok.
Qed.

Lemma run_valid_rom_keys w :
  platform_dirs_ok (disk w) →
  ∃ valid_roms,
    valid_rom_keys w = (Ok valid_roms, w)
    ∧ ∀ key, key ∈ valid_roms ↔ is_game_key (disk w) key.
Proof.
  intros Hok. unfold valid_rom_keys.
  rewrite (run_platform_scan
             (λ v platform roms,
                foldl (λ v rom, {[catalog_key platform rom]} ∪ v) v roms))
    by (intros ???; by apply platform_dirs_ok_lookup).
  eexists. split; [done|]. intros key. unfold is_game_key, game_files_of.
  assert (∀ l (v : gset string),
    key ∈ foldl (λ acc platform,
                   match dir_entries [platform] (disk w) with
                   | Some es =>
                       foldl (λ v rom, {[catalog_key platform rom]} ∪ v) acc
                             (game_files (rom_exts platform) es)
                   | None => acc
                   end) v l
    ↔ key ∈ v ∨ ∃ platform rom,
        platform ∈ l
        ∧ rom ∈ match dir_entries [platform] (disk w) with
                | Some es => game_files (rom_exts platform) es
                | None => []
                end
        ∧ key = catalog_key platform rom) as Hfold.
  { induction l as [|p l IH]; intros v; simpl.
    - split; [by left|]. intros [?|(? & ? & Hin & _)]; [done|].
      by apply elem_of_nil in Hin.
    - rewrite IH. destruct (dir_entries [p] (disk w)) as [es|] eqn:Hd.
      + rewrite elem_of_key_union. split.
        * intros [[?|(rom & Hin & ->)]|(q & rom & Hq & Hin & ->)]; eauto.
          -- right. exists p, rom. rewrite Hd. split; [left|done].
          -- right. exists q, rom. split; [by right|done].
        * intros [?|(q & rom & [->|Hq]%elem_of_cons & Hin & ->)]; eauto.
          -- rewrite Hd in Hin. eauto.
          -- right. eauto.
      + split.
        * intros [?|(q & rom & Hq & Hin & ->)]; eauto.
          right. exists q, rom. split; [by right|done].
        * intros [?|(q & rom & [->|Hq]%elem_of_cons & Hin & ->)]; eauto.
          -- rewrite Hd in Hin. by apply elem_of_nil in Hin.
          -- right. eauto. }
  rewrite Hfold. split; [|by right].
  intros [Hin|?]; [|done]. by apply elem_of_empty in Hin.
Qed.

(** ** favorites.lst and recent.lst *)

Lemma filter_list_spec valid_roms lines :
  filter_list valid_roms lines
  = (filter (λ line, Py.first_field "|" line ∈ valid_roms) lines,
     length (filter (λ line, Py.first_field "|" line ∉ valid_roms) lines)).
Proof.
  unfold filter_list.
  enough (∀ kept removed,
    foldl (λ '(kept, removed) line,
             let key := Py.first_field "|" line in
             if bool_decide (key ∈ valid_roms) then (kept ++ [line], removed)
             else (kept, S removed)) (kept, removed) lines
    = (kept ++ filter (λ line, Py.first_field "|" line ∈ valid_roms) lines,
       removed + length (filter (λ line, Py.first_field "|" line ∉ valid_roms)
                                lines))) as H by apply H.
  induction lines as [|line lines IH]; intros kept removed; simpl.
  - by rewrite app_nil_r, Nat.add_0_r.
  - case_bool_decide as Hkey; rewrite IH.
    + rewrite filter_cons_True, filter_cons_False by tauto.
      by rewrite <- app_assoc.
    + rewrite filter_cons_False, filter_cons_True by done.
      simpl. f_equal. lia.
Qed.

Lemma run_clean_list valid_roms lst_name w es old :
  dir_entries cubegm (disk w) = Some es →
  es !! lst_name = File <$> old →
  ∃ w', clean_list false valid_roms lst_name w = (Ok (), w')
    ∧ dir_entries cubegm (disk w')
      = Some (match old with
              | Some content =>
                  <[lst_name := File (filtered_list valid_roms content)]> es
              | None => es
              end).
Proof.
  intros Hes Hlst. unfold clean_list.
  rewrite run_gets, (path_exists_entries _ _ _ _ Hes), Hlst.
  destruct old as [content|].
  2:{ rewrite bool_decide_eq_false_2 by (by intros [? ?]). by exists w. }
  rewrite bool_decide_eq_true_2 by (by eexists). rewrite when_true.
  rewrite (run_reads _ _ _ _ (read_text_entries _ _ _ _ _ Hes Hlst)).
  rewrite filter_list_spec.
  lazymatch goal with
  | |- context [perform (OpWrite _ _ ?data)] =>
      destruct (run_write cubegm lst_name data w es (Some content) Hes Hlst)
        as (w1 & Hrun & Hd1 & _)
  end.
  rewrite (run_bind _ _ _ _ _ Hrun). eexists. split; [done|].
  simpl. rewrite Hd1. unfold filtered_list. do 3 f_equal.
  by repeat case_bool_decide.
Qed.



(** ** allfiles.lst *)

Lemma catalog_line_expected old_allfiles platform rom :
  catalog_line old_allfiles platform rom
  = expected_catalog_line old_allfiles (platform, rom).
Proof.
  unfold catalog_line, expected_catalog_line, catalog_key. simpl.
  by destruct (old_allfiles !! _).
Qed.

Lemma catalog_scan_entries old_allfiles t l acc :
  ∃ lines,
    foldl (λ acc platform,
             match dir_entries [platform] t with
             | Some es =>
                 acc ++ (catalog_line old_allfiles platform
                           <$> game_files (rom_exts platform) es)
             | None => acc
             end) acc l = acc ++ lines
    ∧ Forall2 (λ entry line, line = expected_catalog_line old_allfiles entry)
              (l ≫= λ platform,
                 (λ rom, (platform, rom)) <$> game_files_of t platform)
              lines.
Proof.
  revert acc. induction l as [|p l IH]; intros acc; simpl.
  - exists []. by rewrite app_nil_r.
  - unfold game_files_of at 1.
    destruct (dir_entries [p] t) as [es|]; simpl.
    + destruct (IH (acc ++ (catalog_line old_allfiles p
                              <$> game_files (rom_exts p) es)))
        as (lines & -> & Hlines).
      eexists. rewrite <- app_assoc. split; [done|].
      apply Forall2_app; [|done].
      apply Forall2_fmap, Forall_Forall2_diag, Forall_forall.
      intros rom _. apply catalog_line_expected.
    + apply IH.
Qed.

Lemma run_sync_allfiles_missing w :
  lookup_path ["cubegm"; "allfiles.lst"] (disk w) = None →
  sync_allfiles false w = (Ok (), w).
Proof.
  intros Hnone. unfold sync_allfiles. rewrite run_gets.
  unfold path_exists. simpl app. rewrite Hnone.
  by rewrite bool_decide_eq_false_2 by (by intros [? ?]).
Qed.

Lemma run_sync_allfiles w es content :
  platform_dirs_ok (disk w) →
  dir_entries cubegm (disk w) = Some es →
  es !! "allfiles.lst" = Some (File content) →
  ∃ w' lines,
    sync_allfiles false w = (Ok (), w')
    ∧ dir_entries cubegm (disk w')
      = Some (<["allfiles.lst" := File (Py.join nl lines +:+ nl)]> es)
    ∧ Forall2 (λ entry line,
                 line = expected_catalog_line (parse_allfiles content) entry)
              (catalog_entries (disk w)) lines.
Proof.
  intros Hok Hes Hfile. unfold sync_allfiles.
  rewrite run_gets, (path_exists_entries _ _ _ _ Hes), Hfile.
  rewrite bool_decide_eq_true_2 by (by eexists). rewrite when_true.
  rewrite (run_reads _ _ _ _ (read_text_entries _ _ _ _ _ Hes Hfile)).
  unfold catalog_lines.
  erewrite run_bind; last first.
  { apply (run_platform_scan
             (λ new_lines platform roms,
                new_lines ++ (catalog_line (parse_allfiles content) platform
                                <$> roms))).
    intros ???. by apply platform_dirs_ok_lookup. }
  destruct (catalog_scan_entries (parse_allfiles content) (disk w) platforms [])
    as (lines & -> & Hlines). rewrite app_nil_l.
  destruct (run_write cubegm "allfiles.lst" (Py.join nl lines +:+ nl)
              w es (Some content) Hes Hfile) as (w1 & Hrun & Hd1 & _).
  rewrite (run_bind _ _ _ _ _ Hrun).
  eexists _, lines. split; [done|]. split; [exact Hd1|done].
Qed.

Lemma elem_of_catalog_entries t platform rom :
  (platform, rom) ∈ catalog_entries t
  ↔ platform ∈ platforms ∧ rom ∈ game_files_of t platform.
Proof.
  unfold catalog_entries. rewrite list_elem_of_bind. split.
  - intros (p & Hin & Hp). apply list_elem_of_fmap in Hin as (r & [= -> ->] & Hr).
    done.
  - intros [Hp Hr]. exists platform. split; [|done].
    apply list_elem_of_fmap. by exists rom.
Qed.

Lemma game_files_of_sorted t platform :
  StronglySorted String.le (game_files_of t platform).
Proof.
  unfold game_files_of. destruct (dir_entries _ _).
  - apply game_files_sorted.
  - constructor.
Qed.




(** ** Names with commas *)

Lemma has_char_remove_char c s : Py.has_char c (Py.remove_char c s) = false.
Proof.
  induction s as [|x s IH]; simpl; [done|].
  destruct (Ascii.eqb x c) eqn:Hx; simpl; [done|]. by rewrite Hx.
Qed.

Lemma remove_char_neq f n :
  Py.has_char "," n → Py.remove_char "," f ≠ n.
Proof. intros Hn <-. by rewrite has_char_remove_char in Hn. Qed.

Section renames.
Variable P : string → bool.
Hypothesis P_comma : ∀ f, P f → Py.has_char "," f.

Lemma rename_step_comma f m n :
Py.has_char "," n → f ≠ n → rename_step P f m !! n = m !! n.
Proof.
intros Hn Hne. unfold rename_step.
destruct (m !! f) as [[data|sub]|]; try done.
destruct (P f); [|done].
rewrite lookup_insert_ne by by apply remove_char_neq.
by rewrite lookup_delete_ne.
Qed.

Lemma rename_step_self f m :
rename_step P f m !! f = if file_in m f && P f then None else m !! f.
Proof.
unfold rename_step, file_in.
destruct (m !! f) as [[data|sub]|] eqn:Hf; rewrite ?Hf; try done.
simpl. destruct (P f) eqn:HP; [|done].
rewrite lookup_insert_ne, lookup_delete_eq; [done|].
apply remove_char_neq, P_comma. by rewrite HP.
Qed.

(** A name with a comma: gone when it was renamed, untouched otherwise. *)
Lemma lookup_rename_all_comma l m n :
Py.has_char "," n →
rename_all P l m !! n =
if bool_decide (n ∈ l) && file_in m n && P n then None else m !! n.
Proof.
intros Hn. unfold rename_all. revert m.
induction l as [|f l IH]; intros m; cbn [foldl].
- by rewrite bool_decide_eq_false_2 by apply not_elem_of_nil.
- rewrite IH. destruct (decide (f = n)) as [->|Hne].
  + rewrite (bool_decide_eq_true_2 (n ∈ n :: l)) by left.
    rewrite andb_true_l. unfold file_in at 1.
    rewrite rename_step_self.
    destruct (file_in m n && P n) eqn:Hren.
    * by rewrite andb_false_r.
    * fold (file_in m n). by rewrite <- andb_assoc, Hren, andb_false_r.
  + unfold file_in at 1. rewrite rename_step_comma by done.
    fold (file_in m n).
    rewrite (bool_decide_ext (n ∈ f :: l) (n ∈ l)); [done|].
    rewrite elem_of_cons. intuition congruence.
Qed.

(** A file under a name without comma stays a file. *)
Lemma rename_step_file f m t :
Py.has_char "," t = false → file_in m t → file_in (rename_step P f m) t.
Proof.
intros Ht Hfile. unfold rename_step.
destruct (m !! f) as [[data|sub]|] eqn:Hf; try done.
destruct (P f) eqn:HP; [|done].
unfold file_in. destruct (decide (Py.remove_char "," f = t)) as [->|Hne].
- by rewrite lookup_insert_eq.
- rewrite lookup_insert_ne, lookup_delete_ne; [done| |done].
  intros ->. assert (Py.has_char "," t) as Hc by (apply P_comma; by rewrite HP).
  by rewrite Ht in Hc.
Qed.

Lemma rename_all_file l m t :
Py.has_char "," t = false → file_in m t → file_in (rename_all P l m) t.
Proof.
intros Ht. unfold rename_all. revert m.
induction l as [|f l IH]; intros m Hfile; cbn [foldl]; [done|].
by apply IH, rename_step_file.
Qed.

(** A renamed file is found under its name without commas. *)
Lemma rename_all_target l m f :
f ∈ l → file_in m f → P f →
file_in (rename_all P l m) (Py.remove_char "," f).
Proof.
intros Hin Hfile HP. revert m Hfile.
induction l as [|g l IH]; intros m Hfile; [by apply elem_of_nil in Hin|].
unfold rename_all. cbn [foldl]. fold (rename_all P l (rename_step P g m)).
destruct (decide (g = f)) as [->|Hne].
- apply rename_all_file; [apply has_char_remove_char|].
  unfold rename_step, file_in in *.
  destruct (m !! f) as [[data|sub]|]; try done.
  destruct (P f); [|done]. by rewrite lookup_insert_eq.
- apply IH.
  + apply elem_of_cons in Hin as [->|?]; done.
  + unfold file_in. rewrite rename_step_comma; [done| |done].
    by apply P_comma.
Qed.

(** The directories are those of before, while no renamed file lands
  on a directory. *)
Lemma rename_step_dirs f m n sub :
(∀ sub', m !! Py.remove_char "," f ≠ Some (Dir sub')) →
rename_step P f m !! n = Some (Dir sub) ↔ m !! n = Some (Dir sub).
Proof.
intros Hfree. unfold rename_step.
destruct (m !! f) as [[data|sub']|] eqn:Hf; try done.
destruct (P f); [|done].
destruct (decide (Py.remove_char "," f = n)) as [<-|Hne].
- rewrite lookup_insert_eq. split; [done|]. intros H. by destruct (Hfree sub).
- rewrite lookup_insert_ne by done.
  destruct (decide (f = n)) as [<-|Hne'].
  + rewrite lookup_delete_eq, Hf. done.
  + by rewrite lookup_delete_ne.
Qed.

Lemma run_rename_loop d (ev : string → string → event) l w es :
dir_entries d (disk w) = Some es →
no_dir_targets es →
∃ w', for_ l (λ f,
        isf ← gets (is_file d f);
        when_ (isf && P f)
          (print (ev f (Py.remove_char "," f));;
           unless_dry false
             (perform (OpRename d f (Py.remove_char "," f))))) w
      = (Ok (), w')
  ∧ dir_entries d (disk w') = Some (rename_all P l es).
Proof.
intros Hes Hfree.
lazymatch goal with
| |- context [for_ ?l0 ?body0] =>
    destruct (for_entries d
                (λ m, (∀ n sub, m !! n = Some (Dir sub)
                                ↔ es !! n = Some (Dir sub))
                      ∧ (∀ n, Py.has_char "," n → file_in m n →
                              file_in es n))
                (rename_step P) body0 l0) with (w := w) (es := es)
      as (w2 & Hrun & Hd2 & _); [|done|exact Hes|]
end.
2:{ exists w2. split; [exact Hrun|exact Hd2]. }
intros f w1 m _ [HI HC] Hd1.
rewrite run_gets, (is_file_entries' _ _ _ _ Hd1).
destruct (file_in m f && P f) eqn:Hren.
2:{ exists w1. split; [done|].
    assert (rename_step P f m = m) as ->; [|done].
    unfold rename_step, file_in in *.
    destruct (m !! f) as [[data|sub]|]; try done.
    simpl in Hren. by rewrite Hren. }
apply andb_true_iff in Hren as [Hfile HP].
assert (Py.has_char "," f) as Hcomma by (apply P_comma; by rewrite HP).
assert (Py.remove_char "," f ≠ ""
        ∧ ∀ sub', m !! Py.remove_char "," f ≠ Some (Dir sub')) as [Hne Hnd].
{ destruct (Hfree f) as [Hne Hnd]; [|done|].
  { apply HC; [done|]. by rewrite Hfile. }
  split; [done|]. intros sub'. rewrite HI. apply Hnd. }
rewrite when_true, run_print. unfold unless_dry. simpl negb.
rewrite when_true. unfold perform. simpl. unfold rename.
rewrite (bool_decide_eq_false_2 _ Hne), Hd1.
unfold file_in in Hfile.
destruct (m !! f) as [[data|sub]|] eqn:Hf; try done.
assert (∀ X (a b : X),
          match m !! Py.remove_char "," f with
          | Some (Dir _) => a
          | _ => b
          end = b) as Hmatch.
{ intros X a b. destruct (m !! Py.remove_char "," f) as [[?|sub']|];
    try done. by destruct (Hnd sub'). }
rewrite Hmatch. eexists. split; [done|]. simpl.
rewrite dir_entries_alter_in, Hd1.
assert (rename_step P f m
        = <[Py.remove_char "," f := File data]> (delete f m)) as Hstep.
{ unfold rename_step. by rewrite Hf, HP. }
rewrite Hstep. split; [done|]. split.
- intros n sub. rewrite <- HI, <- Hstep. by apply rename_step_dirs.
- intros n Hn Hfn. apply HC; [done|]. unfold file_in in *.
  rewrite lookup_insert_ne in Hfn by by apply remove_char_neq.
  rewrite lookup_delete in Hfn. by case_decide.
Qed.

End renames.

Lemma for_ext {A} (body body' : A → M unit) l w :
  (∀ x w, body x w = body' x w) → for_ l body w = for_ l body' w.
Proof.
  intros Hext. revert w. induction l as [|x l IH]; intros w; simpl; [done|].
  unfold mbind, M_bind. rewrite Hext.
  destruct (body' x w) as [[[]|e] w']; [apply IH|done].
Qed.

Lemma run_rename_comma_roms platform w es :
  dir_entries [platform] (disk w) = Some es →
  no_dir_targets es →
  ∃ w', rename_comma_roms false platform w = (Ok (), w')
    ∧ dir_entries [platform] (disk w')
      = Some (rename_all (λ f, has_ext (rom_exts platform) f
                               && Py.has_char "," f)
                         ((map_to_list es).*1) es).
Proof.
  intros Hes Hfree. unfold rename_comma_roms.
  rewrite (run_reads _ _ _ _ (iterdir_entries _ _ _ Hes)).
  set (P := λ f, has_ext (rom_exts platform) f && Py.has_char "," f).
  assert (∀ f, P f → Py.has_char "," f) as HP.
  { intros f [_ Hc]%andb_prop_elim. done. }
  erewrite for_ext;
    [by apply (run_rename_loop P HP [platform] (EvRenameRom platform))|].
  intros f w1. cbv beta. rewrite !run_gets. unfold P. by rewrite andb_assoc.
Qed.

Lemma run_rename_comma_images platform w imgs :
  dir_entries (images_of platform) (disk w) = Some imgs →
  no_dir_targets imgs →
  ∃ w', rename_comma_images false platform w = (Ok (), w')
    ∧ dir_entries (images_of platform) (disk w')
      = Some (rename_all (Py.has_char ",") ((map_to_list imgs).*1) imgs).
Proof.
  intros Himgs Hfree. unfold rename_comma_images.
  rewrite run_gets, (path_exists_dir _ _ _ Himgs), when_true.
  rewrite (run_reads _ _ _ _ (iterdir_entries _ _ _ Himgs)).
  by apply (run_rename_loop (Py.has_char ",") (λ f H, H)
              (images_of platform) (EvRenameImg platform)).
Qed.

(** Go through the files of a directory given by the list of its
    entries, and compute each case. *)
Ltac file_cases H :=
  let data := fresh "data" in
  let Heq := fresh "Heq" in
  apply Is_true_true, file_in_spec in H as [data H];
  apply elem_of_list_to_map_2 in H;
  repeat (apply elem_of_cons in H as [Heq|H];
          [simplify_eq; try by vm_compute|]);
  by apply elem_of_nil in H.

(** The sanitize step leaves a comma in the name of a root-level
    CoverImage: on a card with GB/a,b.png the step returns and the file
    still has its name. *)
Lemma root_image_comma_kept : ¬ commas_stripped_everywhere.
Proof.
  intros Hclaim.
  destruct (Hclaim "GB" (World comma_card [] []) comma_gb)
    as (w' & es' & Hrun & Hd' & Hroot & _).
  - reflexivity.
  - intros f Hf _. file_cases Hf.
  - intros data. by vm_compute.
  - intros imgs [= <-] f Hf _. file_cases Hf.
  - remember (sanitize_platform false "GB" (World comma_card [] [])) as r eqn:Hr.
    vm_compute in Hr. subst r. injection Hrun as <-.
    vm_compute in Hd'. injection Hd' as <-.
    destruct (Hroot "a,b.png") as [Hgone _]; [done|by right|done|].
    vm_compute in Hgone. discriminate Hgone.
Qed.

(** C8, amended. The sanitize step in execute mode, where no renamed
    file lands on a directory.  At the platform root every GameFile whose
    name has a comma is renamed to its name without commas, and every other
    name with a comma, a root-level CoverImage included, is left as it is.
    Inside images/ every regular file whose name has a comma is renamed to
    its name without commas. *)
Theorem commas_stripped :
  (∀ platform w es,
      dir_entries [platform] (disk w) = Some es →
      no_dir_targets es →
      ∃ w' es',
        rename_comma_roms false platform w = (Ok (), w')
        ∧ dir_entries [platform] (disk w') = Some es'
        ∧ (∀ f, file_in es f → has_ext (rom_exts platform) f →
                Py.has_char "," f →
                es' !! f = None ∧ file_in es' (Py.remove_char "," f))
        ∧ (∀ f, Py.has_char "," f → ¬ has_ext (rom_exts platform) f →
                es' !! f = es !! f))
  ∧ (∀ platform w imgs,
      dir_entries (images_of platform) (disk w) = Some imgs →
      no_dir_targets imgs →
      ∃ w' imgs',
        rename_comma_images false platform w = (Ok (), w')
        ∧ dir_entries (images_of platform) (disk w') = Some imgs'
        ∧ (∀ f, file_in imgs f → Py.has_char "," f →
                imgs' !! f = None ∧ file_in imgs' (Py.remove_char "," f)))
  ∧ (let t := disk (sanitize_platform false "GB" (World comma_card [] [])).2 in
     lookup_path ["GB"; "x,y.gb"] t = None
     ∧ lookup_path ["GB"; "xy.gb"] t = Some (File "rom")
     ∧ lookup_path ["GB"; "a,b.png"] t = Some (File "art")
     ∧ lookup_path ["GB"; "images"; "c,d.png"] t = None
     ∧ lookup_path ["GB"; "images"; "cd.png"] t = Some (File "cover")).
Proof.
  split; [|split; [|by vm_compute]].
  - intros platform w es Hes Hfree.
    destruct (run_rename_comma_roms platform w es Hes Hfree)
      as (w' & Hrun & Hd').
    set (P := λ f, has_ext (rom_exts platform) f && Py.has_char "," f) in *.
    assert (∀ f, P f → Py.has_char "," f) as HP.
    { intros f [_ Hc]%andb_prop_elim. done. }
    eexists w', _. split; [exact Hrun|]. split; [exact Hd'|]. split.
    + intros f Hfile Hext Hcomma. split.
      * rewrite (lookup_rename_all_comma P HP) by done.
        rewrite (bool_decide_eq_true_2 _ (file_in_listed _ _ Hfile)).
        unfold P. apply Is_true_true in Hfile, Hext, Hcomma.
        by rewrite Hfile, Hext, Hcomma.
      * apply (rename_all_target P HP); [by apply file_in_listed|done|].
        unfold P. apply Is_true_true in Hext, Hcomma.
        by rewrite Hext, Hcomma.
    + intros f Hcomma Hext.
      rewrite (lookup_rename_all_comma P HP) by done. unfold P.
      apply negb_prop_intro, Is_true_true, negb_true_iff in Hext.
      by rewrite Hext, andb_false_r.
  - intros platform w imgs Himgs Hfree.
    destruct (run_rename_comma_images platform w imgs Himgs Hfree)
      as (w' & Hrun & Hd').
    eexists w', _. split; [exact Hrun|]. split; [exact Hd'|].
    intros f Hfile Hcomma. split.
    + rewrite (lookup_rename_all_comma _ (λ f H, H)) by done.
      rewrite (bool_decide_eq_true_2 _ (file_in_listed _ _ Hfile)).
      apply Is_true_true in Hfile, Hcomma. by rewrite Hfile, Hcomma.
    + apply (rename_all_target _ (λ f H, H)); [by apply file_in_listed|done..].
Qed.

(** The root loop of the sanitize step on the card with commas. *)
Lemma commas_stripped_witness :
  ∃ w' es',
    rename_comma_roms false "GB" (World comma_card [] []) = (Ok (), w')
    ∧ dir_entries ["GB"] (disk w') = Some es'
    ∧ (∀ f, file_in comma_gb f → has_ext (rom_exts "GB") f →
            Py.has_char "," f →
            es' !! f = None ∧ file_in es' (Py.remove_char "," f))
    ∧ (∀ f, Py.has_char "," f → ¬ has_ext (rom_exts "GB") f →
            es' !! f = comma_gb !! f).
Proof.
  apply (proj1 commas_stripped "GB" (World comma_card [] []) comma_gb).
  - reflexivity.
  - intros f Hf _. file_cases Hf.
Defined.

(** ** Parity of the two modes, step by step *)

(** A loop whose body always returns, with an invariant on the items
    done so far. *)
Lemma for_inv {A} (Inv : list A → world → Prop) (body : A → M unit) l w :
  Inv [] w →
  (∀ done x rest w, l = done ++ x :: rest → Inv done w →
     ∃ w', body x w = (Ok (), w') ∧ Inv (done ++ [x]) w') →
  ∃ w', for_ l body w = (Ok (), w') ∧ Inv l w'.
Proof.
  intros H0 Hstep.
  enough (∀ rest done w, l = done ++ rest → Inv done w →
            ∃ w', for_ rest body w = (Ok (), w') ∧ Inv l w') as H
    by (by apply (H l [] w)).
  induction rest as [|x rest IH]; intros done w1 Hl HI; simpl.
  - exists w1. split; [done|]. by rewrite Hl, app_nil_r.
  - destruct (Hstep done x rest w1 Hl HI) as (w2 & Hrun & HI2).
    rewrite (run_bind _ _ _ _ _ Hrun).
    apply (IH (done ++ [x])); [|done]. by rewrite <- app_assoc.
Qed.

Lemma foldM_inv {A S} (Inv : list A → S → world → Prop)
    (body : S → A → M S) l s w :
  Inv [] s w →
  (∀ done x rest s w, l = done ++ x :: rest → Inv done s w →
     ∃ s' w', body s x w = (Ok s', w') ∧ Inv (done ++ [x]) s' w') →
  ∃ s' w', foldM body s l w = (Ok s', w') ∧ Inv l s' w'.
Proof.
  intros H0 Hstep.
  enough (∀ rest done s w, l = done ++ rest → Inv done s w →
            ∃ s' w', foldM body s rest w = (Ok s', w') ∧ Inv l s' w') as H
    by (by apply (H l [] s w)).
  induction rest as [|x rest IH]; intros done s1 w1 Hl HI; simpl.
  - exists s1, w1. split; [done|]. by rewrite Hl, app_nil_r.
  - destruct (Hstep done x rest s1 w1 Hl HI) as (s2 & w2 & Hrun & HI2).
    rewrite (run_bind _ _ _ _ _ Hrun).
    apply (IH (done ++ [x])); [|done]. by rewrite <- app_assoc.
Qed.

Lemma actions_app evs evs' : actions (evs ++ evs') = actions evs ++ actions evs'.
Proof. apply filter_app. Qed.

Lemma unless_dry_false m : unless_dry false m = m.
Proof. done. Qed.

Lemma unless_dry_true m : unless_dry true m = mret ().
Proof. done. Qed.

(** A best-effort operation prints nothing. *)
Lemma run_best_effort_out o w :
  ∃ w', best_effort o w = (Ok (), w') ∧ out w' = out w.
Proof.
  unfold best_effort, try_except, perform.
  destruct (apply_op o (disk w)); by eexists.
Qed.

(** The reports of the duplicate loop: one per duplicate, in both modes. *)
Lemma prune_duplicates_out dry platform rom_files w :
  ∃ w', prune_duplicates dry platform rom_files w = (Ok (), w')
    ∧ out w' = out w ++ (EvDuplicate
                           <$> filter (λ rom, is_duplicate rom_files rom = true)
                                      rom_files).
Proof.
  unfold prune_duplicates. case_bool_decide as Hroms; simpl.
  2:{ exists w. split; [done|]. rewrite Hroms. simpl. by rewrite app_nil_r. }
  apply (for_inv (λ done w', out w' = out w ++ (EvDuplicate
            <$> filter (λ rom, is_duplicate rom_files rom = true) done))).
  { simpl. by rewrite app_nil_r. }
  intros done rom rest w1 _ Hout. fold (is_duplicate rom_files rom).
  rewrite filter_app, fmap_app, app_assoc, <- Hout.
  destruct (is_duplicate rom_files rom) eqn:Hdup; simpl.
  - rewrite filter_cons_True by done. rewrite run_print.
    destruct dry; [rewrite unless_dry_true; by eexists|].
    rewrite unless_dry_false.
    edestruct run_best_effort_out as (w2 & -> & Hout2).
    exists w2. by rewrite Hout2.
  - rewrite filter_cons_False by (by rewrite Hdup). simpl.
    exists w1. by rewrite app_nil_r.
Qed.

Lemma perform_out o w : out (perform o w).2 = out w.
Proof. unfold perform. by destruct (apply_op o (disk w)). Qed.

(** A failed move is reported as an error, which is no action. *)
Lemma run_move_actions o1 o2 w :
  ∃ w', try_except (perform o1;; perform o2) (λ e, print (EvError e)) w
        = (Ok (), w')
    ∧ actions (out w') = actions (out w).
Proof.
  unfold try_except, mbind, M_bind.
  pose proof (perform_out o1 w) as H1.
  destruct (perform o1 w) as [[[]|e1] w1]; simpl in H1.
  - pose proof (perform_out o2 w1) as H2.
    destruct (perform o2 w1) as [[[]|e2] w2]; simpl in H2.
    + exists w2. split; [done|]. congruence.
    + eexists. split; [done|]. simpl.
      rewrite actions_app, H2, H1. simpl. apply app_nil_r.
  - eexists. split; [done|]. simpl.
    rewrite actions_app, H1. simpl. apply app_nil_r.
Qed.

Lemma associate_image_actions platform rom_files used_roms img :
  ∃ used' E, ∀ dry w,
    ∃ w', associate_image dry platform rom_files used_roms img w
          = (Ok used', w')
      ∧ actions (out w') = actions (out w) ++ E.
Proof.
  unfold associate_image.
  destruct (best_rom used_roms rom_files img) as [[best_match|] best_score].
  - case_bool_decide.
    + eexists _, [EvMove img (stem best_match +:+ ".png") best_score].
      intros dry w. rewrite run_print. set (w0 := World _ _ _).
      destruct dry.
      * rewrite unless_dry_true. eexists. split; [done|].
        simpl. by rewrite actions_app.
      * rewrite unless_dry_false.
        edestruct (run_move_actions) as (w1 & Hrun & Hact).
        rewrite (run_bind _ _ _ _ _ Hrun). eexists. split; [done|].
        rewrite Hact. simpl. by rewrite actions_app.
    + eexists _, []. intros dry w. eexists. split; [done|]. simpl.
      rewrite actions_app. simpl. done.
  - eexists _, []. intros dry w. eexists. split; [done|]. simpl.
    rewrite actions_app. simpl. done.
Qed.

Lemma associate_images_actions platform rom_files direct_images :
  ∃ E, ∀ dry w,
    ∃ w', associate_images dry platform rom_files direct_images w = (Ok (), w')
      ∧ actions (out w') = actions (out w) ++ E.
Proof.
  unfold associate_images.
  destruct (bool_decide (direct_images ≠ []) && bool_decide (rom_files ≠ [])).
  2:{ exists []. intros dry w. exists w. by rewrite app_nil_r. }
  cbn [when_].
  enough (∀ used_roms, ∃ E, ∀ dry w,
            ∃ used' w', foldM (associate_image dry platform rom_files)
                              used_roms direct_images w = (Ok used', w')
              ∧ actions (out w') = actions (out w) ++ E) as Hloop.
  { destruct (Hloop ∅) as [E HE]. exists E. intros dry w.
    destruct (HE dry w) as (used' & w' & Hrun & Hact).
    rewrite (run_bind _ _ _ _ _ Hrun). by exists w'. }
  induction direct_images as [|img imgs IH]; intros used_roms.
  - exists []. intros dry w. exists used_roms, w. by rewrite app_nil_r.
  - destruct (associate_image_actions platform rom_files used_roms img)
      as (used1 & E1 & H1).
    destruct (IH used1) as (E2 & H2). exists (E1 ++ E2). intros dry w. simpl.
    destruct (H1 dry w) as (w1 & Hrun1 & Hact1).
    rewrite (run_bind _ _ _ _ _ Hrun1).
    destruct (H2 dry w1) as (used2 & w2 & Hrun2 & Hact2).
    exists used2, w2. split; [done|]. by rewrite Hact2, Hact1, app_assoc.
Qed.

Lemma rename_all_snoc P done x es :
  rename_all P (done ++ [x]) es = rename_step P x (rename_all P done es).
Proof. unfold rename_all. by rewrite foldl_app. Qed.

Section rename_reports.
Variable P : string → bool.
Hypothesis P_comma : ∀ f, P f → Py.has_char "," f.

(** While no renamed file lands on a directory, the directories stay
    and no name with a comma appears. *)
Lemma rename_all_keeps l es :
  no_dir_targets es →
  (∀ n sub, rename_all P l es !! n = Some (Dir sub) ↔ es !! n = Some (Dir sub))
  ∧ (∀ n, Py.has_char "," n → file_in (rename_all P l es) n → file_in es n).
Proof.
  intros Hfree. induction l as [|x l [IHd IHc]] using rev_ind; [done|].
  rewrite rename_all_snoc. set (m := rename_all P l es) in *.
  destruct (file_in m x && P x) eqn:Hren.
  2:{ assert (rename_step P x m = m) as ->; [|done].
      unfold rename_step, file_in in *.
      destruct (m !! x) as [[data|sub]|]; try done.
      simpl in Hren. by rewrite Hren. }
  apply andb_true_iff in Hren as [Hfile HP].
  assert (Py.has_char "," x) as Hcomma by (apply P_comma; by rewrite HP).
  assert (∀ sub', m !! Py.remove_char "," x ≠ Some (Dir sub')) as Hnd.
  { intros sub'. rewrite IHd. apply (Hfree x); [|done].
    apply IHc; [done|]. by rewrite Hfile. }
  split.
  - intros n sub. rewrite <- IHd. by apply rename_step_dirs.
  - intros n Hn Hfn. apply IHc; [done|]. unfold file_in in *.
    destruct (decide (x = n)) as [->|Hne].
    + rewrite (rename_step_self P P_comma) in Hfn.
      unfold file_in in Hfn. by destruct (m !! n) as [[?|?]|], (P n).
    + by rewrite (rename_step_comma P) in Hfn.
Qed.

Lemma rename_loop_out dry d (ev : string → string → event) l w es :
  NoDup l →
  dir_entries d (disk w) = Some es →
  no_dir_targets es →
  ∃ w', for_ l (λ f,
          isf ← gets (is_file d f);
          when_ (isf && P f)
            (print (ev f (Py.remove_char "," f));;
             unless_dry dry
               (perform (OpRename d f (Py.remove_char "," f))))) w
        = (Ok (), w')
    ∧ dir_entries d (disk w') = Some (if dry then es else rename_all P l es)
    ∧ out w' = out w ++ ((λ f, ev f (Py.remove_char "," f))
                           <$> filter (λ f, file_in es f && P f = true) l).
Proof.
  intros Hnodup Hes Hfree.
  apply (for_inv (λ done w',
           dir_entries d (disk w')
           = Some (if dry then es else rename_all P done es)
           ∧ out w' = out w ++ ((λ f, ev f (Py.remove_char "," f))
                      <$> filter (λ f, file_in es f && P f = true) done))).
  { split; [by destruct dry|]. simpl. by rewrite app_nil_r. }
  intros done x rest w1 Hl [Hd1 Hout].
  assert (x ∉ done) as Hfresh.
  { rewrite Hl in Hnodup. apply NoDup_app in Hnodup as (_ & Hdisj & _).
    intros Hin. apply (Hdisj x Hin). by left. }
  rewrite run_gets, (is_file_entries' _ _ _ _ Hd1).
  rewrite filter_app, fmap_app, app_assoc, <- Hout.
  assert (file_in (if dry then es else rename_all P done es) x && P x
          = file_in es x && P x) as Hsame.
  { destruct dry; [done|]. destruct (P x) eqn:HP; [|by rewrite !andb_false_r].
    unfold file_in at 1.
    rewrite (lookup_rename_all_comma P P_comma)
      by (apply P_comma; by rewrite HP).
    by rewrite (bool_decide_eq_false_2 _ Hfresh). }
  rewrite Hsame. destruct (file_in es x && P x) eqn:Hren.
  2:{ rewrite filter_cons_False by (by rewrite Hren). simpl.
      exists w1. rewrite app_nil_r. split; [done|]. split; [|done].
      destruct dry; [done|]. rewrite rename_all_snoc, Hd1. f_equal.
      symmetry. unfold rename_step, file_in in *.
      destruct (rename_all P done es !! x) as [[data|sub]|]; try done.
      destruct (P x); [by simpl in *|done]. }
  rewrite filter_cons_True by done. rewrite when_true, run_print.
  destruct dry.
  { rewrite unless_dry_true. eexists. split; [done|]. by simpl. }
  rewrite unless_dry_false.
  apply andb_true_iff in Hsame as [Hfile HP].
  set (m := rename_all P done es) in *.
  destruct (rename_all_keeps done es Hfree) as [IHd IHc]. fold m in IHd, IHc.
  assert (Py.has_char "," x) as Hcomma by (apply P_comma; by rewrite HP).
  assert (Py.remove_char "," x ≠ ""
          ∧ ∀ sub', m !! Py.remove_char "," x ≠ Some (Dir sub')) as [Hne Hnd].
  { destruct (Hfree x) as [Hne Hnd]; [|done|].
    { apply IHc; [done|]. by rewrite Hfile. }
    split; [done|]. intros sub'. rewrite IHd. apply Hnd. }
  unfold perform. simpl. unfold rename.
  rewrite (bool_decide_eq_false_2 _ Hne), Hd1.
  unfold file_in in Hfile.
  destruct (m !! x) as [[data|sub]|] eqn:Hx; try done.
  assert (∀ X (a b : X),
            match m !! Py.remove_char "," x with
            | Some (Dir _) => a
            | _ => b
            end = b) as Hmatch.
  { intros X a b. destruct (m !! Py.remove_char "," x) as [[?|sub']|];
      try done. by destruct (Hnd sub'). }
  rewrite Hmatch. eexists. split; [done|]. simpl.
  rewrite dir_entries_alter_in, Hd1. split; [|done].
  rewrite rename_all_snoc. fold m. unfold rename_step. by rewrite Hx, HP.
Qed.

End rename_reports.

Lemma sweep_snoc P done x es :
  sweep P (done ++ [x]) es
  = (if file_in (sweep P done es) x && P x
     then delete x (sweep P done es) else sweep P done es).
Proof. unfold sweep. by rewrite foldl_app. Qed.

Lemma file_in_sweep_fresh P done es x :
  x ∉ done → file_in (sweep P done es) x = file_in es x.
Proof.
  intros Hfresh. unfold file_in at 1. rewrite lookup_sweep.
  by rewrite (bool_decide_eq_false_2 _ Hfresh).
Qed.

(** The unlink loops of the orphan step, in both modes: the entries of
    images/ after the loop, nothing printed, and the number of deletions
    counted. *)
Lemma orphan_count_loop dry d (P : string → bool) l w imgs n :
  NoDup l →
  dir_entries d (disk w) = Some imgs →
  ∃ w', foldM (λ deleted f,
                 isf ← gets (is_file d f);
                 if isf && P f then
                   unless_dry dry (best_effort (OpUnlink d f));;
                   mret (S deleted)
                 else mret deleted) n l w
        = (Ok (n + length (filter (λ f, file_in imgs f && P f = true) l)), w')
    ∧ dir_entries d (disk w') = Some (if dry then imgs else sweep P l imgs)
    ∧ out w' = out w.
Proof.
  intros Hnodup Himgs.
  destruct (foldM_inv (λ done s w',
              s = n + length (filter (λ f, file_in imgs f && P f = true) done)
              ∧ dir_entries d (disk w')
                = Some (if dry then imgs else sweep P done imgs)
              ∧ out w' = out w)
              (λ deleted f,
                 isf ← gets (is_file d f);
                 if isf && P f then
                   unless_dry dry (best_effort (OpUnlink d f));;
                   mret (S deleted)
                 else mret deleted) l n w)
    as (s' & w' & Hrun & -> & Hd' & Hout').
  { split; [simpl; lia|]. split; [by destruct dry|done]. }
  2:{ by exists w'. }
  intros done x rest s w1 Hl (-> & Hd1 & Hout1).
  assert (x ∉ done) as Hfresh.
  { rewrite Hl in Hnodup. apply NoDup_app in Hnodup as (_ & Hdisj & _).
    intros Hin. apply (Hdisj x Hin). by left. }
  rewrite run_gets, (is_file_entries' _ _ _ _ Hd1).
  assert (file_in (if dry then imgs else sweep P done imgs) x = file_in imgs x)
    as Hsame by (destruct dry; [done|by apply file_in_sweep_fresh]).
  rewrite Hsame, filter_app, length_app.
  destruct (file_in imgs x && P x) eqn:Hdel.
  - rewrite filter_cons_True by done. simpl length.
    destruct dry.
    + rewrite unless_dry_true. eexists _, w1. split; [done|].
      split; [lia|done].
    + rewrite unless_dry_false.
      destruct (run_best_effort_unlink d x w1 _ Hd1) as (w2 & Hrun & Hd2).
      destruct (run_best_effort_out (OpUnlink d x) w1) as (w2' & Hrun' & Hout2).
      rewrite Hrun in Hrun'. injection Hrun' as <-.
      rewrite (run_bind _ _ _ _ _ Hrun). eexists _, w2. split; [done|].
      split; [lia|]. split; [|congruence].
      rewrite Hd2, sweep_snoc, Hsame, Hdel.
      apply andb_true_iff in Hdel as [-> _]. done.
  - rewrite filter_cons_False by (by rewrite Hdel). simpl length.
    eexists _, w1. split; [done|]. split; [lia|]. split; [|done].
    destruct dry; [done|]. by rewrite sweep_snoc, Hsame, Hdel.
Qed.

Lemma orphan_clear_loop d l w imgs :
  NoDup l →
  dir_entries d (disk w) = Some imgs →
  ∃ w', for_ l (λ f, isf ← gets (is_file d f);
                     when_ isf (best_effort (OpUnlink d f))) w = (Ok (), w')
    ∧ out w' = out w.
Proof.
  intros Hnodup Himgs.
  destruct (for_inv (λ done w',
              dir_entries d (disk w') = Some (sweep (λ _, true) done imgs)
              ∧ out w' = out w)
              (λ f, isf ← gets (is_file d f);
                    when_ isf (best_effort (OpUnlink d f))) l w)
    as (w' & Hrun & _ & Hout'); [done| |by exists w'].
  intros done x rest w1 _ [Hd1 Hout1].
  rewrite run_gets, (is_file_entries' _ _ _ _ Hd1), sweep_snoc, andb_true_r.
  destruct (file_in (sweep (λ _, true) done imgs) x) eqn:Hf.
  - rewrite when_true.
    destruct (run_best_effort_unlink d x w1 _ Hd1) as (w2 & Hrun & Hd2).
    destruct (run_best_effort_out (OpUnlink d x) w1) as (w2' & Hrun' & Hout2).
    rewrite Hrun in Hrun'. injection Hrun' as <-.
    exists w2. split; [done|]. rewrite Hd2, Hf. split; [done|congruence].
  - by exists w1.
Qed.

(** The reports of the orphan step do not depend on the mode. *)
Lemma prune_orphans_out platform w es imgs :
  dir_entries [platform] (disk w) = Some es →
  dir_entries (images_of platform) (disk w) = Some imgs →
  ∃ E, ∀ dry,
    ∃ w', prune_orphans dry platform w = (Ok (), w') ∧ out w' = out w ++ E.
Proof.
  intros Hes Himgs. unfold prune_orphans.
  pose proof (NoDup_fst_map_to_list imgs) as Hnodup.
  set (roms := game_files (rom_exts platform) es).
  destruct (decide (roms ≠ [])) as [Hroms|Hroms].
  - eexists [_]. intros dry.
    rewrite run_gets, (path_exists_dir _ _ _ Himgs), when_true.
    rewrite (run_reads _ _ _ _ (get_roms_entries _ _ _ _ Hes)). fold roms.
    rewrite bool_decide_eq_true_2 by done.
    rewrite (run_reads _ _ _ _ (iterdir_entries _ _ _ Himgs)), run_gets.
    destruct (orphan_count_loop dry (images_of platform)
                (λ f, bool_decide (stem f ∉ stem <$> roms))
                ((map_to_list imgs).*1) w imgs 0 Hnodup Himgs)
      as (w1 & Hrun & _ & Hout1).
    rewrite (run_bind _ _ _ _ _ Hrun). eexists. split; [done|].
    simpl. by rewrite Hout1.
  - apply dec_stable in Hroms.
    destruct (decide ((map_to_list imgs).*1 = [])) as [Hnone|Hsome].
    { exists []. intros dry.
      rewrite run_gets, (path_exists_dir _ _ _ Himgs), when_true.
      rewrite (run_reads _ _ _ _ (get_roms_entries _ _ _ _ Hes)). fold roms.
      rewrite bool_decide_eq_false_2 by (by intros []).
      rewrite (run_reads _ _ _ _ (iterdir_entries _ _ _ Himgs)).
      rewrite bool_decide_eq_false_2 by (by intros []).
      exists w. by rewrite app_nil_r. }
    set (count := length (filter (λ f, is_file (images_of platform) f (disk w))
                                 ((map_to_list imgs).*1))).
    exists (if bool_decide (0 < count) then [EvImagesNoRoms count] else []).
    intros dry.
    rewrite run_gets, (path_exists_dir _ _ _ Himgs), when_true.
    rewrite (run_reads _ _ _ _ (get_roms_entries _ _ _ _ Hes)). fold roms.
    rewrite bool_decide_eq_false_2 by (by intros []).
    rewrite (run_reads _ _ _ _ (iterdir_entries _ _ _ Himgs)).
    rewrite bool_decide_eq_true_2 by done. rewrite when_true.
    rewrite (run_reads _ _ _ _ (iterdir_entries _ _ _ Himgs)), run_gets.
    fold count. case_bool_decide; simpl.
    2:{ exists w. by rewrite app_nil_r. }
    rewrite run_print. destruct dry.
    { rewrite unless_dry_true. by eexists. }
    rewrite unless_dry_false. set (w0 := World _ _ _).
    rewrite (run_reads _ _ w0 _ (iterdir_entries _ _ _ Himgs)).
    destruct (orphan_clear_loop (images_of platform) ((map_to_list imgs).*1)
                w0 imgs Hnodup Himgs) as (w1 & Hrun & Hout1).
    exists w1. split; [exact Hrun|]. by rewrite Hout1.
Qed.

Lemma generate_csv_out platform w es old :
  dir_entries [platform] (disk w) = Some es →
  es !! csv_name = File <$> old →
  ∃ E, ∀ dry,
    ∃ w', generate_csv dry platform w = (Ok (), w') ∧ out w' = out w ++ E.
Proof.
  intros Hes Hcsv. unfold generate_csv.
  set (roms := game_files (rom_exts platform) es).
  exists (if bool_decide (roms ≠ []) then [EvCsv (length roms)]
          else if bool_decide (is_Some (es !! csv_name)) then [EvCsvEmptied]
               else []).
  intros dry.
  rewrite (run_reads _ _ _ _ (get_roms_entries _ _ _ _ Hes)).
  rewrite (run_reads _ _ _ _ (load_csv_entries _ _ _ _ _ Hes Hcsv)).
  fold roms. case_bool_decide as Hroms.
  - rewrite length_fmap. destruct dry; [by eexists|].
    lazymatch goal with
    | |- context [perform (OpWrite _ _ ?data)] =>
        destruct (run_write [platform] csv_name data w es old Hes Hcsv)
          as (w1 & Hrun & _ & Hout1)
    end.
    rewrite (run_bind _ _ _ _ _ Hrun). eexists. split; [done|].
    simpl. by rewrite Hout1.
  - rewrite run_gets.
    change [platform; csv_name] with ([platform] ++ [csv_name]).
    rewrite (path_exists_entries _ _ _ _ Hes).
    case_bool_decide as Hex; cbn [when_].
    2:{ exists w. by rewrite app_nil_r. }
    destruct dry; [by eexists|].
    destruct (run_write [platform] csv_name "" w es old Hes Hcsv)
      as (w1 & Hrun & _ & Hout1).
    rewrite (run_bind _ _ _ _ _ Hrun). eexists. split; [done|].
    simpl. by rewrite Hout1.
Qed.

Lemma sync_allfiles_out w es old :
  platform_dirs_ok (disk w) →
  dir_entries cubegm (disk w) = Some es →
  es !! "allfiles.lst" = File <$> old →
  ∃ E, ∀ dry,
    ∃ w', sync_allfiles dry w = (Ok (), w') ∧ out w' = out w ++ E.
Proof.
  intros Hok Hes Hfile. unfold sync_allfiles.
  destruct old as [content|].
  2:{ exists []. intros dry.
      rewrite run_gets, (path_exists_entries _ _ _ _ Hes), Hfile.
      rewrite bool_decide_eq_false_2 by (by intros [? ?]).
      exists w. by rewrite app_nil_r. }
  eexists [_]. intros dry.
  rewrite run_gets, (path_exists_entries _ _ _ _ Hes), Hfile.
  rewrite bool_decide_eq_true_2 by (by eexists). rewrite when_true.
  rewrite (run_reads _ _ _ _ (read_text_entries _ _ _ _ _ Hes Hfile)).
  unfold catalog_lines.
  erewrite run_bind; last first.
  { apply (run_platform_scan
             (λ new_lines platform roms,
                new_lines ++ (catalog_line (parse_allfiles content) platform
                                <$> roms))).
    intros ???. by apply platform_dirs_ok_lookup. }
  destruct dry; [by eexists|].
  lazymatch goal with
  | |- context [perform (OpWrite _ _ ?data)] =>
      destruct (run_write cubegm "allfiles.lst" data w es (Some content)
                  Hes Hfile) as (w1 & Hrun & _ & Hout1)
  end.
  rewrite (run_bind _ _ _ _ _ Hrun). eexists. split; [done|].
  simpl. by rewrite Hout1.
Qed.

Lemma clean_list_out valid_roms lst_name w es old :
  dir_entries cubegm (disk w) = Some es →
  es !! lst_name = File <$> old →
  ∃ E, ∀ dry,
    ∃ w', clean_list dry valid_roms lst_name w = (Ok (), w')
      ∧ out w' = out w ++ E.
Proof.
  intros Hes Hlst. unfold clean_list.
  destruct old as [content|].
  2:{ exists []. intros dry.
      rewrite run_gets, (path_exists_entries _ _ _ _ Hes), Hlst.
      rewrite bool_decide_eq_false_2 by (by intros [? ?]).
      exists w. by rewrite app_nil_r. }
  eexists [_]. intros dry.
  rewrite run_gets, (path_exists_entries _ _ _ _ Hes), Hlst.
  rewrite bool_decide_eq_true_2 by (by eexists). rewrite when_true.
  rewrite (run_reads _ _ _ _ (read_text_entries _ _ _ _ _ Hes Hlst)).
  rewrite filter_list_spec.
  destruct dry; [by eexists|].
  lazymatch goal with
  | |- context [perform (OpWrite _ _ ?data)] =>
      destruct (run_write cubegm lst_name data w es (Some content) Hes Hlst)
        as (w1 & Hrun & _ & Hout1)
  end.
  rewrite (run_bind _ _ _ _ _ Hrun). eexists. split; [done|].
  simpl. by rewrite Hout1.
Qed.




(** ** A settled card *)

Lemma alter_in_id d g t es :
  dir_entries d t = Some es → g es = es → alter_in d g t = t.
Proof.
  revert t. induction d as [|x d IH]; intros [data|es0] Hd Hg; try done.
  - rewrite dir_entries_nil in Hd. injection Hd as ->. simpl. by rewrite Hg.
  - rewrite dir_entries_cons in Hd. simpl.
    destruct (es0 !! x) as [c|] eqn:Hx; [|done]. simpl in Hd.
    rewrite (IH c Hd Hg). by rewrite insert_id.
Qed.

Lemma lookup_file_entries d n t data :
  lookup_path (d ++ [n]) t = Some (File data) →
  ∃ es, dir_entries d t = Some es ∧ es !! n = Some (File data).
Proof.
  rewrite lookup_path_snoc. destruct (dir_entries d t) as [es|]; [|done].
  intros Hn. by exists es.
Qed.

Lemma holds_ret {A} t (a : A) (Q : A → Prop) : Q a → holds t (mret a) Q.
Proof.
  intros HQ w Hw. exists a, w. repeat split; try done.
  exists []. by rewrite app_nil_r.
Qed.

Lemma holds_bind {A B} t (m : M A) (k : A → M B) Q Q' :
  holds t m Q → (∀ a, Q a → holds t (k a) Q') → holds t (m ≫= k) Q'.
Proof.
  intros Hm Hk w Hw.
  destruct (Hm w Hw) as (a & w1 & Hrun & Hd1 & (ws1 & Ht1 & Hws1) & HQ).
  destruct (Hk a HQ w1 Hd1) as (b & w2 & Hrun2 & Hd2 & (ws2 & Ht2 & Hws2) & HQ').
  exists b, w2. rewrite (run_bind _ _ _ _ _ Hrun). repeat split; try done.
  exists (ws1 ++ ws2). rewrite Ht2, Ht1, app_assoc. split; [done|].
  by apply Forall_app.
Qed.

Lemma holds_weaken {A} t (m : M A) (Q Q' : A → Prop) :
  holds t m Q → (∀ a, Q a → Q' a) → holds t m Q'.
Proof.
  intros Hm HQ w Hw. destruct (Hm w Hw) as (a & w' & ? & ? & ? & ?).
  exists a, w'. auto.
Qed.

Lemma holds_gets {A} t (f : node → A) : holds t (gets f) (λ a, a = f t).
Proof.
  intros w Hw. exists (f t), w. unfold gets. rewrite Hw.
  repeat split; try done. exists []. by rewrite app_nil_r.
Qed.

Lemma holds_reads {A} t (f : node → result A) a :
  f t = Ok a → holds t (reads f) (λ a', a' = a).
Proof.
  intros Hf w Hw. exists a, w. unfold reads. rewrite Hw, Hf.
  repeat split; try done. exists []. by rewrite app_nil_r.
Qed.

Lemma holds_print t e : holds t (print e) (λ _, True).
Proof.
  intros w Hw. eexists (), _. unfold print. repeat split; try done.
  exists []. simpl. by rewrite app_nil_r.
Qed.

Lemma holds_when_false t b m : b = false → holds t (when_ b m) (λ _, True).
Proof. intros ->. by apply holds_ret. Qed.

Lemma holds_for {A} t (l : list A) body :
  (∀ x, x ∈ l → holds t (body x) (λ _, True)) →
  holds t (for_ l body) (λ _, True).
Proof.
  induction l as [|x l IH]; intros Hbody; simpl.
  - by apply holds_ret.
  - eapply holds_bind; [apply Hbody; by left|]. intros _ _.
    apply IH. intros y Hy. apply Hbody. by right.
Qed.

Lemma holds_foldM {A S} t (I : S → Prop) (body : S → A → M S) l s :
  I s → (∀ s x, x ∈ l → I s → holds t (body s x) I) →
  holds t (foldM body s l) I.
Proof.
  revert s. induction l as [|x l IH]; intros s Hs Hbody; simpl.
  - by apply holds_ret.
  - eapply holds_bind; [apply Hbody; [by left|done]|]. intros s' Hs'.
    apply IH; [done|]. intros s'' y Hy. apply Hbody. by right.
Qed.

(** Writing to a file the content it has. *)
Lemma holds_write t d n data :
  lookup_path (d ++ [n]) t = Some (File data) →
  holds t (perform (OpWrite d n data)) (λ _, True).
Proof.
  intros Hfile w Hw.
  destruct (lookup_file_entries _ _ _ _ Hfile) as (es & Hes & Hn).
  exists (), (World t (trace w ++ [OpWrite d n data]) (out w)).
  unfold perform. simpl. unfold write_text. rewrite Hw, Hes, Hn.
  rewrite (alter_in_id _ _ _ _ Hes) by (by apply insert_id).
  repeat split; try done. eexists. split; [done|].
  by apply Forall_singleton.
Qed.

Lemma dir_entries_snoc d n t es :
  dir_entries d t = Some es →
  dir_entries (d ++ [n]) t
  = match es !! n with Some (Dir sub) => Some sub | _ => None end.
Proof. intros Hd. unfold dir_entries at 1. by rewrite lookup_path_snoc, Hd. Qed.

Lemma images_entries platform t es :
  dir_entries [platform] t = Some es →
  dir_entries (images_of platform) t
  = match es !! "images" with Some (Dir sub) => Some sub | _ => None end.
Proof. apply (dir_entries_snoc [platform] "images"). Qed.

Lemma images_exists platform t es :
  dir_entries [platform] t = Some es →
  path_exists (images_of platform) t = bool_decide (is_Some (es !! "images")).
Proof. apply (path_exists_entries [platform] "images"). Qed.

Ltac holds_gets := eapply holds_bind; [apply holds_gets|intros ? ->].
Ltac holds_print := eapply holds_bind; [apply holds_print|intros _ _].
Ltac holds_reads H :=
  eapply holds_bind; [apply holds_reads, H|intros ? ->].

Section settled_platform.
Variable t : node.
Variable platform : string.
Variable es : gmap string node.
Hypothesis Hes : dir_entries [platform] t = Some es.
Hypothesis Hsettled : platform_settled platform es.

Lemma holds_rename_comma_roms :
  holds t (rename_comma_roms false platform) (λ _, True).
Proof.
  unfold rename_comma_roms. holds_reads (iterdir_entries _ _ _ Hes).
  apply holds_for. intros f _. holds_gets. apply holds_when_false.
  rewrite (is_file_entries' _ _ _ _ Hes).
  destruct (file_in es f) eqn:Hf; [|done].
  destruct (has_ext (rom_exts platform) f) eqn:Hext; [|done]. simpl.
  destruct Hsettled as (Hcomma & _). apply Hcomma.
  apply elem_of_game_files. by rewrite Hf, Hext.
Qed.

Lemma holds_rename_comma_images :
  holds t (rename_comma_images false platform) (λ _, True).
Proof.
  unfold rename_comma_images. holds_gets.
  rewrite (images_exists _ _ _ Hes).
  pose proof (images_entries _ _ _ Hes) as Himgs.
  destruct Hsettled as (_ & _ & _ & Himages & _).
  destruct (es !! "images") as [[data|imgs]|]; [done| |].
  - rewrite bool_decide_eq_true_2 by (by eexists). cbn [when_].
    holds_reads (iterdir_entries _ _ _ Himgs).
    apply holds_for. intros f _. holds_gets. apply holds_when_false.
    rewrite (is_file_entries' _ _ _ _ Himgs).
    destruct (file_in imgs f) eqn:Hf; [|done]. simpl.
    apply Himages. by rewrite Hf.
  - rewrite bool_decide_eq_false_2 by (by intros [? ?]).
    by apply holds_when_false.
Qed.

End settled_platform.

Lemma get_images_entries d t es :
  dir_entries d t = Some es →
  get_images d t
  = Ok (filter (λ f, file_in es f ∧ has_ext IMG_EXTENSIONS f)
               ((map_to_list es).*1)).
Proof.
  intros Hd. unfold get_images.
  rewrite (path_exists_dir _ _ _ Hd), (iterdir_entries _ _ _ Hd). simpl.
  f_equal. apply list_filter_iff. intros f.
  by rewrite (is_file_entries' _ _ _ _ Hd).
Qed.

Lemma best_rom_none used_roms rom_files img :
  (∀ rom, rom ∈ rom_files → match_score (stem rom) (stem img) = 0) →
  best_rom used_roms rom_files img = (None, 0).
Proof.
  unfold best_rom. induction rom_files as [|rom roms IH]; intros Hzero;
    simpl; [done|].
  rewrite (Hzero rom) by left. simpl.
  destruct (bool_decide (rom ∈ used_roms));
    apply IH; intros r Hr; apply Hzero; by right.
Qed.

Lemma filter_none {A} (P : A → Prop) `{∀ x, Decision (P x)} (l : list A) :
  (∀ x, x ∈ l → ¬ P x) → filter P l = [].
Proof.
  induction l as [|x l IH]; intros Hnone; [done|].
  rewrite filter_cons_False by (apply Hnone; by left).
  apply IH. intros y Hy. apply Hnone. by right.
Qed.

Section settled_sync.
Variable t : node.
Variable platform : string.
Variable es : gmap string node.
Hypothesis Hes : dir_entries [platform] t = Some es.
Hypothesis Hsettled : platform_settled platform es.

Lemma holds_associate_images :
  holds t (associate_images false platform
             (game_files (rom_exts platform) es)
             (filter (λ f, file_in es f ∧ has_ext IMG_EXTENSIONS f)
                     ((map_to_list es).*1)))
        (λ _, True).
Proof.
  unfold associate_images.
  destruct (_ && _); [|by apply holds_when_false]. cbn [when_].
  eapply holds_bind; [|intros ? _; by apply holds_ret].
  apply (holds_foldM t (λ _, True)); [done|].
  intros used img Himg _. unfold associate_image.
  apply list_elem_of_filter in Himg as [[Hfile Hext] _].
  destruct Hsettled as (_ & Hscore & _).
  rewrite best_rom_none by (intros rom Hrom; by apply Hscore).
  holds_print. by apply holds_ret.
Qed.

Lemma holds_prune_duplicates :
  holds t (prune_duplicates false platform (game_files (rom_exts platform) es))
        (λ _, True).
Proof.
  unfold prune_duplicates.
  destruct (bool_decide _); [|by apply holds_when_false]. cbn [when_].
  apply holds_for. intros rom Hrom. apply holds_when_false.
  destruct Hsettled as (_ & _ & Hdup & _). by apply Hdup.
Qed.

Lemma holds_prune_orphans : holds t (prune_orphans false platform) (λ _, True).
Proof.
  unfold prune_orphans. holds_gets.
  rewrite (images_exists _ _ _ Hes).
  pose proof (images_entries _ _ _ Hes) as Himgs.
  destruct Hsettled as (_ & _ & _ & Himages & _).
  destruct (es !! "images") as [[data|imgs]|]; [done| |].
  2:{ rewrite bool_decide_eq_false_2 by (by intros [? ?]).
      by apply holds_when_false. }
  rewrite bool_decide_eq_true_2 by (by eexists). cbn [when_].
  holds_reads (get_roms_entries _ (rom_exts platform) _ _ Hes).
  set (roms := game_files (rom_exts platform) es) in *.
  case_bool_decide as Hroms.
  - holds_reads (iterdir_entries _ _ _ Himgs). holds_gets.
    eapply holds_bind; [|intros ? _; apply holds_print].
    apply (holds_foldM t (λ _, True)); [done|].
    intros deleted f _ _. holds_gets.
    rewrite (is_file_entries' _ _ _ _ Himgs).
    destruct (file_in imgs f) eqn:Hf; [|by apply holds_ret]. simpl.
    rewrite bool_decide_eq_false_2; [by apply holds_ret|].
    intros Hnot. apply Hnot, Himages. by rewrite Hf.
  - holds_reads (iterdir_entries _ _ _ Himgs).
    destruct (bool_decide _); [|by apply holds_when_false]. cbn [when_].
    holds_reads (iterdir_entries _ _ _ Himgs). holds_gets.
    apply holds_when_false, bool_decide_eq_false.
    enough (filter (λ f, is_file (images_of platform) f t)
                   ((map_to_list imgs).*1) = []) as -> by (simpl; lia).
    apply filter_none. intros f _.
    rewrite (is_file_entries' _ _ _ _ Himgs). intros Hf.
    destruct (Himages f Hf) as [_ Hstem]. rewrite Hroms in Hstem.
    by apply elem_of_nil in Hstem.
Qed.

Lemma holds_generate_csv : holds t (generate_csv false platform) (λ _, True).
Proof.
  unfold generate_csv.
  holds_reads (get_roms_entries _ (rom_exts platform) _ _ Hes).
  set (roms := game_files (rom_exts platform) es) in *.
  destruct Hsettled as (_ & _ & _ & _ & Hcsv). fold roms in Hcsv.
  destruct (es !! csv_name) as [[content|sub]|] eqn:Hfile; [|done|].
  - holds_reads (load_csv_entries [platform] csv_name t es (Some content)
                   Hes Hfile).
    simpl from_option.
    assert (lookup_path ([platform] ++ [csv_name]) t = Some (File content))
      as Hlook by (by rewrite lookup_path_snoc, Hes).
    destruct (decide (roms = [])) as [Hroms|Hroms].
    2:{ rewrite bool_decide_eq_false_2 in Hcsv by done.
        rewrite bool_decide_eq_true_2 by done.
        eapply holds_bind; [|intros ? _; apply holds_print].
        apply holds_write. by rewrite <- Hcsv. }
    + rewrite bool_decide_eq_true_2 in Hcsv by done.
      rewrite bool_decide_eq_false_2 by (by intros []).
      holds_gets. unfold path_exists.
      change [platform; csv_name] with ([platform] ++ [csv_name]).
      rewrite Hlook, bool_decide_eq_true_2 by (by eexists). cbn [when_].
      eapply holds_bind; [|intros ? _; apply holds_print].
      apply holds_write. by rewrite <- Hcsv.
  - holds_reads (load_csv_entries [platform] csv_name t es None Hes Hfile).
    rewrite Hcsv. rewrite bool_decide_eq_false_2 by (by intros []).
    holds_gets. change [platform; csv_name] with ([platform] ++ [csv_name]).
    rewrite (path_exists_entries _ _ _ _ Hes), Hfile.
    rewrite bool_decide_eq_false_2 by (by intros [? ?]).
    by apply holds_when_false.
Qed.

Lemma holds_sync_platform : holds t (sync_platform false platform) (λ _, True).
Proof.
  unfold sync_platform. holds_gets.
  rewrite (path_exists_dir _ _ _ Hes). cbn [when_].
  holds_reads (get_roms_entries _ (rom_exts platform) _ _ Hes).
  holds_reads (get_images_entries _ _ _ Hes). holds_print. holds_gets.
  eapply holds_bind; [|intros _ _].
  { apply holds_when_false. rewrite (images_exists _ _ _ Hes).
    destruct Hsettled as (_ & _ & _ & Himages & _).
    destruct (es !! "images") as [[data|imgs]|]; [done| |].
    - by rewrite bool_decide_eq_true_2 by (by eexists).
    - rewrite Himages. by rewrite (bool_decide_eq_false_2 ([] ≠ []))
        by (by intros []); rewrite andb_false_r. }
  eapply holds_bind; [apply holds_associate_images|intros _ _].
  eapply holds_bind; [apply holds_prune_duplicates|intros _ _].
  eapply holds_bind; [apply holds_prune_orphans|intros _ _].
  apply holds_generate_csv.
Qed.

Lemma holds_sanitize_platform :
  holds t (sanitize_platform false platform) (λ _, True).
Proof.
  unfold sanitize_platform. holds_gets.
  rewrite (path_exists_dir _ _ _ Hes). cbn [when_].
  eapply holds_bind; [by apply (holds_rename_comma_roms t platform es)|].
  intros _ _. by apply (holds_rename_comma_images t platform es).
Qed.

End settled_sync.

(** ** Commands that act on the card alone *)

Lemma local_ret {A} (a : A) : local (mret a : M A).
Proof. intros [t tr o]. unfold mret, M_ret. simpl. by rewrite !app_nil_r. Qed.

Lemma local_gets {A} (f : node → A) : local (gets f).
Proof. intros [t tr o]. unfold gets. simpl. by rewrite !app_nil_r. Qed.

Lemma local_reads {A} (f : node → result A) : local (reads f).
Proof. intros [t tr o]. unfold reads. simpl. by rewrite !app_nil_r. Qed.

Lemma local_print e : local (print e).
Proof. intros [t tr o]. unfold print. simpl. by rewrite !app_nil_r. Qed.

Lemma local_bind {A B} (m : M A) (k : A → M B) :
  local m → (∀ a, local (k a)) → local (m ≫= k).
Proof.
  intros Hm Hk w. unfold mbind, M_bind.
  rewrite (Hm w). destruct (m (World (disk w) [] [])) as [[a|e] w1]; simpl.
  - rewrite (Hk a (World _ _ _)). simpl.
    rewrite (Hk a w1).
    destruct (k a (World (disk w1) [] [])) as [r w2]. simpl.
    by rewrite !app_assoc.
  - done.
Qed.

Lemma local_when b m : local m → local (when_ b m).
Proof. destruct b; [done|intros _; apply local_ret]. Qed.

Lemma local_for {A} (l : list A) body :
  (∀ x, local (body x)) → local (for_ l body).
Proof.
  intros Hb. induction l as [|x l IH]; simpl.
  - apply local_ret.
  - apply local_bind; auto.
Qed.

Lemma local_summary : local summary.
Proof.
  unfold summary, summary_platform. apply local_for. intros platform.
  repeat first
    [ apply local_bind; [|intros ?]
    | apply local_gets | apply local_reads | apply local_print
    | apply local_ret | apply local_when
    | match goal with |- local (if ?b then _ else _) => destruct b end ].
Qed.

Lemma holds_pure {A} t (m : M A) a :
  (∀ w, disk w = t → m w = (Ok a, w)) → holds t m (λ a', a' = a).
Proof.
  intros Hm w Hw. exists a, w. rewrite (Hm w Hw). repeat split; try done.
  exists []. by rewrite app_nil_r.
Qed.

Lemma Forall2_eq_fmap {A B} (f : A → B) l k :
  Forall2 (λ x y, y = f x) l k → k = f <$> l.
Proof.
  induction 1 as [|x y l k -> _ IH]; [done|]. by rewrite fmap_cons, IH.
Qed.

Section settled_card.
Variable t : node.
Hypothesis Hsettled : settled t.

Lemma holds_sync_allfiles : holds t (sync_allfiles false) (λ _, True).
Proof.
  destruct Hsettled as (Hok & _ & Hcatalog & _).
  unfold sync_allfiles. holds_gets. unfold path_exists.
  change (cubegm ++ ["allfiles.lst"]) with ["cubegm"; "allfiles.lst"].
  destruct (lookup_path ["cubegm"; "allfiles.lst"] t) as [[content|sub]|]
    eqn:Hfile; [|done|].
  2:{ rewrite bool_decide_eq_false_2 by (by intros [? ?]).
      by apply holds_when_false. }
  rewrite bool_decide_eq_true_2 by (by eexists). cbn [when_].
  destruct (lookup_file_entries cubegm "allfiles.lst" t content Hfile)
    as (es & Hes & Hn).
  holds_reads (read_text_entries _ _ _ _ _ Hes Hn).
  eapply holds_bind.
  { apply holds_pure. intros w Hw. unfold catalog_lines.
    rewrite (run_platform_scan
               (λ new_lines platform roms,
                  new_lines ++ (catalog_line (parse_allfiles content) platform
                                  <$> roms)))
      by (intros ???; rewrite Hw; by apply platform_dirs_ok_lookup).
    rewrite Hw. reflexivity. }
  intros lines ->.
  destruct (catalog_scan_entries (parse_allfiles content) t platforms [])
    as (lines & -> & Hlines%Forall2_eq_fmap). rewrite app_nil_l.
  eapply holds_bind; [|intros ? _; apply holds_print].
  apply holds_write. rewrite Hlines. fold (catalog_entries t).
  by rewrite <- Hcatalog.
Qed.

Lemma holds_clean_lists : holds t (clean_lists false) (λ _, True).
Proof.
  destruct Hsettled as (Hok & _ & _ & Hlists).
  unfold clean_lists.
  eapply (holds_bind _ _ _ (λ valid_roms, ∀ key, key ∈ valid_roms
                                                 ↔ is_game_key t key)).
  { intros w Hw. destruct (run_valid_rom_keys w) as (valid & Hrun & Hvalid).
    { by rewrite Hw. }
    exists valid, w. rewrite Hrun. repeat split; try done.
    - exists []. by rewrite app_nil_r.
    - rewrite <- Hw. apply Hvalid.
    - rewrite <- Hw. apply Hvalid. }
  intros valid_roms Hvalid. apply holds_for. intros lst_name Hin.
  specialize (Hlists lst_name Hin).
  unfold clean_list. holds_gets. unfold path_exists.
  change (cubegm ++ [lst_name]) with ["cubegm"; lst_name].
  destruct (lookup_path ["cubegm"; lst_name] t) as [[content|sub]|]
    eqn:Hfile; [|done|].
  2:{ rewrite bool_decide_eq_false_2 by (by intros [? ?]).
      by apply holds_when_false. }
  rewrite bool_decide_eq_true_2 by (by eexists). cbn [when_].
  destruct (lookup_file_entries cubegm lst_name t content Hfile)
    as (es & Hes & Hn).
  holds_reads (read_text_entries _ _ _ _ _ Hes Hn).
  rewrite filter_list_spec.
  eapply holds_bind; [|intros ? _; apply holds_print].
  apply holds_write.
  change (cubegm ++ [lst_name]) with ["cubegm"; lst_name]. rewrite Hfile.
  do 2 f_equal. rewrite (Hlists valid_roms Hvalid) at 1.
  unfold filtered_list. by repeat case_bool_decide.
Qed.

Lemma holds_summary_platform platform :
  platform ∈ platforms → holds t (summary_platform platform) (λ _, True).
Proof.
  intros Hin. destruct Hsettled as (Hok & Hplat & _).
  unfold summary_platform. holds_gets.
  destruct (platform_lookup t platform) as [[Hex Hd]|[es Hes]].
  { intros data. by apply platform_dirs_ok_lookup. }
  { rewrite Hex. by apply holds_when_false. }
  rewrite (path_exists_dir _ _ _ Hes). cbn [when_].
  holds_reads (get_roms_entries _ (rom_exts platform) _ _ Hes). holds_gets.
  destruct (Hplat platform es Hin Hes) as (_ & _ & _ & Himages & Hcsv).
  rewrite (images_exists _ _ _ Hes).
  pose proof (images_entries _ _ _ Hes) as Himgs.
  eapply (holds_bind _ _ _ (λ _, True)).
  { destruct (es !! "images") as [[data|imgs]|]; [done| |].
    - rewrite bool_decide_eq_true_2 by (by eexists).
      holds_reads (iterdir_entries _ _ _ Himgs).
      eapply holds_weaken; [apply holds_gets|done].
    - rewrite bool_decide_eq_false_2 by (by intros [? ?]).
      by apply holds_ret. }
  intros img_count _. holds_gets.
  change [platform; csv_name] with ([platform] ++ [csv_name]).
  rewrite (path_exists_entries _ _ _ _ Hes).
  eapply (holds_bind _ _ _ (λ _, True)); [|intros ? _; apply holds_print].
  destruct (es !! csv_name) as [[content|sub]|] eqn:Hfile; [|done|].
  - rewrite bool_decide_eq_true_2 by (by eexists).
    holds_reads (read_text_entries _ _ _ _ _ Hes Hfile). by apply holds_ret.
  - rewrite bool_decide_eq_false_2 by (by intros [? ?]). by apply holds_ret.
Qed.

Lemma holds_reconcile : holds t (reconcile false) (λ _, True).
Proof.
  destruct Hsettled as (Hok & Hplat & _). unfold reconcile.
  eapply holds_bind; [|intros _ _; eapply holds_bind;
                       [|intros _ _; eapply holds_bind;
                         [apply holds_sync_allfiles
                         |intros _ _; apply holds_clean_lists]]].
  - apply holds_for. intros platform Hin.
    destruct (platform_lookup t platform) as [[Hex Hd]|[es Hes]].
    { intros data. by apply platform_dirs_ok_lookup. }
    + unfold sanitize_platform. holds_gets. rewrite Hex.
      by apply holds_when_false.
    + apply (holds_sanitize_platform t platform es Hes). by apply Hplat.
  - apply holds_for. intros platform Hin.
    destruct (platform_lookup t platform) as [[Hex Hd]|[es Hes]].
    { intros data. by apply platform_dirs_ok_lookup. }
    + unfold sync_platform. holds_gets. rewrite Hex.
      by apply holds_when_false.
    + apply (holds_sync_platform t platform es Hes). by apply Hplat.
Qed.

Lemma holds_sync_sd_card : holds t (sync_sd_card false) (λ _, True).
Proof.
  unfold sync_sd_card.
  eapply holds_bind; [apply holds_reconcile|intros _ _].
  apply holds_for. apply holds_summary_platform.
Qed.

End settled_card.

(** ** What a run brings about *)

Lemma alter_in_other d n d' g t f :
  f ≠ n →
  lookup_path (d ++ [f]) (alter_in (d ++ n :: d') g t) = lookup_path (d ++ [f]) t.
Proof.
  intros Hf. revert t. induction d as [|x d IH]; intros [data|es]; try done.
  - simpl. destruct (es !! n) as [c|]; [|done]. simpl.
    by rewrite lookup_insert_ne.
  - simpl. destruct (es !! x) as [c|] eqn:Hx; simpl; [|by rewrite Hx].
    rewrite lookup_insert_eq. simpl. apply IH.
Qed.

Lemma mkdir_p_other d n d' t t' f :
  f ≠ n → mkdir_p (d ++ n :: d') t = Ok t' →
  lookup_path (d ++ [f]) t' = lookup_path (d ++ [f]) t.
Proof.
  intros Hf. revert t t'. induction d as [|x d IH]; intros [data|es] t'; try done.
  - simpl. destruct (mkdir_p d' _) as [c|e]; [|done]. simpl.
    intros Heq; simplify_eq. simpl. by rewrite lookup_insert_ne.
  - simpl. destruct (mkdir_p (d ++ n :: d') _) as [c|e] eqn:Hc; [|done]. simpl.
    intros Heq; simplify_eq. simpl. rewrite lookup_insert_eq. simpl.
    rewrite (IH _ _ Hc). destruct (es !! x) as [c0|]; [done|]. simpl.
    by destruct d.
Qed.

Lemma alter_in_snoc d n g t :
  alter_in (d ++ [n]) g t
  = alter_in d (λ es, match es !! n with
                      | Some c => <[n := alter_in [] g c]> es
                      | None => es
                      end) t.
Proof.
  revert t. induction d as [|x d IH]; intros [data|es]; try done.
  - simpl. by destruct (es !! n).
  - simpl. destruct (es !! x) as [c|]; [|done]. by rewrite IH.
Qed.

Lemma rename_ok d old new t t' :
  rename d old new t = Ok t' →
  ∃ es c, dir_entries d t = Some es ∧ es !! old = Some c
          ∧ t' = alter_in d (λ es, <[new := c]> (delete old es)) t.
Proof.
  unfold rename. case_bool_decide; [done|].
  destruct (dir_entries d t) as [es|]; [|done].
  destruct (es !! old) as [[data|sub]|] eqn:Hold; [| |done].
  - destruct (es !! new) as [[data'|sub']|]; intros Heq; simplify_eq;
      by eexists _, _.
  - destruct (es !! new) as [[data'|sub']|]; try done.
    + case_bool_decide; [|done]. intros Heq; simplify_eq. by eexists _, _.
    + intros Heq; simplify_eq. by eexists _, _.
Qed.

Lemma unlink_ok d n t t' :
  unlink d n t = Ok t' →
  ∃ es data, dir_entries d t = Some es ∧ es !! n = Some (File data)
             ∧ t' = alter_in d (delete n) t.
Proof.
  unfold unlink. destruct (dir_entries d t) as [es|]; [|done].
  destruct (es !! n) as [[data|sub]|] eqn:Hn; try done.
  intros Heq; simplify_eq. by eexists _, _.
Qed.

Lemma write_text_ok d n data t t' :
  write_text d n data t = Ok t' →
  ∃ es, dir_entries d t = Some es ∧ (∀ sub, es !! n ≠ Some (Dir sub))
        ∧ t' = alter_in d (<[n := File data]>) t.
Proof.
  unfold write_text. destruct (dir_entries d t) as [es|]; [|done].
  destruct (es !! n) as [[data'|sub]|] eqn:Hn; try done;
    intros Heq; simplify_eq; (eexists; split; [done|]; split; [|done]);
    intros sub; congruence.
Qed.

Lemma mkdir_images_ok p t t' es :
  dir_entries [p] t = Some es →
  mkdir_p [p; "images"] t = Ok t' →
  (∀ data, es !! "images" ≠ Some (File data))
  ∧ t' = alter_in [p]
           (λ es, <["images" := default (Dir ∅) (es !! "images")]> es) t.
Proof.
  destruct t as [data|root]; [done|]. rewrite dir_entries_cons.
  destruct (root !! p) as [[data|es0]|] eqn:Hp; try done.
  simpl. intros Heq. change (Some es0 = Some es) in Heq. simplify_eq.
  rewrite Hp. simpl.
  destruct (es !! "images") as [[data|sub]|] eqn:Hi; simpl; try done;
    intros Heq'; simplify_eq; (split; [|done]); intros data'; congruence.
Qed.

Lemma apply_op_other o t t' d n d' f :
  op_dir o = d ++ n :: d' → f ≠ n → apply_op o t = Ok t' →
  lookup_path (d ++ [f]) t' = lookup_path (d ++ [f]) t.
Proof.
  intros Hdir Hf. destruct o as [od old new|od|sd sn od dn|od m|od m data];
    simpl in *; subst od.
  - intros (es & c & _ & _ & ->)%rename_ok. by apply alter_in_other.
  - by apply mkdir_p_other.
  - unfold copy2. destruct (read_text sd sn t) as [data|e]; [|done]. simpl.
    case_bool_decide; [done|].
    destruct (lookup_path _ t) as [[data'|sub]|];
      intros (es & _ & _ & ->)%write_text_ok;
      rewrite <- ?app_assoc; by apply alter_in_other.
  - intros (es & data & _ & _ & ->)%unlink_ok. by apply alter_in_other.
  - intros (es & _ & _ & ->)%write_text_ok. by apply alter_in_other.
Qed.

(** *** Commands confined to an entry of a directory *)

Lemma confined_ret {A} d n (a : A) : confined d n (mret a : M A).
Proof. by intros w f _. Qed.

Lemma confined_bind {A B} d n (m : M A) (k : A → M B) :
  confined d n m → (∀ a, confined d n (k a)) → confined d n (m ≫= k).
Proof.
  intros Hm Hk w f Hf. unfold mbind, M_bind. specialize (Hm w f Hf).
  destruct (m w) as [[a|e] w1]; [|done]. simpl in Hm.
  by rewrite (Hk a w1 f Hf).
Qed.

Lemma confined_gets {A} d n (f : node → A) : confined d n (gets f).
Proof. by intros w q _. Qed.

Lemma confined_reads {A} d n (f : node → result A) : confined d n (reads f).
Proof. by intros w q _. Qed.

Lemma confined_print d n e : confined d n (print e).
Proof. by intros w f _. Qed.

Lemma confined_perform d n o :
  (∃ d', op_dir o = d ++ n :: d') → confined d n (perform o).
Proof.
  intros [d' Hdir] w f Hf. unfold perform.
  destruct (apply_op o (disk w)) as [t'|e] eqn:Hop; [|done].
  by apply (apply_op_other o _ _ d n d').
Qed.

Lemma confined_try d n m h :
  confined d n m → (∀ e, confined d n (h e)) → confined d n (try_except m h).
Proof.
  intros Hm Hh w f Hf. unfold try_except. specialize (Hm w f Hf).
  destruct (m w) as [[a|e] w1]; [done|]. simpl in Hm.
  by rewrite (Hh e w1 f Hf).
Qed.

Lemma confined_when d n b m :
  (b = true → confined d n m) → confined d n (when_ b m).
Proof. destruct b; [auto|intros _; apply confined_ret]. Qed.

Lemma confined_for  {A} d n (l : list A) body :
  (∀ x, confined d n (body x)) → confined d n (for_ l body).
Proof.
  intros Hbody. induction l as [|x l IH]; [apply confined_ret|].
  by apply confined_bind.
Qed.

Lemma confined_foldM {A S} d n (body : S → A → M S) s (l : list A) :
  (∀ s x, confined d n (body s x)) → confined d n (foldM body s l).
Proof.
  intros Hbody. revert s. induction l as [|x l IH]; intros s;
    [apply confined_ret|].
  by apply confined_bind.
Qed.

Ltac confined_step :=
  match goal with
  | |- confined _ _ (mret _) => apply confined_ret
  | |- confined _ _ (gets _) => apply confined_gets
  | |- confined _ _ (reads _) => apply confined_reads
  | |- confined _ _ (print _) => apply confined_print
  | |- confined _ _ (perform _) => apply confined_perform; by eexists
  | |- confined _ _ (best_effort _) => apply confined_try
  | |- confined _ _ (try_except _ _) => apply confined_try
  | |- confined _ _ (unless_dry _ _) => apply confined_when; intros _
  | |- confined _ _ (when_ _ _) => apply confined_when; intros _
  | |- confined _ _ (for_ _ _) => apply confined_for
  | |- confined _ _ (foldM _ _ _) => apply confined_foldM
  | |- confined _ _ (_ ≫= _) => apply confined_bind
  | |- confined _ _ (if _ then _ else _) => case_match
  | |- confined _ _ (match _ with _ => _ end) => case_match
  | |- confined _ _ (let '(_, _) := _ in _) => case_match
  | |- ∀ _, _ => intro
  end.

Ltac confined := repeat confined_step.

Lemma confined_sanitize_platform dry p :
  confined [] p (sanitize_platform dry p).
Proof. unfold sanitize_platform, rename_comma_roms, rename_comma_images. confined. Qed.

Lemma confined_sync_platform dry p : confined [] p (sync_platform dry p).
Proof.
  unfold sync_platform, associate_images, associate_image, prune_duplicates,
    prune_orphans, generate_csv.
  confined.
Qed.

Lemma confined_sync_allfiles dry : confined [] "cubegm" (sync_allfiles dry).
Proof. unfold sync_allfiles, catalog_lines. confined. Qed.

Lemma confined_clean_lists dry : confined [] "cubegm" (clean_lists dry).
Proof. unfold clean_lists, valid_rom_keys, clean_list. confined. Qed.

Lemma confined_rename_comma_images dry p :
  confined [p] "images" (rename_comma_images dry p).
Proof. unfold rename_comma_images. confined. Qed.

Lemma confined_prune_orphans dry p : confined [p] "images" (prune_orphans dry p).
Proof. unfold prune_orphans. confined. Qed.

(** *** What a returned command has done *)

Lemma bind_ok {A B} (m : M A) (k : A → M B) w b w' :
  (m ≫= k) w = (Ok b, w') → ∃ a w1, m w = (Ok a, w1) ∧ k a w1 = (Ok b, w').
Proof.
  unfold mbind, M_bind. destruct (m w) as [[a|e] w1]; [|done].
  by exists a, w1.
Qed.

Lemma reads_ok {A} (f : node → result A) w a w' :
  reads f w = (Ok a, w') → f (disk w) = Ok a ∧ w' = w.
Proof. unfold reads. by intros [= -> ->]. Qed.

Lemma perform_ok o w a w' :
  perform o w = (Ok a, w') → apply_op o (disk w) = Ok (disk w').
Proof.
  unfold perform. destruct (apply_op o (disk w)) as [t|e]; [|done].
  by intros [= _ <-].
Qed.

Lemma for_ok {A} (Inv : list A → world → Prop) (body : A → M unit) l w w' :
  Inv [] w →
  (∀ done x rest w w', l = done ++ x :: rest → Inv done w →
     body x w = (Ok (), w') → Inv (done ++ [x]) w') →
  for_ l body w = (Ok (), w') → Inv l w'.
Proof.
  intros H0 Hstep.
  enough (∀ rest done w, l = done ++ rest → Inv done w →
            for_ rest body w = (Ok (), w') → Inv l w') as H
    by (by apply (H l [] w)).
  induction rest as [|x rest IH]; intros done w1 Hl HI; simpl.
  - intros [= <-]. by rewrite Hl, app_nil_r.
  - intros ([] & w2 & Hrun & Hrest)%bind_ok.
    apply (IH (done ++ [x]) w2); [by rewrite <- app_assoc| |done].
    by apply (Hstep done x rest w1).
Qed.

Lemma foldM_ok {A S} (Inv : list A → world → Prop)
    (body : S → A → M S) l s s' w w' :
  Inv [] w →
  (∀ done x rest s s' w w', l = done ++ x :: rest → Inv done w →
     body s x w = (Ok s', w') → Inv (done ++ [x]) w') →
  foldM body s l w = (Ok s', w') → Inv l w'.
Proof.
  intros H0 Hstep.
  enough (∀ rest done s w, l = done ++ rest → Inv done w →
            foldM body s rest w = (Ok s', w') → Inv l w') as H
    by (by apply (H l [] s w)).
  induction rest as [|x rest IH]; intros done s1 w1 Hl HI; simpl.
  - intros [= _ <-]. by rewrite Hl, app_nil_r.
  - intros (s2 & w2 & Hrun & Hrest)%bind_ok.
    apply (IH (done ++ [x]) s2 w2); [by rewrite <- app_assoc| |done].
    by apply (Hstep done x rest s1 s2 w1).
Qed.

(** *** Names *)

Lemma has_char_take c i s : Py.has_char c (Py.take i s) → Py.has_char c s.
Proof.
  revert i. induction s as [|x s IH]; intros [|i]; simpl; try done.
  intros [?|?]%orb_prop_elim; apply orb_prop_intro; [by left|].
  right. by apply (IH i).
Qed.

Lemma has_char_stem c f : Py.has_char c (stem f) → Py.has_char c f.
Proof.
  unfold stem. destruct (Py.rfind "." f) as [i|]; [|done].
  case_bool_decide; [|done]. apply has_char_take.
Qed.

Lemma has_char_app c a b :
  Py.has_char c (a +:+ b) = Py.has_char c a || Py.has_char c b.
Proof.
  induction a as [|x a IH]; [done|]. rewrite app_cons. simpl.
  by rewrite IH, orb_assoc.
Qed.

Lemma target_no_comma rom :
  Py.has_char "," rom = false → Py.has_char "," (stem rom +:+ ".png") = false.
Proof.
  intros Hrom. rewrite has_char_app. apply orb_false_intro; [|done].
  apply negb_true_iff, Is_true_true, negb_prop_intro.
  intros H%has_char_stem. by rewrite Hrom in H.
Qed.

Lemma image_not_rom platform f :
  has_ext IMG_EXTENSIONS f → has_ext (rom_exts platform) f → False.
Proof.
  unfold has_ext. intros Himg%bool_decide_unpack Hrom%bool_decide_unpack.
  revert Hrom. generalize dependent (Py.lower (suffix f)). intros e He.
  unfold rom_exts, ROM_EXT_MAP, assoc_exts.
  unfold IMG_EXTENSIONS in He.
  repeat (apply elem_of_cons in He as [->|He]; [|]);
    try (by apply elem_of_nil in He);
    repeat case_match; rewrite ?elem_of_cons, elem_of_nil; intuition discriminate.
Qed.

Lemma csv_not_rom platform : has_ext (rom_exts platform) csv_name = false.
Proof.
  unfold has_ext. apply bool_decide_eq_false.
  change (Py.lower (suffix csv_name)) with ".csv".
  unfold rom_exts, ROM_EXT_MAP, assoc_exts.
  repeat case_match; rewrite ?elem_of_cons, elem_of_nil; intuition discriminate.
Qed.

Lemma images_not_rom platform : has_ext (rom_exts platform) "images" = false.
Proof.
  unfold has_ext. apply bool_decide_eq_false.
  change (Py.lower (suffix "images")) with "".
  unfold rom_exts, ROM_EXT_MAP, assoc_exts.
  repeat case_match; rewrite ?elem_of_cons, elem_of_nil; intuition discriminate.
Qed.

Lemma images_not_image : has_ext IMG_EXTENSIONS "images" = false.
Proof. by vm_compute. Qed.

Lemma platforms_NoDup : NoDup platforms.
Proof. apply (bool_decide_unpack _). by vm_compute. Qed.

Lemma cubegm_not_platform p : p ∈ platforms → p ≠ "cubegm".
Proof.
  intros Hp ->. revert Hp. apply (bool_decide_unpack _). by vm_compute.
Qed.

Lemma iterdir_ok d t names :
  iterdir d t = Ok names →
  ∃ es, dir_entries d t = Some es ∧ names = (map_to_list es).*1.
Proof.
  unfold iterdir. destruct (dir_entries d t) as [es|]; [|done].
  intros [= <-]. by exists es.
Qed.

Lemma path_exists_lookup d t : path_exists d t = false → lookup_path d t = None.
Proof.
  unfold path_exists. intros H%bool_decide_eq_false.
  destruct (lookup_path d t); [|done]. destruct H. by eexists.
Qed.

Lemma path_exists_false d t : path_exists d t = false → dir_entries d t = None.
Proof. unfold dir_entries. by intros ->%path_exists_lookup. Qed.

Lemma rename_dir_entries d old new t t' es :
  dir_entries d t = Some es → rename d old new t = Ok t' →
  ∃ c, es !! old = Some c
       ∧ dir_entries d t' = Some (<[new := c]> (delete old es)).
Proof.
  intros Hd (es0 & c & Hd0 & Hold & ->)%rename_ok.
  rewrite Hd in Hd0. simplify_eq. exists c. split; [done|].
  by rewrite dir_entries_alter_in, Hd.
Qed.

Section rename_post.

Variable P : string → bool.
Hypothesis P_comma : ∀ f, P f → Py.has_char "," f.

(** When the rename loop returns, no regular file that satisfies [P]
    is left. *)
Lemma rename_loop_ok d (ev : string → string → event) l w w' es :
  dir_entries d (disk w) = Some es →
  (∀ f, file_in es f → P f → f ∈ l) →
  for_ l (λ f,
    isf ← gets (is_file d f);
    when_ (isf && P f)
      (print (ev f (Py.remove_char "," f));;
       unless_dry false (perform (OpRename d f (Py.remove_char "," f))))) w
  = (Ok (), w') →
  ∃ es', dir_entries d (disk w') = Some es'
         ∧ ∀ f, file_in es' f → P f = false.
Proof.
  intros Hd Hl Hrun.
  pose (Inv := λ (done : list string) (w : world),
          ∃ es', dir_entries d (disk w) = Some es'
                 ∧ ∀ f, file_in es' f → P f → f ∈ l ∧ f ∉ done).
  assert (Inv l w') as (es' & Hd' & Hes').
  { eapply (for_ok Inv); [| |exact Hrun].
    - exists es. split; [done|]. intros f Hf HP.
      split; [by apply Hl|]. apply not_elem_of_nil.
    - intros done x rest w1 w2 _ (es1 & Hd1 & Hes1).
      rewrite run_gets, (is_file_entries' _ _ _ _ Hd1).
      destruct (file_in es1 x && P x) eqn:Hx; simpl.
      + rewrite run_print. rewrite unless_dry_false.
        intros Hp%perform_ok. simpl in Hp.
        destruct (rename_dir_entries _ _ _ _ _ _ Hd1 Hp) as (c & Hc & Hd2).
        exists (<[Py.remove_char "," x := c]> (delete x es1)).
        split; [exact Hd2|]. intros f Hf HPf.
        assert (f ≠ Py.remove_char "," x) as Hne.
        { intros ->. apply P_comma in HPf.
          by rewrite has_char_remove_char in HPf. }
        unfold file_in in Hf. rewrite lookup_insert_ne in Hf by done.
        destruct (decide (f = x)) as [->|Hfx];
          [by rewrite lookup_delete_eq in Hf|].
        rewrite lookup_delete_ne in Hf by done.
        destruct (Hes1 f Hf HPf) as [Hin Hdone]. split; [done|].
        rewrite elem_of_app, list_elem_of_singleton. tauto.
      + intros [= <-]. exists es1. split; [done|]. intros f Hf HPf.
        destruct (Hes1 f Hf HPf) as [Hin Hdone]. split; [done|].
        rewrite elem_of_app, list_elem_of_singleton. intros [?| ->]; [done|].
        apply Is_true_true in Hf, HPf. by rewrite Hf, HPf in Hx. }
  exists es'. split; [done|]. intros f Hf.
  destruct (P f) eqn:HP; [|done].
  destruct (Hes' f Hf) as [Hin Hout]; [by rewrite HP|done].
Qed.

End rename_post.

Lemma rename_comma_roms_ok p w w' :
  rename_comma_roms false p w = (Ok (), w') →
  ∃ es', dir_entries [p] (disk w') = Some es'
         ∧ ∀ f, file_in es' f → has_ext (rom_exts p) f →
                Py.has_char "," f = false.
Proof.
  unfold rename_comma_roms.
  intros (names & w1 & (Hnames & ->)%reads_ok & Hloop)%bind_ok.
  apply iterdir_ok in Hnames as (es & Hd & ->).
  set (P := λ f, has_ext (rom_exts p) f && Py.has_char "," f).
  assert (∀ f, P f → Py.has_char "," f) as HP.
  { intros f [_ Hc]%andb_prop_elim. done. }
  erewrite for_ext in Hloop.
  - destruct (rename_loop_ok P HP [p] (EvRenameRom p) _ _ _ _ Hd
                (λ f Hf _, file_in_listed _ _ Hf) Hloop) as (es' & Hd' & Hes').
    exists es'. split; [done|]. intros f Hf Hext. specialize (Hes' f Hf).
    unfold P in Hes'. apply Is_true_true in Hext. by rewrite Hext in Hes'.
  - intros f w1. cbv beta. rewrite !run_gets. unfold P. by rewrite andb_assoc.
Qed.

Lemma rename_comma_images_ok p w w' imgs :
  dir_entries (images_of p) (disk w) = Some imgs →
  rename_comma_images false p w = (Ok (), w') →
  ∃ imgs', dir_entries (images_of p) (disk w') = Some imgs'
           ∧ ∀ f, file_in imgs' f → Py.has_char "," f = false.
Proof.
  intros Hd. unfold rename_comma_images.
  rewrite run_gets, (path_exists_dir _ _ _ Hd), when_true.
  rewrite (run_reads _ _ _ _ (iterdir_entries _ _ _ Hd)).
  apply (rename_loop_ok (Py.has_char ",") (λ f H, H) (images_of p)
           (EvRenameImg p) _ _ _ _ Hd (λ f Hf _, file_in_listed _ _ Hf)).
Qed.

(** The entries of a directory outside [n] after a command confined
    to [n]. *)
Lemma confined_entries {A} d n (m : M A) w r w' es es' :
  confined d n m → m w = (r, w') →
  dir_entries d (disk w) = Some es →
  dir_entries d (disk w') = Some es' →
  ∀ f, f ≠ n → es' !! f = es !! f.
Proof.
  intros Hm Hrun Hd Hd' f Hf. specialize (Hm w f Hf).
  rewrite Hrun in Hm. simpl in Hm.
  by rewrite !lookup_path_snoc, Hd, Hd' in Hm.
Qed.

Lemma sanitize_platform_ok p w w' es' :
  sanitize_platform false p w = (Ok (), w') →
  dir_entries [p] (disk w') = Some es' → sanitized p es'.
Proof.
  unfold sanitize_platform. rewrite run_gets.
  destruct (path_exists [p] (disk w)) eqn:Hex; cbn [when_].
  - intros ([] & w1 & Hroms & Himgs)%bind_ok Hd'.
    apply rename_comma_roms_ok in Hroms as (es1 & Hd1 & Hes1).
    destruct (dir_entries (images_of p) (disk w1)) as [imgs|] eqn:Hi.
    + pose proof (confined_entries _ _ _ _ _ _ _ _
                    (confined_rename_comma_images false p) Himgs Hd1 Hd')
        as Hsame.
      destruct (rename_comma_images_ok _ _ _ _ Hi Himgs) as (imgs' & Hi' & Himgs').
      rewrite (images_entries _ _ _ Hd') in Hi'.
      destruct (es' !! "images") as [[data|sub]|] eqn:Hsub; simplify_eq.
      split.
      * intros f Hf Hext. apply (Hes1 f); [|done].
        destruct (decide (f = "images")) as [->|Hne].
        { unfold file_in in Hf. by rewrite Hsub in Hf. }
        unfold file_in in *. by rewrite <- (Hsame f Hne).
      * intros imgs0 f Hi0. rewrite Hsub in Hi0. injection Hi0 as <-.
        apply Himgs'.
    + unfold rename_comma_images in Himgs. rewrite run_gets in Himgs.
      destruct (path_exists (images_of p) (disk w1)); cbn [when_] in Himgs.
      * apply bind_ok in Himgs as (names & w2 & (Hn & ->)%reads_ok & _).
        apply iterdir_ok in Hn as (imgs & Hn & _). by rewrite Hi in Hn.
      * injection Himgs as <-. rewrite Hd1 in Hd'. simplify_eq.
        split; [done|]. intros imgs f Himgs.
        by rewrite (images_entries _ _ _ Hd1), Himgs in Hi.
  - intros [= <-] Hd'. by rewrite (path_exists_false _ _ Hex) in Hd'.
Qed.

Lemma get_roms_ok d exts t l :
  get_roms d exts t = Ok l →
  (dir_entries d t = None ∧ path_exists d t = false ∧ l = [])
  ∨ ∃ es, dir_entries d t = Some es ∧ l = game_files exts es.
Proof.
  unfold get_roms. destruct (path_exists d t) eqn:Hex; simpl.
  - destruct (iterdir d t) as [names|e] eqn:Hn; [|done].
    apply iterdir_ok in Hn as (es & Hd & ->). intros Hl. right. exists es.
    split; [done|].
    pose proof (get_roms_entries _ exts _ _ Hd) as Hg. unfold get_roms in Hg.
    rewrite Hex, (iterdir_entries _ _ _ Hd) in Hg. simpl in Hg, Hl. congruence.
  - intros [= <-]. left. by rewrite (path_exists_false _ _ Hex).
Qed.

Lemma dir_entries_parent d n t sub :
  dir_entries (d ++ [n]) t = Some sub →
  ∃ es, dir_entries d t = Some es ∧ es !! n = Some (Dir sub).
Proof.
  unfold dir_entries at 1. rewrite lookup_path_snoc.
  destruct (dir_entries d t) as [es|]; [|done]. simpl.
  destruct (es !! n) as [[data|sub']|] eqn:Hn; try done.
  intros [= ->]. by exists es.
Qed.

Lemma alter_images p g t es imgs :
  dir_entries [p] t = Some es → es !! "images" = Some (Dir imgs) →
  dir_entries [p] (alter_in (images_of p) g t)
  = Some (<["images" := Dir (g imgs)]> es).
Proof.
  intros Hd Hi. change (images_of p) with ([p] ++ ["images"]).
  by rewrite alter_in_snoc, dir_entries_alter_in, Hd; simpl; rewrite Hi.
Qed.

(** *** The images directory is created *)

Lemma mkdir_step_ok p (b : bool) w w' es :
  dir_entries [p] (disk w) = Some es →
  when_ (negb (path_exists (images_of p) (disk w)) && b)
    (unless_dry false (perform (OpMkdir (images_of p)));; print EvMkdirImages) w
  = (Ok (), w') →
  ∃ es', dir_entries [p] (disk w') = Some es'
         ∧ (∀ f, f ≠ "images" → es' !! f = es !! f)
         ∧ (b → is_Some (es' !! "images"))
         ∧ (es' !! "images" = es !! "images"
            ∨ es !! "images" = None ∧ es' !! "images" = Some (Dir ∅)).
Proof.
  intros Hd. rewrite (images_exists _ _ _ Hd).
  destruct (es !! "images") as [c|] eqn:Hi.
  - rewrite bool_decide_eq_true_2 by (by eexists). simpl.
    intros [= <-]. exists es. rewrite Hi. repeat split; eauto.
  - rewrite bool_decide_eq_false_2 by (by intros [? ?]). simpl.
    destruct b; simpl.
    + rewrite unless_dry_false.
      intros ([] & w1 & Hp%perform_ok & [= <-])%bind_ok. simpl in *.
      destruct (mkdir_images_ok _ _ _ _ Hd Hp) as [_ Ht]. rewrite Ht.
      rewrite dir_entries_alter_in, Hd. simpl. rewrite Hi. simpl.
      eexists. split; [done|]. rewrite lookup_insert_eq.
      repeat split; eauto. intros f Hf. by rewrite lookup_insert_ne.
    + intros [= <-]. exists es. rewrite Hi. repeat split; eauto. done.
Qed.

(** *** Images are moved *)

Lemma best_rom_in used_roms rom_files img rom score :
  best_rom used_roms rom_files img = (Some rom, score) → rom ∈ rom_files.
Proof.
  unfold best_rom.
  enough (∀ acc,
            foldl (λ '(best_match, best_score) rom,
                     if bool_decide (rom ∈ used_roms)
                     then (best_match, best_score)
                     else
                       let score := match_score (stem rom) (stem img) in
                       if bool_decide (best_score < score) then (Some rom, score)
                       else (best_match, best_score)) acc rom_files
            = (Some rom, score) →
            acc.1 = Some rom ∨ rom ∈ rom_files) as H.
  { intros Hb. by destruct (H _ Hb) as [?|?]. }
  induction rom_files as [|r roms IH]; intros acc; simpl.
  - intros ->. by left.
  - intros [Hacc|Hin]%IH; [|right; by right].
    destruct acc as [bm bs]. simpl in Hacc.
    destruct (bool_decide (r ∈ used_roms)); [by left|].
    case_bool_decide; simpl in Hacc; [|by left].
    injection Hacc as ->. right. by left.
Qed.

Lemma copy_images_ok p img target t t' es :
  dir_entries [p] t = Some es →
  copy2 [p] img (images_of p) target t = Ok t' →
  ∃ imgs imgs',
    es !! "images" = Some (Dir imgs)
    ∧ dir_entries [p] t' = Some (<["images" := Dir imgs']> es)
    ∧ ∀ f, file_in imgs' f → file_in imgs f ∨ f = target.
Proof.
  intros Hd. unfold copy2.
  destruct (read_text [p] img t) as [data|e]; [|done]. cbn [result_bind].
  case_bool_decide; [done|].
  destruct (lookup_path (images_of p ++ [target]) t) as [[data'|sub]|] eqn:Ht.
  - intros (imgs & Hi & _ & ->)%write_text_ok.
    apply (dir_entries_parent [p]) in Hi as (es0 & Hd0 & Hi).
    rewrite Hd in Hd0. simplify_eq. exists imgs. eexists. split; [done|].
    split; [by apply alter_images|]. intros f. unfold file_in.
    destruct (decide (f = target)) as [->|Hf]; [by right|].
    rewrite lookup_insert_ne by done. by left.
  - intros (sub0 & Hs & _ & ->)%write_text_ok.
    apply (dir_entries_parent (images_of p)) in Hs as (imgs & Hi & Hsub).
    apply (dir_entries_parent [p]) in Hi as (es0 & Hd0 & Hi).
    rewrite Hd in Hd0. simplify_eq. exists imgs. eexists. split; [done|].
    rewrite alter_in_snoc. split; [by apply alter_images|].
    rewrite Hsub. intros f. unfold file_in.
    destruct (decide (f = target)) as [->|Hf].
    + by rewrite lookup_insert_eq.
    + rewrite lookup_insert_ne by done. by left.
  - intros (imgs & Hi & _ & ->)%write_text_ok.
    apply (dir_entries_parent [p]) in Hi as (es0 & Hd0 & Hi).
    rewrite Hd in Hd0. simplify_eq. exists imgs. eexists. split; [done|].
    split; [by apply alter_images|]. intros f. unfold file_in.
    destruct (decide (f = target)) as [->|Hf]; [by right|].
    rewrite lookup_insert_ne by done. by left.
Qed.

Lemma unlink_dir_entries d n t t' es :
  dir_entries d t = Some es → unlink d n t = Ok t' →
  file_in es n ∧ dir_entries d t' = Some (delete n es).
Proof.
  intros Hd (es0 & data & Hd0 & Hn & ->)%unlink_ok.
  rewrite Hd in Hd0. simplify_eq. split.
  - unfold file_in. by rewrite Hn.
  - by rewrite dir_entries_alter_in, Hd.
Qed.

(** The card after a move: as it was, after the copy, or after the
    copy and the unlink. *)
Lemma move_block_ok o1 o2 w w' :
  try_except (perform o1;; perform o2) (λ e, print (EvError e)) w = (Ok (), w') →
  disk w' = disk w
  ∨ ∃ t1, apply_op o1 (disk w) = Ok t1
          ∧ (disk w' = t1 ∨ apply_op o2 t1 = Ok (disk w')).
Proof.
  unfold try_except, mbind, M_bind, perform.
  destruct (apply_op o1 (disk w)) as [t1|e1] eqn:H1; simpl.
  - destruct (apply_op o2 t1) as [t2|e2] eqn:H2; simpl.
    + intros [= <-]. right. exists t1. split; [done|]. by right.
    + intros [= <-]. right. exists t1. split; [done|]. by left.
  - intros [= <-]. by left.
Qed.

Section associate.

Variable platform : string.
Variable rom_files : list string.
Hypothesis rom_files_comma : ∀ r, r ∈ rom_files → Py.has_char "," r = false.

Lemma moved_refl es : moved platform es es.
Proof. by repeat split. Qed.

Lemma moved_trans es1 es2 es3 :
  moved platform es1 es2 → moved platform es2 es3 → moved platform es1 es3.
Proof.
  intros (H1 & H2 & H3) (H1' & H2' & H3'). repeat split.
  - intros f Hf. by rewrite H1', H1.
  - intros H. by apply H2', H2.
  - intros H. by apply H3', H3.
Qed.

Lemma moved_copy img rom t t' es :
  rom ∈ rom_files →
  dir_entries [platform] t = Some es →
  copy2 [platform] img (images_of platform) (stem rom +:+ ".png") t = Ok t' →
  ∃ es', dir_entries [platform] t' = Some es' ∧ moved platform es es'.
Proof.
  intros Hrom Hd Hcopy.
  destruct (copy_images_ok _ _ _ _ _ _ Hd Hcopy) as (imgs & imgs' & Hi & Hd' & Hsub).
  eexists. split; [exact Hd'|]. repeat split.
  - intros f Hf. unfold file_in.
    destruct (decide (f = "images")) as [->|Hne].
    + by rewrite lookup_insert_eq, Hi.
    + by rewrite lookup_insert_ne.
  - intros _. rewrite lookup_insert_eq. by eexists.
  - intros Hfree imgs0 f. rewrite lookup_insert_eq. intros [= <-] Hf.
    destruct (Hsub f Hf) as [Hold| ->]; [by apply (Hfree imgs)|].
    by apply target_no_comma, rom_files_comma.
Qed.

Lemma moved_unlink img t t' es :
  has_ext IMG_EXTENSIONS img →
  dir_entries [platform] t = Some es →
  unlink [platform] img t = Ok t' →
  ∃ es', dir_entries [platform] t' = Some es' ∧ moved platform es es'.
Proof.
  intros Himg Hd Hun.
  destruct (unlink_dir_entries _ _ _ _ _ Hd Hun) as [Hfile Hd'].
  assert (img ≠ "images") as Hne.
  { intros ->. by rewrite images_not_image in Himg. }
  eexists. split; [exact Hd'|]. repeat split.
  - intros f Hf. rewrite file_in_delete. case_decide; [|done]. subst f.
    destruct (image_not_rom _ _ Himg Hf).
  - by rewrite lookup_delete_ne.
  - intros Hfree imgs f. rewrite lookup_delete_ne by done. apply Hfree.
Qed.

Lemma associate_image_ok used_roms img s w w' es :
  has_ext IMG_EXTENSIONS img →
  dir_entries [platform] (disk w) = Some es →
  associate_image false platform rom_files used_roms img w = (Ok s, w') →
  ∃ es', dir_entries [platform] (disk w') = Some es' ∧ moved platform es es'.
Proof.
  intros Himg Hd. unfold associate_image.
  assert (∀ w1 : world, disk w1 = disk w →
            ∃ es', dir_entries [platform] (disk w1) = Some es'
                   ∧ moved platform es es')
    as Hsame.
  { intros w1 ->. exists es. split; [done|]. apply moved_refl. }
  destruct (best_rom used_roms rom_files img) as [[rom|] score] eqn:Hbest.
  - apply best_rom_in in Hbest. case_bool_decide.
    + rewrite run_print, unless_dry_false.
      intros ([] & w1 & Hmove & [= _ <-])%bind_ok.
      apply move_block_ok in Hmove as [Heq|(t1 & Hc & Hrest)];
        [by apply Hsame|].
      simpl in Hc. destruct (moved_copy _ _ _ _ _ Hbest Hd Hc)
        as (es1 & Hd1 & Hm1).
      destruct Hrest as [Heq|Hu].
      * exists es1. by rewrite Heq.
      * simpl in Hu. destruct (moved_unlink _ _ _ _ Himg Hd1 Hu)
          as (es2 & Hd2 & Hm2).
        exists es2. split; [done|]. by apply (moved_trans _ es1).
    + intros [= _ <-]. by apply Hsame.
  - intros [= _ <-]. by apply Hsame.
Qed.

Lemma associate_images_ok direct_images w w' es :
  (∀ img, img ∈ direct_images → has_ext IMG_EXTENSIONS img) →
  dir_entries [platform] (disk w) = Some es →
  associate_images false platform rom_files direct_images w = (Ok (), w') →
  ∃ es', dir_entries [platform] (disk w') = Some es' ∧ moved platform es es'.
Proof.
  intros Himgs Hd. unfold associate_images.
  destruct (_ && _); cbn [when_].
  - intros (s & w1 & Hloop & [= <-])%bind_ok.
    eapply (foldM_ok (λ _ w, ∃ es', dir_entries [platform] (disk w) = Some es'
                                    ∧ moved platform es es')); [| |exact Hloop].
    + exists es. split; [done|]. apply moved_refl.
    + intros done img rest s1 s2 w2 w3 Hl (es2 & Hd2 & Hm2) Hbody.
      destruct (associate_image_ok _ _ _ _ _ _ (Himgs img ltac:(rewrite Hl; set_solver))
                  Hd2 Hbody) as (es3 & Hd3 & Hm3).
      exists es3. split; [done|]. by apply (moved_trans _ es2).
  - intros [= <-]. exists es. split; [done|]. apply moved_refl.
Qed.

End associate.

(** *** Orphan images are pruned *)

Lemma prune_orphans_ok p w w' es :
  dir_entries [p] (disk w) = Some es →
  prune_orphans false p w = (Ok (), w') →
  ∃ es', dir_entries [p] (disk w') = Some es'
    ∧ (∀ f, f ≠ "images" → es' !! f = es !! f)
    ∧ match es !! "images" with
      | Some (Dir imgs) =>
          es' !! "images"
          = Some (Dir (sweep (λ f, bool_decide
                                (stem f ∉ stem <$> game_files (rom_exts p) es))
                             ((map_to_list imgs).*1) imgs))
      | Some (File _) => False
      | None => es' !! "images" = None
      end.
Proof.
  intros Hd Hrun.
  destruct (es !! "images") as [[data|imgs]|] eqn:Hi.
  - exfalso. revert Hrun. unfold prune_orphans.
    rewrite run_gets, (images_exists _ _ _ Hd), Hi.
    rewrite bool_decide_eq_true_2 by (by eexists). cbn [when_].
    rewrite (run_reads _ _ _ _ (get_roms_entries _ _ _ _ Hd)).
    assert (∀ names, iterdir (images_of p) (disk w) ≠ Ok names) as Hno.
    { intros names (imgs & Himgs & _)%iterdir_ok.
      by rewrite (images_entries _ _ _ Hd), Hi in Himgs. }
    case_bool_decide.
    + intros (names & w1 & (Hn & _)%reads_ok & _)%bind_ok. by apply Hno in Hn.
    + intros (names & w1 & (Hn & _)%reads_ok & _)%bind_ok. by apply Hno in Hn.
  - assert (dir_entries (images_of p) (disk w) = Some imgs) as Himgs.
    { by rewrite (images_entries _ _ _ Hd), Hi. }
    destruct (run_prune_orphans p w es imgs Hd Himgs) as (w1 & Hrun1 & Hd1).
    rewrite Hrun in Hrun1. injection Hrun1 as <-.
    destruct (dir_entries_parent [p] "images" _ _ Hd1) as (es' & Hd' & Hi').
    exists es'. split; [done|]. split; [|done].
    apply (confined_entries _ _ _ _ _ _ _ _
             (confined_prune_orphans false p) Hrun Hd Hd').
  - revert Hrun. unfold prune_orphans.
    rewrite run_gets, (images_exists _ _ _ Hd), Hi.
    rewrite bool_decide_eq_false_2 by (by intros [? ?]). cbn [when_].
    intros [= <-]. exists es. by rewrite Hi.
Qed.

(** *** The CSV is written *)

Lemma load_csv_ok d n t old es :
  dir_entries d t = Some es → load_csv d n t = Ok old →
  ∀ sub, es !! n ≠ Some (Dir sub).
Proof.
  intros Hd. unfold load_csv, read_text.
  rewrite (path_exists_entries _ _ _ _ Hd), Hd.
  intros Hload sub Hn. rewrite Hn in Hload.
  by rewrite bool_decide_eq_true_2 in Hload by (by eexists).
Qed.

Lemma write_dir_entries d n data t t' es :
  dir_entries d t = Some es → write_text d n data t = Ok t' →
  dir_entries d t' = Some (<[n := File data]> es).
Proof.
  intros Hd (es0 & Hd0 & _ & ->)%write_text_ok.
  by rewrite dir_entries_alter_in, Hd.
Qed.

Lemma generate_csv_ok p w w' es :
  dir_entries [p] (disk w) = Some es →
  generate_csv false p w = (Ok (), w') →
  ∃ es', dir_entries [p] (disk w') = Some es'
    ∧ (∀ f, f ≠ csv_name → es' !! f = es !! f)
    ∧ match es' !! csv_name with
      | Some (File _) => True
      | Some (Dir _) => False
      | None => game_files (rom_exts p) es = []
      end.
Proof.
  intros Hd. unfold generate_csv.
  rewrite (run_reads _ _ _ _ (get_roms_entries _ _ _ _ Hd)).
  intros (old & w1 & (Hload & ->)%reads_ok & Hrest)%bind_ok.
  pose proof (load_csv_ok _ _ _ _ _ Hd Hload) as Hnodir.
  revert Hrest. case_bool_decide as Hroms.
  - intros ([] & w1 & Hp%perform_ok & [= <-])%bind_ok. simpl in *.
    eexists. split; [by apply (write_dir_entries _ _ _ _ _ _ Hd Hp)|].
    rewrite lookup_insert_eq. split; [|done].
    intros f Hf. by rewrite lookup_insert_ne.
  - rewrite run_gets. change [p; csv_name] with ([p] ++ [csv_name]).
    rewrite (path_exists_entries [p] csv_name _ _ Hd).
    destruct (es !! csv_name) as [[data|sub]|] eqn:Hcsv.
    + rewrite bool_decide_eq_true_2 by (by eexists). cbn [when_].
      intros ([] & w1 & Hp%perform_ok & [= <-])%bind_ok. simpl in *.
      eexists. split; [by apply (write_dir_entries _ _ _ _ _ _ Hd Hp)|].
      rewrite lookup_insert_eq. split; [|done].
      intros f Hf. by rewrite lookup_insert_ne.
    + by destruct (Hnodir sub).
    + rewrite bool_decide_eq_false_2 by (by intros [? ?]). cbn [when_].
      intros [= <-]. exists es. by rewrite Hcsv.
Qed.

(** *** A platform is reconciled *)

Lemma elem_of_nil_list {A} (l : list A) : (∀ x, x ∉ l) → l = [].
Proof. destruct l as [|x l]; [done|]. intros H. destruct (H x). by left. Qed.

Lemma sync_platform_ok p w w' :
  (∀ es, dir_entries [p] (disk w) = Some es → sanitized p es) →
  sync_platform false p w = (Ok (), w') →
  is_file [] p (disk w') = false
  ∧ ∀ es', dir_entries [p] (disk w') = Some es' → tidy p es'.
Proof.
  intros Hsan. unfold sync_platform. rewrite run_gets.
  destruct (path_exists [p] (disk w)) eqn:Hex; cbn [when_].
  2:{ intros [= <-]. apply path_exists_lookup in Hex.
      unfold is_file, dir_entries. simpl app. by rewrite Hex. }
  intros (rom_files & w0 & (Hroms & ->)%reads_ok & Hrun)%bind_ok.
  apply get_roms_ok in Hroms as [(_ & Hex' & _)|(es0 & Hd0 & ->)];
    [by rewrite Hex in Hex'|].
  specialize (Hsan es0 Hd0). destruct Hsan as [Hcomma0 Himgs0].
  set (rom_files := game_files (rom_exts p) es0) in *.
  rewrite (run_reads _ _ _ _ (get_images_entries _ _ _ Hd0)) in Hrun.
  rewrite run_print in Hrun. set (w1 := World _ _ _) in Hrun.
  rewrite run_gets in Hrun.
  apply bind_ok in Hrun as ([] & w2 & Hmk & Hrun).
  change (disk w) with (disk w1) in Hd0.
  apply (mkdir_step_ok p _ _ _ _ Hd0) in Hmk
    as (es1 & Hd1 & Hsame1 & Hhas1 & Himg1).
  apply bind_ok in Hrun as ([] & w3 & Hassoc & Hrun).
  assert (∀ r, r ∈ rom_files → Py.has_char "," r = false) as Hclean.
  { intros r [Hf Hext]%elem_of_game_files. by apply Hcomma0. }
  apply (associate_images_ok p rom_files Hclean _ _ _ es1) in Hassoc
    as (es2 & Hd2 & Hrom2 & Hhas2 & Hfree2); [| |done].
  2:{ by intros img [[_ Hext] _]%list_elem_of_filter. }
  apply bind_ok in Hrun as ([] & w4 & Hdup & Hrun).
  destruct (run_prune_duplicates p rom_files w3 es2 Hd2) as (w4' & Hdup' & Hd3).
  rewrite Hdup in Hdup'. injection Hdup' as <-.
  set (es3 := sweep (is_duplicate rom_files) rom_files es2) in *.
  apply bind_ok in Hrun as ([] & w5 & Horph & Hcsv).
  apply (prune_orphans_ok p _ _ es3 Hd3) in Horph as (es4 & Hd4 & Hsame4 & Hi4).
  apply (generate_csv_ok p _ _ es4 Hd4) in Hcsv as (es5 & Hd5 & Hsame5 & Hcsv5).
  split.
  { unfold is_file. simpl app. unfold dir_entries in Hd5.
    by destruct (lookup_path [p] (disk w')) as [[data|es]|]. }
  intros es' Hd'. rewrite Hd5 in Hd'. injection Hd' as <-.
  (* the GameFiles at each stage *)
  assert (∀ f, has_ext (rom_exts p) f → file_in es1 f = file_in es0 f) as Hrom1.
  { intros f Hf. unfold file_in. destruct (decide (f = "images")) as [->|Hne];
      [|by rewrite Hsame1].
    by destruct Himg1 as [-> | [-> ->]]. }
  assert (∀ f, has_ext (rom_exts p) f → f ≠ "images" ∧ f ≠ csv_name) as Hnames.
  { intros f Hf. split; intros ->.
    - by rewrite images_not_rom in Hf.
    - by rewrite csv_not_rom in Hf. }
  assert (es3 !! "images" = es2 !! "images") as Hi3.
  { unfold es3. rewrite lookup_sweep.
    rewrite (bool_decide_eq_false_2 ("images" ∈ rom_files)); [done|].
    intros [_ Hext]%elem_of_game_files. by rewrite images_not_rom in Hext. }
  assert (∀ f, has_ext (rom_exts p) f →
               file_in es3 f
               = file_in es0 f && negb (is_duplicate rom_files f)) as Hrom3.
  { intros f Hf. unfold file_in at 1. unfold es3. rewrite lookup_sweep.
    fold (file_in es2 f). rewrite Hrom2, Hrom1 by done.
    destruct (file_in es0 f) eqn:Hf0.
    - rewrite (bool_decide_eq_true_2 (f ∈ rom_files))
        by (apply elem_of_game_files; by rewrite Hf0).
      simpl. destruct (is_duplicate rom_files f); [done|]. simpl.
      fold (file_in es2 f). by rewrite Hrom2, Hrom1.
    - rewrite andb_false_r. simpl. fold (file_in es2 f).
      by rewrite Hrom2, Hrom1. }
  assert (∀ es, (∀ f, has_ext (rom_exts p) f → file_in es f = file_in es3 f) →
            ∀ f, f ∈ game_files (rom_exts p) es
                 ↔ f ∈ rom_files ∧ is_duplicate rom_files f = false) as Hgame.
  { intros es Hes f. rewrite elem_of_game_files. split.
    - intros [Hf Hext]. rewrite Hes, Hrom3 in Hf by done.
      apply andb_prop_elim in Hf as [Hf Hnd].
      split; [by apply elem_of_game_files|].
      by apply negb_prop_elim, Is_true_false in Hnd.
    - intros [[Hf Hext]%elem_of_game_files Hnd]. split; [|done].
      rewrite Hes, Hrom3 by done. apply Is_true_true in Hf.
      by rewrite Hf, Hnd. }
  assert (∀ f, has_ext (rom_exts p) f → file_in es4 f = file_in es3 f) as Hrom4.
  { intros f Hf. unfold file_in. by rewrite Hsame4 by by apply Hnames. }
  assert (∀ f, has_ext (rom_exts p) f → file_in es5 f = file_in es3 f) as Hrom5.
  { intros f Hf. rewrite <- Hrom4 by done. unfold file_in.
    by rewrite Hsame5 by by apply Hnames. }
  pose proof (Hgame es3 (λ _ _, eq_refl)) as Hg3.
  pose proof (Hgame es4 Hrom4) as Hg4.
  pose proof (Hgame es5 Hrom5) as Hg5.
  assert (∀ x, x ∈ rom_files → is_Some (es2 !! "images")) as Hdir.
  { intros x Hx. apply Hhas2, Hhas1, bool_decide_pack.
    intros Hnil. rewrite Hnil in Hx. by apply elem_of_nil in Hx. }
  unfold tidy. split; [|split; [|split]].
  - intros rom [Hrom _]%Hg5. by apply Hclean.
  - intros rom [Hrom Hnd]%Hg5.
    destruct (is_duplicate (game_files (rom_exts p) es5) rom) eqn:Hdup5; [|done].
    apply is_duplicate_spec in Hdup5 as (Hzip & z & [Hz _]%Hg5 & Hzs & Hstem).
    assert (is_duplicate rom_files rom = true) as Hdup'.
    { apply is_duplicate_spec. split; [done|]. by exists z. }
    by rewrite Hnd in Hdup'.
  - rewrite Hsame5 by done. rewrite Hi3 in Hi4.
    destruct (es2 !! "images") as [[data|imgs]|] eqn:Hi2; [done| |].
    + rewrite Hi4. intros f Hf. unfold file_in in Hf.
      rewrite lookup_sweep in Hf. fold (file_in imgs f) in Hf.
      destruct (file_in imgs f) eqn:Hfile.
      2:{ rewrite andb_false_r in Hf. simpl in Hf.
          fold (file_in imgs f) in Hf. by rewrite Hfile in Hf. }
      rewrite bool_decide_eq_true_2 in Hf
        by (apply file_in_listed; by rewrite Hfile).
      simpl in Hf. case_bool_decide as Hstem; [done|].
      split.
      * apply (Hfree2) with imgs; [|done|by rewrite Hfile].
        intros imgs1 f1 Hi1. destruct Himg1 as [Heq|[_ Heq]].
        -- rewrite Heq in Hi1. by apply Himgs0.
        -- rewrite Heq in Hi1. by injection Hi1 as <-.
      * apply list_elem_of_fmap in Hstem as (r & -> & Hr%Hg3).
        apply list_elem_of_fmap. exists r. split; [done|]. by apply Hg5.
    + rewrite Hi4. apply elem_of_nil_list. intros x [Hx _]%Hg5.
      by destruct (Hdir x Hx).
  - destruct (es5 !! csv_name) as [[data|sub]|]; try done.
    apply elem_of_nil_list. intros x Hx%Hg5%Hg4.
    rewrite Hcsv5 in Hx. by apply elem_of_nil in Hx.
Qed.

Lemma confined_root {A} n (m : M A) w r w' p :
  confined [] n m → m w = (r, w') → p ≠ n →
  lookup_path [p] (disk w') = lookup_path [p] (disk w).
Proof. intros Hm Hrun Hp. specialize (Hm w p Hp). by rewrite Hrun in Hm. Qed.

Lemma root_dir_entries p t t' :
  lookup_path [p] t' = lookup_path [p] t →
  dir_entries [p] t' = dir_entries [p] t.
Proof. unfold dir_entries. by intros ->. Qed.

Lemma root_is_file p t t' :
  lookup_path [p] t' = lookup_path [p] t → is_file [] p t' = is_file [] p t.
Proof. unfold is_file. simpl app. by intros ->. Qed.

Lemma prefix_fresh {A} (l done rest : list A) x :
  NoDup l → l = done ++ x :: rest → x ∉ done.
Proof.
  intros Hl ->. apply NoDup_app in Hl as (_ & Hl & _).
  intros Hx. apply (Hl x Hx). by left.
Qed.

(** After step 1 every platform directory is sanitized. *)
Lemma sanitize_all_ok w w' :
  for_ platforms (sanitize_platform false) w = (Ok (), w') →
  ∀ p es, p ∈ platforms → dir_entries [p] (disk w') = Some es → sanitized p es.
Proof.
  intros Hrun.
  pose (Inv := λ (done : list string) (w : world),
          ∀ p es, p ∈ done → dir_entries [p] (disk w) = Some es →
                  sanitized p es).
  apply (for_ok Inv _ _ _ _ ltac:(by intros p es Hp%elem_of_nil)) in Hrun;
    [exact Hrun|].
  intros done x rest w1 w2 Hl HI Hbody p es Hp Hd.
  apply elem_of_app in Hp as [Hp|Hp%list_elem_of_singleton].
  - apply (HI p es Hp). rewrite <- Hd. symmetry. apply root_dir_entries.
    apply (confined_root _ _ _ _ _ _ (confined_sanitize_platform false x) Hbody).
    intros ->. by apply (prefix_fresh _ _ _ _ platforms_NoDup Hl).
  - subst p. by apply (sanitize_platform_ok x w1 w2).
Qed.

(** After step 2 every platform directory is tidy. *)
Lemma sync_all_ok w w' :
  (∀ p es, p ∈ platforms → dir_entries [p] (disk w) = Some es →
           sanitized p es) →
  for_ platforms (sync_platform false) w = (Ok (), w') →
  ∀ p, p ∈ platforms →
    is_file [] p (disk w') = false
    ∧ ∀ es, dir_entries [p] (disk w') = Some es → tidy p es.
Proof.
  intros Hsan Hrun.
  pose (Inv := λ (done : list string) (w : world),
          (∀ p, p ∈ done →
             is_file [] p (disk w) = false
             ∧ ∀ es, dir_entries [p] (disk w) = Some es → tidy p es)
          ∧ (∀ p es, p ∉ done → p ∈ platforms →
               dir_entries [p] (disk w) = Some es → sanitized p es)).
  apply (for_ok Inv) in Hrun; [by destruct Hrun| |].
  { split; [by intros p Hp%elem_of_nil|]. intros p es _. apply Hsan. }
  intros done x rest w1 w2 Hl [Hdone Hrest] Hbody.
  pose proof (prefix_fresh _ _ _ _ platforms_NoDup Hl) as Hx.
  assert (∀ p, p ≠ x → lookup_path [p] (disk w2) = lookup_path [p] (disk w1))
    as Hframe.
  { intros p Hp.
    by apply (confined_root _ _ _ _ _ _ (confined_sync_platform false x) Hbody). }
  split.
  - intros p [Hp|Hp%list_elem_of_singleton]%elem_of_app.
    + assert (p ≠ x) as Hne by (by intros ->).
      rewrite (root_is_file _ _ _ (Hframe p Hne)).
      rewrite (root_dir_entries _ _ _ (Hframe p Hne)). by apply Hdone.
    + subst p. apply (sync_platform_ok x w1 w2); [|done].
      intros es. apply Hrest; [done|]. rewrite Hl.
      apply elem_of_app. right. by left.
  - intros p es Hp Hin. rewrite elem_of_app, list_elem_of_singleton in Hp.
    assert (p ≠ x) as Hne by tauto.
    rewrite (root_dir_entries _ _ _ (Hframe p Hne)). apply Hrest; tauto.
Qed.

Lemma quiet_summary : quiet summary.
Proof. unfold summary. apply quiet_for, quiet_summary_platform. Qed.

(** A run that returns leaves every platform directory tidy. *)
Lemma run_tidies t :
  (run false t).1 = Ok () →
  ∀ p, p ∈ platforms →
    is_file [] p (disk (run false t).2) = false
    ∧ ∀ es, dir_entries [p] (disk (run false t).2) = Some es → tidy p es.
Proof.
  unfold run. destruct (sync_sd_card false (World t [] [])) as [r w'] eqn:Hrun.
  simpl. intros ->.
  apply bind_ok in Hrun as ([] & w4 & Hrec & Hsum).
  destruct (quiet_summary w4) as [Hd4 _]. rewrite Hsum in Hd4. simpl in Hd4.
  rewrite Hd4. unfold reconcile in Hrec.
  apply bind_ok in Hrec as ([] & w1 & Hsan & Hrec).
  apply bind_ok in Hrec as ([] & w2 & Hsync & Hrec).
  apply bind_ok in Hrec as ([] & w3 & Hall & Hlists).
  intros p Hp.
  assert (lookup_path [p] (disk w4) = lookup_path [p] (disk w2)) as Hframe.
  { pose proof (cubegm_not_platform p Hp) as Hne.
    rewrite (confined_root _ _ _ _ _ _ (confined_clean_lists false) Hlists Hne).
    apply (confined_root _ _ _ _ _ _ (confined_sync_allfiles false) Hall Hne). }
  rewrite (root_is_file _ _ _ Hframe), (root_dir_entries _ _ _ Hframe).
  apply (sync_all_ok w1 w2); [|done..].
  by apply (sanitize_all_ok (World t [] []) w1).
Qed.

Lemma tidy_settled t :
  (∀ p, p ∈ platforms →
     is_file [] p t = false
     ∧ ∀ es, dir_entries [p] t = Some es → tidy p es) →
  no_cover_pending t → csv_read_back t → metadata_settled t → settled t.
Proof.
  intros Htidy Hcover Hcsv Hmeta. split; [|split; [|done]].
  - apply Forall_forall. intros p Hp. by apply Htidy.
  - intros p es Hp Hd.
    destruct (Htidy p Hp) as [_ Ht]. destruct (Ht es Hd) as (H1 & H2 & H3 & H4).
    split; [done|]. split.
    { intros img rom Hf Hi Hr. by apply (Hcover p es img rom). }
    split; [done|]. split; [done|].
    destruct (es !! csv_name) as [[content|sub]|] eqn:Hc; try done.
    by apply (Hcsv p es content).
Qed.

(** ** Idempotence *)

(** A run that returns ends with the summary of the card it leaves. *)
Lemma run_summary_split dry t :
  (run dry t).1 = Ok () →
  ∃ pre, out (run dry t).2 = pre ++ summary_of (disk (run dry t).2).
Proof.
  unfold run, sync_sd_card, mbind, M_bind.
  destruct (reconcile dry (World t [] [])) as [[[]|e] w4]; [|done].
  intros _. rewrite (local_summary w4). simpl. exists (out w4).
  unfold summary_of.
  assert (quiet summary) as Hquiet.
  { unfold summary. apply quiet_for, quiet_summary_platform. }
  destruct (Hquiet (World (disk w4) [] [])) as [-> _]. done.
Qed.



Lemma platforms_list :
  platforms = ["ATARI"; "FC"; "GB"; "GBA"; "GBC"; "GG"; "MAME"; "MD"; "NGPC";
               "PCE"; "PS"; "SFC"].
Proof. by vm_compute. Qed.

Lemma reconciled_gb_settled : platform_settled "GB" reconciled_gb.
Proof.
  unfold platform_settled.
  assert (game_files (rom_exts "GB") reconciled_gb = ["mario.zip"]) as ->
    by (by vm_compute).
  split; [|split; [|split; [|split]]].
  - intros rom ->%list_elem_of_singleton. by vm_compute.
  - intros img rom Hf Hext ->%list_elem_of_singleton. revert Hext.
    apply Is_true_true, file_in_spec in Hf as [data Hf].
    apply elem_of_list_to_map_2 in Hf.
    repeat (apply elem_of_cons in Hf as [Heq|Hf];
            [simplify_eq; by vm_compute|]).
    by apply elem_of_nil in Hf.
  - intros rom ->%list_elem_of_singleton. by vm_compute.
  - change (reconciled_gb !! "images") with (Some (Dir reconciled_images)).
    intros f Hf.
    apply Is_true_true, file_in_spec in Hf as [data Hf].
    apply elem_of_list_to_map_2 in Hf.
    apply list_elem_of_singleton in Hf. simplify_eq.
    split; [by vm_compute|]. apply (bool_decide_unpack _). by vm_compute.
  - by vm_compute.
Qed.

Lemma reconciled_card_settled : settled reconciled_card.
Proof.
  split; [|split].
  - unfold platform_dirs_ok. apply (bool_decide_unpack _). by vm_compute.
  - intros platform es Hin Hd. rewrite platforms_list in Hin.
    repeat (apply elem_of_cons in Hin as [->|Hin]);
      try (by vm_compute in Hd); try (by apply elem_of_nil in Hin).
    change (dir_entries ["GB"] reconciled_card) with (Some reconciled_gb) in Hd.
    injection Hd as <-. apply reconciled_gb_settled.
  - split; [by vm_compute|]. intros lst_name Hin.
    repeat (apply elem_of_cons in Hin as [->|Hin]); try by vm_compute.
Qed.


(** ** More on the name matcher *)

Lemma lower_upper_char c : Py.lower_char (Py.upper_char c) = Py.lower_char c.
Proof. by destruct c as [[] [] [] [] [] [] [] []]. Qed.

Lemma lower_lower_char c : Py.lower_char (Py.lower_char c) = Py.lower_char c.
Proof. by destruct c as [[] [] [] [] [] [] [] []]. Qed.

Lemma lower_upper s : Py.lower (Py.upper s) = Py.lower s.
Proof.
  induction s as [|c s IH]; [done|].
  unfold Py.lower, Py.upper in *. simpl. by rewrite lower_upper_char, IH.
Qed.

Lemma lower_lower s : Py.lower (Py.lower s) = Py.lower s.
Proof.
  induction s as [|c s IH]; [done|].
  unfold Py.lower in *. simpl. by rewrite lower_lower_char, IH.
Qed.

Lemma qualifies_sym rw iw : qualifies rw iw → qualifies iw rw.
Proof. unfold qualifies. intros [->|[?|?]]; auto. Qed.

Lemma scan_tokens rw img_name :
  scan_img_words rw (remove_dups (Py.findall_words (Py.lower img_name))) = true
  ↔ ∃ iw, iw ∈ Py.findall_words (Py.lower img_name) ∧ qualifies rw iw.
Proof.
  rewrite scan_img_words_spec. by setoid_rewrite elem_of_remove_dups.
Qed.

Lemma length_filter_pos {A} (P : A → Prop) `{∀ x, Decision (P x)} (l : list A) :
  1 ≤ length (filter P l) ↔ ∃ x, x ∈ l ∧ P x.
Proof.
  split.
  - destruct (filter P l) as [|x k] eqn:Hf; simpl; [lia|]. intros _.
    assert (x ∈ filter P l) as [HP Hx]%list_elem_of_filter
      by (rewrite Hf; by left).
    by exists x.
  - intros (x & Hx & HP).
    assert (x ∈ filter P l) as Hin by (by apply list_elem_of_filter).
    destruct (filter P l); [by apply elem_of_nil in Hin|simpl; lia].
Qed.

Lemma filter_all {A} (P : A → Prop) `{∀ x, Decision (P x)} (l : list A) :
  (∀ x, x ∈ l → P x) → filter P l = l.
Proof.
  induction l as [|x l IH]; intros Hl; [done|].
  rewrite filter_cons_True by (apply Hl; by left).
  f_equal. apply IH. intros y Hy. apply Hl. by right.
Qed.

Lemma match_score_pos rom_name img_name :
  1 ≤ match_score rom_name img_name
  ↔ ∃ rw iw, rw ∈ Py.findall_words (Py.lower rom_name)
             ∧ iw ∈ Py.findall_words (Py.lower img_name)
             ∧ qualifies rw iw.
Proof.
  unfold match_score. rewrite match_score_words_count, length_filter_pos.
  setoid_rewrite scan_tokens. setoid_rewrite elem_of_remove_dups. split.
  - intros (rw & Hrw & iw & Hiw & Hq). by exists rw, iw.
  - intros (rw & iw & Hrw & Hiw & Hq). exists rw. split; [done|]. by exists iw.
Qed.

(** X1. [match_score] ignores the letter case of both names. *)
Theorem match_score_ignores_case (rom_name img_name : string) :
  match_score (Py.upper rom_name) img_name = match_score rom_name img_name
  ∧ match_score rom_name (Py.upper img_name) = match_score rom_name img_name
  ∧ match_score (Py.lower rom_name) (Py.lower img_name)
    = match_score rom_name img_name.
Proof. unfold match_score. by rewrite !lower_upper, !lower_lower. Qed.

(** X2. The score never exceeds the number of distinct tokens of the
    first name, and a name scores exactly that number against itself. *)
Theorem match_score_bounded (rom_name img_name : string) :
  match_score rom_name img_name
  ≤ length (remove_dups (Py.findall_words (Py.lower rom_name)))
  ∧ match_score rom_name rom_name
    = length (remove_dups (Py.findall_words (Py.lower rom_name))).
Proof.
  unfold match_score. rewrite !match_score_words_count.
  split; [apply length_filter|].
  f_equal. apply filter_all. intros rw Hrw.
  rewrite elem_of_remove_dups in Hrw. apply scan_tokens. exists rw. split; [done|]. by left.
Qed.

(** X3. Whether a ROM and an image match at all, a score of 1 or more,
    does not depend on which of the two names comes first, although the
    score itself counts the tokens of the first name. *)
Theorem match_score_positive_sym (a b : string) :
  1 ≤ match_score a b ↔ 1 ≤ match_score b a.
Proof.
  rewrite !match_score_pos.
  split; intros (x & y & Hx & Hy & Hq); exists y, x;
    (split; [done|]; split; [done|]); by apply qualifies_sym.
Qed.

(** ** The choice of a ROM for an image *)


Lemma best_rom_snoc used_roms rom_files rom img :
  best_rom used_roms (rom_files ++ [rom]) img
  = let '(best_match, best_score) := best_rom used_roms rom_files img in
    if bool_decide (rom ∈ used_roms) then (best_match, best_score)
    else if bool_decide (best_score < score_of img rom)
         then (Some rom, score_of img rom)
         else (best_match, best_score).
Proof.
  unfold best_rom, score_of. rewrite foldl_snoc. by destruct (foldl _ _ _).
Qed.

(** X4. The ROM chosen for an image is the first ROM of the list, among
    those not yet claimed by an earlier image, whose score against the
    image is the highest; none is chosen when and only when every
    unclaimed ROM scores 0. *)
Theorem best_rom_first_maximum (used_roms : gset string)
    (rom_files : list string) (img : string) :
  match best_rom used_roms rom_files img with
  | (Some rom, score) =>
      ∃ before after,
        rom_files = before ++ rom :: after
        ∧ (rom ∉ used_roms)
        ∧ score = match_score (stem rom) (stem img)
        ∧ 1 ≤ score
        ∧ (∀ r, r ∈ before → r ∉ used_roms →
                match_score (stem r) (stem img) < score)
        ∧ (∀ r, r ∈ after → r ∉ used_roms →
                match_score (stem r) (stem img) ≤ score)
  | (None, score) =>
      score = 0
      ∧ ∀ r, r ∈ rom_files → r ∉ used_roms →
             match_score (stem r) (stem img) = 0
  end.
Proof.
  induction rom_files as [|rom roms IH] using rev_ind.
  - simpl. split; [done|]. by intros r Hr%elem_of_nil.
  - rewrite best_rom_snoc. unfold score_of.
    destruct (best_rom used_roms roms img) as [[best|] best_score].
    + destruct IH as (before & after & -> & Hbest & -> & Hpos & Hlt & Hle).
      case_bool_decide as Hused.
      { exists before, (after ++ [rom]). rewrite <- app_assoc.
        split; [done|]. repeat (split; [done|]).
        intros r [Hr|Hr%list_elem_of_singleton]%elem_of_app Hr';
          [by apply Hle|by subst r]. }
      case_bool_decide as Hbetter.
      * exists (before ++ best :: after), []. split; [done|].
        repeat (split; [done || lia|]). split.
        -- intros r [Hr|[->|Hr]%elem_of_cons]%elem_of_app Hr'.
           ++ specialize (Hlt r Hr Hr'). lia.
           ++ done.
           ++ specialize (Hle r Hr Hr'). lia.
        -- by intros r Hr%elem_of_nil.
      * exists before, (after ++ [rom]). rewrite <- app_assoc.
        split; [done|]. repeat (split; [done|]).
        intros r [Hr|Hr%list_elem_of_singleton]%elem_of_app Hr';
          [by apply Hle|subst r; lia].
    + destruct IH as [-> Hzero]. case_bool_decide as Hused.
      { split; [done|].
        intros r [Hr|Hr%list_elem_of_singleton]%elem_of_app Hr';
          [by apply Hzero|by subst r]. }
      case_bool_decide as Hbetter.
      * exists roms, []. split; [done|]. repeat (split; [done || lia|]).
        split.
        -- intros r Hr Hr'. rewrite Hzero by done. lia.
        -- by intros r Hr%elem_of_nil.
      * split; [done|].
        intros r [Hr|Hr%list_elem_of_singleton]%elem_of_app Hr';
          [by apply Hzero|subst r; lia].
Qed.

(** ** The scanners *)

Lemma game_files_NoDup exts es : NoDup (game_files exts es).
Proof.
  unfold game_files. rewrite merge_sort_Permutation.
  apply NoDup_filter, NoDup_fst_map_to_list.
Qed.

(** The GameFiles are determined by which names with an extension of
    the set are regular files. *)
Lemma game_files_ext exts es es' :
  (∀ f, has_ext exts f → file_in es' f = file_in es f) →
  game_files exts es' = game_files exts es.
Proof.
  intros Hsame. apply (StronglySorted_unique String.le).
  - apply game_files_sorted.
  - apply game_files_sorted.
  - apply NoDup_Permutation; [apply game_files_NoDup..|].
    intros f. rewrite !elem_of_game_files. split.
    + intros [Hf Hext]. by rewrite <- Hsame.
    + intros [Hf Hext]. by rewrite Hsame.
Qed.

Lemma iterdir_file d t data :
  lookup_path d t = Some (File data) → iterdir d t = Raise NotADirectoryError.
Proof. intros Hd. unfold iterdir, dir_entries, dir_error. by rewrite Hd. Qed.

Lemma path_exists_some d t c : lookup_path d t = Some c → path_exists d t = true.
Proof. intros Hd. unfold path_exists. rewrite Hd. by apply bool_decide_eq_true_2. Qed.

Lemma path_exists_none d t : lookup_path d t = None → path_exists d t = false.
Proof.
  intros Hd. unfold path_exists. rewrite Hd.
  apply bool_decide_eq_false_2. by intros [? ?].
Qed.

Lemma lookup_dir_entries d t es :
  lookup_path d t = Some (Dir es) → dir_entries d t = Some es.
Proof. intros Hd. unfold dir_entries. by rewrite Hd. Qed.

(** X5. On a directory [get_roms] returns the names of its regular
    files whose extension, compared without case, is in the set: each
    once, in ascending order of name. *)
Theorem get_roms_sorted_listing (d : path) (extensions : list string)
    (t : node) (es : gmap string node) :
  dir_entries d t = Some es →
  ∃ roms, get_roms d extensions t = Ok roms
    ∧ StronglySorted String.le roms
    ∧ NoDup roms
    ∧ ∀ f, f ∈ roms ↔ (∃ data, es !! f = Some (File data))
                       ∧ Py.lower (suffix f) ∈ extensions.
Proof.
  intros Hd. exists (game_files extensions es).
  split; [by apply get_roms_entries|].
  split; [apply game_files_sorted|]. split; [apply game_files_NoDup|].
  intros f. rewrite elem_of_game_files, <- file_in_spec.
  unfold has_ext. rewrite Is_true_true, bool_decide_spec.
  by rewrite <- Is_true_true.
Qed.

Lemma get_roms_sorted_listing_witness :
  ∃ roms, get_roms ["GB"] (rom_exts "GB") zelda_card = Ok roms
    ∧ StronglySorted String.le roms
    ∧ NoDup roms
    ∧ ∀ f, f ∈ roms ↔ (∃ data, zelda_gb !! f = Some (File data))
                       ∧ Py.lower (suffix f) ∈ rom_exts "GB".
Proof. apply (get_roms_sorted_listing ["GB"] _ zelda_card zelda_gb). reflexivity. Defined.

(** X6. The two scanners answer the empty list for a path that does
    not exist, raise NotADirectoryError for a regular file, and return
    for a directory. *)
Theorem scanners_by_kind_of_path (d : path) (extensions : list string)
    (t : node) :
  match lookup_path d t with
  | None => get_roms d extensions t = Ok [] ∧ get_images d t = Ok []
  | Some (File _) =>
      get_roms d extensions t = Raise NotADirectoryError
      ∧ get_images d t = Raise NotADirectoryError
  | Some (Dir es) =>
      get_roms d extensions t = Ok (game_files extensions es)
      ∧ ∃ images, get_images d t = Ok images
  end.
Proof.
  destruct (lookup_path d t) as [[data|es]|] eqn:Hd.
  - unfold get_roms, get_images.
    by rewrite (path_exists_some _ _ _ Hd), (iterdir_file _ _ _ Hd).
  - pose proof (lookup_dir_entries _ _ _ Hd) as Hes.
    split; [by apply get_roms_entries|].
    eexists. by apply get_images_entries.
  - unfold get_roms, get_images. by rewrite (path_exists_none _ _ Hd).
Qed.

(** X7. In a directory the images found by [get_images] are its
    regular files with an image extension, each once, and none of them is
    a GameFile of any platform. *)
Theorem images_are_no_roms (d : path) (platform : string) (t : node)
    (es : gmap string node) :
  dir_entries d t = Some es →
  ∃ images roms,
    get_images d t = Ok images
    ∧ get_roms d (rom_exts platform) t = Ok roms
    ∧ NoDup images
    ∧ (∀ f, f ∈ images ↔ (∃ data, es !! f = Some (File data))
                          ∧ Py.lower (suffix f) ∈ IMG_EXTENSIONS)
    ∧ ∀ f, f ∈ images → f ∉ roms.
Proof.
  intros Hd. eexists _, _.
  split; [by apply get_images_entries|].
  split; [by apply get_roms_entries|].
  split; [apply NoDup_filter, NoDup_fst_map_to_list|].
  assert (∀ f, f ∈ filter (λ f, file_in es f ∧ has_ext IMG_EXTENSIONS f)
                         (map_to_list es).*1
               ↔ file_in es f ∧ has_ext IMG_EXTENSIONS f) as Hin.
  { intros f. rewrite list_elem_of_filter. split; [tauto|].
    intros [Hf Hext]. split; [done|]. by apply file_in_listed. }
  split.
  - intros f. rewrite Hin, <- file_in_spec.
    unfold has_ext. rewrite Is_true_true, bool_decide_spec.
    by rewrite <- Is_true_true.
  - intros f [_ Himg]%Hin [_ Hrom]%elem_of_game_files.
    by apply (image_not_rom platform f).
Qed.

Lemma images_are_no_roms_witness :
  ∃ images roms,
    get_images ["GB"] comma_card = Ok images
    ∧ get_roms ["GB"] (rom_exts "GB") comma_card = Ok roms
    ∧ NoDup images
    ∧ (∀ f, f ∈ images ↔ (∃ data, comma_gb !! f = Some (File data))
                          ∧ Py.lower (suffix f) ∈ IMG_EXTENSIONS)
    ∧ ∀ f, f ∈ images → f ∉ roms.
Proof. apply (images_are_no_roms ["GB"] "GB" comma_card comma_gb). reflexivity. Defined.

(** ** Text files read back *)

Lemma string_forall_app p a b :
  string_forall p (a +:+ b) = string_forall p a && string_forall p b.
Proof.
  induction a as [|c a IH]; [done|]. rewrite app_cons. simpl.
  by rewrite IH, andb_assoc.
Qed.

Lemma string_forall_lstrip p s :
  string_forall p s → string_forall p (Py.lstrip s).
Proof.
  induction s as [|c s IH]; [done|]. simpl.
  destruct (Py.is_space c); [|done].
  intros [_ H]%andb_prop_elim. by apply IH.
Qed.

Lemma rstrip_cons c s :
  Py.rstrip (String c s)
  = if bool_decide (Py.rstrip s = "")
    then (if Py.is_space c then "" else String c "")
    else String c (Py.rstrip s).
Proof. simpl. by destruct (Py.rstrip s). Qed.

Lemma string_forall_rstrip p s :
  string_forall p s → string_forall p (Py.rstrip s).
Proof.
  induction s as [|c s IH]; [done|]. rewrite rstrip_cons.
  cbn [string_forall]. intros [Hc Hs]%andb_prop_elim.
  case_bool_decide.
  - destruct (Py.is_space c); [done|]. simpl. by rewrite andb_true_r.
  - simpl. apply andb_prop_intro. auto.
Qed.

Lemma string_forall_strip p s :
  string_forall p s → string_forall p (Py.strip s).
Proof. intros H. by apply string_forall_lstrip, string_forall_rstrip. Qed.

Lemma string_forall_take p i s :
  string_forall p s → string_forall p (Py.take i s).
Proof.
  revert i. induction s as [|c s IH]; intros [|i]; try done. simpl.
  intros [Hc Hs]%andb_prop_elim. apply andb_prop_intro. auto.
Qed.

Lemma string_forall_drop p i s :
  string_forall p s → string_forall p (Py.drop i s).
Proof.
  revert i. induction s as [|c s IH]; intros [|i]; try done. simpl.
  intros [Hc Hs]%andb_prop_elim. auto.
Qed.

Lemma has_char_forall c s :
  Py.has_char c s = negb (string_forall (λ x, negb (Ascii.eqb x c)) s).
Proof.
  induction s as [|x s IH]; [done|]. simpl. rewrite IH.
  by destruct (Ascii.eqb x c).
Qed.

Lemma no_char_forall c s :
  Py.has_char c s = false ↔ string_forall (λ x, negb (Ascii.eqb x c)) s.
Proof.
  rewrite has_char_forall, negb_false_iff. by rewrite Is_true_true.
Qed.

(** *** Stripping *)

Lemma lstrip_idem s : Py.lstrip (Py.lstrip s) = Py.lstrip s.
Proof.
  induction s as [|c s IH]; [done|]. simpl.
  destruct (Py.is_space c) eqn:Hc; [done|]. simpl. by rewrite Hc.
Qed.

Lemma rstrip_idem s : Py.rstrip (Py.rstrip s) = Py.rstrip s.
Proof.
  induction s as [|c s IH]; [done|]. rewrite rstrip_cons.
  case_bool_decide as Hs.
  - destruct (Py.is_space c) eqn:Hc; [done|]. simpl. by rewrite Hc.
  - rewrite rstrip_cons, IH. by rewrite bool_decide_eq_false_2.
Qed.

Lemma lstrip_rstrip s : Py.rstrip (Py.lstrip s) = Py.lstrip (Py.rstrip s).
Proof.
  induction s as [|c s IH]; [done|].
  rewrite rstrip_cons. cbn [Py.lstrip].
  destruct (Py.is_space c) eqn:Hc.
  - rewrite IH. case_bool_decide as Hs; [by rewrite Hs|].
    simpl. by rewrite Hc.
  - rewrite rstrip_cons. case_bool_decide; simpl; by rewrite Hc.
Qed.

Lemma strip_idem s : Py.strip (Py.strip s) = Py.strip s.
Proof.
  unfold Py.strip. by rewrite lstrip_rstrip, rstrip_idem, lstrip_idem.
Qed.

Lemma rstrip_strip s : Py.rstrip (Py.strip s) = Py.strip s.
Proof. unfold Py.strip. by rewrite lstrip_rstrip, rstrip_idem. Qed.

Lemma lstrip_strip s : Py.lstrip (Py.strip s) = Py.strip s.
Proof. unfold Py.strip. apply lstrip_idem. Qed.

(** A string that [lstrip] leaves alone is empty or starts with a
    character that is no whitespace. *)
Lemma lstrip_fixed c s :
  Py.lstrip (String c s) = String c s → Py.is_space c = false.
Proof.
  simpl. destruct (Py.is_space c); [|done]. intros Heq.
  assert (String.length (Py.lstrip s) ≤ String.length s) as Hlen.
  { clear. induction s as [|x s IH]; [done|]. simpl.
    destruct (Py.is_space x); simpl; lia. }
  rewrite Heq in Hlen. simpl in Hlen. lia.
Qed.

Lemma lstrip_app a b : a ≠ "" → Py.lstrip a = a → Py.lstrip (a +:+ b) = a +:+ b.
Proof.
  destruct a as [|c a]; [done|]. intros _ Hc%lstrip_fixed.
  rewrite app_cons. simpl. by rewrite Hc.
Qed.

Lemma rstrip_app a b :
  Py.rstrip b ≠ "" → Py.rstrip (a +:+ b) = a +:+ Py.rstrip b.
Proof.
  intros Hb. induction a as [|c a IH]; [done|].
  rewrite !app_cons, rstrip_cons, IH.
  rewrite bool_decide_eq_false_2; [done|].
  destruct a; [done|]. by rewrite app_cons.
Qed.

Lemma rstrip_tail c s : Py.rstrip (String c s) = String c s → Py.rstrip s = s.
Proof.
  rewrite rstrip_cons. case_bool_decide as Hs.
  - destruct (Py.is_space c); [done|]. intros [= <-]. done.
  - by intros [= ->].
Qed.

Lemma rstrip_drop i s : Py.rstrip s = s → Py.rstrip (Py.drop i s) = Py.drop i s.
Proof.
  revert i. induction s as [|c s IH]; intros [|i]; try done. simpl.
  intros Hs%rstrip_tail. by apply IH.
Qed.

(** *** Cutting at separators *)

Lemma split_on_app sep a c b :
  string_forall (λ x, negb (sep x)) a → sep c = true →
  Py.split_on sep (a +:+ String c b) = a :: Py.split_on sep b.
Proof.
  intros Ha Hc. induction a as [|x a IH].
  - rewrite app_empty_l. simpl. by rewrite Hc.
  - rewrite app_cons. simpl in *. apply andb_prop_elim in Ha as [Hx Ha].
    apply negb_prop_elim, Is_true_false in Hx. rewrite Hx.
    by rewrite (IH Ha).
Qed.

Lemma split_on_single sep a :
  string_forall (λ x, negb (sep x)) a → Py.split_on sep a = [a].
Proof.
  induction a as [|x a IH]; [done|]. simpl.
  intros [Hx Ha]%andb_prop_elim.
  apply negb_prop_elim, Is_true_false in Hx. by rewrite Hx, (IH Ha).
Qed.

Lemma split_on_pieces sep s :
  Forall (λ piece, string_forall (λ x, negb (sep x)) piece) (Py.split_on sep s).
Proof.
  induction s as [|c s IH]; simpl.
  - by apply Forall_singleton.
  - destruct (sep c) eqn:Hc.
    + by apply Forall_cons.
    + destruct (Py.split_on sep s) as [|h t].
      * apply Forall_singleton. simpl. by rewrite Hc.
      * apply Forall_cons in IH as [Hh Ht]. apply Forall_cons.
        split; [|done]. simpl. by rewrite Hc.
Qed.

Lemma is_newline_nl : Py.is_newline "010" = true.
Proof. done. Qed.

(** The lines of a text written as lines joined by, and ended with, a
    line end. *)
Lemma file_lines_join line lines :
  Forall (λ l, single_line l) (line :: lines) →
  Py.file_lines (Py.join nl (line :: lines) +:+ nl) = line :: lines ++ [""].
Proof.
  revert line. induction lines as [|l lines IH]; intros line Hl.
  - apply Forall_cons in Hl as [Hl _]. simpl.
    unfold Py.file_lines, nl. by rewrite split_on_app.
  - apply Forall_cons in Hl as [Hl Hls].
    change (Py.join nl (line :: l :: lines))
      with (line +:+ nl +:+ Py.join nl (l :: lines)).
    unfold nl at 1.
    replace ((line +:+ String "010" "" +:+ Py.join nl (l :: lines)) +:+ nl)
      with (line +:+ String "010" (Py.join nl (l :: lines) +:+ nl)).
    2:{ clear. induction line as [|c line IH]; [done|].
        rewrite !app_cons. by rewrite IH. }
    unfold Py.file_lines. rewrite split_on_app by done.
    f_equal. by apply IH.
Qed.

Lemma strip_empty : Py.strip "" = "".
Proof. done. Qed.

(** The lines a reader keeps are clean. *)
Lemma stripped_lines_clean content :
  Forall clean_line (Py.stripped_lines content).
Proof.
  unfold Py.stripped_lines. apply Forall_forall.
  intros l [Hne Hin]%list_elem_of_filter.
  apply list_elem_of_fmap in Hin as (raw & -> & Hraw).
  split; [done|]. split; [apply strip_idem|].
  apply string_forall_strip.
  pose proof (split_on_pieces Py.is_newline content) as H.
  rewrite Forall_forall in H. by apply H.
Qed.

Lemma filter_clean lines :
  Forall clean_line lines → filter (λ l, l ≠ "") (Py.strip <$> lines) = lines.
Proof.
  induction 1 as [|l lines (Hne & Hstrip & _) _ IH]; [done|].
  rewrite fmap_cons, Hstrip, filter_cons_True by done. by rewrite IH.
Qed.

(** Clean lines written joined by, and ended with, a line end are read
    back as they are. *)
Lemma stripped_lines_join lines :
  Forall clean_line lines →
  Py.stripped_lines (Py.join nl lines +:+ nl) = lines.
Proof.
  intros Hl. destruct lines as [|line lines]; [done|].
  unfold Py.stripped_lines. rewrite file_lines_join.
  2:{ eapply Forall_impl; [exact Hl|]. by intros l (_ & _ & H). }
  rewrite app_comm_cons, fmap_app, filter_app, filter_clean by done.
  rewrite fmap_cons, strip_empty, filter_cons_False by (by intros []).
  apply app_nil_r.
Qed.

Lemma filtered_list_lines valid_roms content :
  Py.stripped_lines (filtered_list valid_roms content)
  = filter (λ line, Py.first_field "|" line ∈ valid_roms)
           (Py.stripped_lines content).
Proof.
  unfold filtered_list. case_bool_decide as Hkept; [by rewrite Hkept|].
  apply stripped_lines_join, Forall_forall.
  intros l [_ Hl]%list_elem_of_filter.
  pose proof (stripped_lines_clean content) as H.
  rewrite Forall_forall in H. by apply H.
Qed.

Lemma filter_filter_same {A} (P : A → Prop) `{∀ x, Decision (P x)} (l : list A) :
  filter P (filter P l) = filter P l.
Proof. rewrite list_filter_filter. apply list_filter_iff. tauto. Qed.

Lemma filter_filter_not {A} (P : A → Prop) `{∀ x, Decision (P x)} (l : list A) :
  filter (λ x, ¬ P x) (filter P l) = [].
Proof.
  rewrite list_filter_filter. induction l as [|x l IH]; [done|].
  rewrite filter_cons_False by tauto. done.
Qed.

Lemma filtered_list_idem valid_roms content :
  filtered_list valid_roms (filtered_list valid_roms content)
  = filtered_list valid_roms content.
Proof.
  unfold filtered_list at 1 3. rewrite filtered_list_lines.
  by rewrite filter_filter_same.
Qed.

(** Writing to a file the content it has leaves the card as it is. *)
Lemma run_rewrite d n data w :
  lookup_path (d ++ [n]) (disk w) = Some (File data) →
  perform (OpWrite d n data) w
  = (Ok (), World (disk w) (trace w ++ [OpWrite d n data]) (out w)).
Proof.
  intros Hfile. destruct (lookup_file_entries _ _ _ _ Hfile) as (es & Hes & Hn).
  unfold perform. simpl. unfold write_text. rewrite Hes, Hn.
  by rewrite (alter_in_id _ _ _ _ Hes) by (by apply insert_id).
Qed.

(** X8. Filtering a list file is idempotent: a second pass over the
    file that a first pass has written returns, keeps every line that the
    first pass kept, removes none and leaves the card as it is. *)
Theorem clean_list_twice (valid_roms : gset string) (lst_name : string)
    (w : world) (es : gmap string node) (content : string) :
  dir_entries cubegm (disk w) = Some es →
  es !! lst_name = Some (File content) →
  ∃ w1 w2,
    clean_list false valid_roms lst_name w = (Ok (), w1)
    ∧ clean_list false valid_roms lst_name w1 = (Ok (), w2)
    ∧ disk w2 = disk w1
    ∧ out w2
      = out w1
        ++ [EvList lst_name
              (length (filter (λ line, Py.first_field "|" line ∈ valid_roms)
                              (Py.stripped_lines content)))
              0].
Proof.
  intros Hes Hlst.
  destruct (run_clean_list valid_roms lst_name w es (Some content) Hes Hlst)
    as (w1 & Hrun1 & Hd1).
  set (kept := filter (λ line, Py.first_field "|" line ∈ valid_roms)
                      (Py.stripped_lines content)).
  assert (lookup_path ["cubegm"; lst_name] (disk w1)
          = Some (File (filtered_list valid_roms content))) as Hfile.
  { change ["cubegm"; lst_name] with (cubegm ++ [lst_name]).
    rewrite lookup_path_snoc, Hd1. simpl. apply lookup_insert_eq. }
  exists w1. eexists. split; [done|].
  unfold clean_list.
  rewrite run_gets, (path_exists_entries _ _ _ _ Hd1), lookup_insert_eq.
  rewrite bool_decide_eq_true_2 by (by eexists). rewrite when_true.
  erewrite run_reads
    by (apply (read_text_entries _ _ _ _ _ Hd1), lookup_insert_eq).
  rewrite filter_list_spec, filtered_list_lines.
  rewrite filter_filter_same.
  rewrite (filter_filter_not (λ line, Py.first_field "|" line ∈ valid_roms)).
  fold kept.
  erewrite run_bind; last first.
  { apply run_rewrite.
    change (cubegm ++ [lst_name]) with ["cubegm"; lst_name]. rewrite Hfile.
    unfold filtered_list. fold kept. by repeat case_bool_decide. }
  done.
Qed.

Lemma clean_list_twice_witness :
  ∃ w1 w2,
    clean_list false {["GB/zelda.zip"]} "favorites.lst"
      (World lists_card [] []) = (Ok (), w1)
    ∧ clean_list false {["GB/zelda.zip"]} "favorites.lst" w1 = (Ok (), w2)
    ∧ disk w2 = disk w1
    ∧ out w2 = out w1 ++ [EvList "favorites.lst" 1 0].
Proof.
  destruct (clean_list_twice {["GB/zelda.zip"]} "favorites.lst"
              (World lists_card [] [])
              (list_to_map
                 [("favorites.lst",
                   File ("GB/zelda.gbc|Zelda" +:+ nl +:+ "GB/zelda.zip|Zelda"));
                  ("recent.lst", File ("GB/zelda.gbc|Zelda" +:+ nl))])
              ("GB/zelda.gbc|Zelda" +:+ nl +:+ "GB/zelda.zip|Zelda"))
    as (w1 & w2 & H1 & H2 & H3 & H4); [reflexivity..|].
  exists w1, w2. split; [exact H1|]. split; [exact H2|]. split; [exact H3|].
  rewrite H4. do 3 f_equal.
Defined.

(** ** The CSV reads back *)

Lemma find_take c s i : Py.find c s = Some i → Py.has_char c (Py.take i s) = false.
Proof.
  revert i. induction s as [|x s IH]; intros i; simpl; [done|].
  destruct (Ascii.eqb x c) eqn:Hx.
  - by intros [= <-].
  - destruct (Py.find c s) as [j|]; [|done]. simpl. intros [= <-].
    simpl. rewrite Hx. by apply IH.
Qed.

Lemma find_app c a b :
  Py.has_char c a = false →
  Py.find c (a +:+ String c b) = Some (String.length a).
Proof.
  induction a as [|x a IH]; simpl.
  - by rewrite Ascii.eqb_refl.
  - intros [Hx Ha]%orb_false_elim. by rewrite Hx, (IH Ha).
Qed.

Lemma take_app a b : Py.take (String.length a) (a +:+ b) = a.
Proof.
  induction a as [|x a IH]; simpl; [by destruct b|]. by rewrite IH.
Qed.

Lemma drop_app a c b : Py.drop (S (String.length a)) (a +:+ String c b) = b.
Proof. induction a as [|x a IH]; simpl; [done|]. exact IH. Qed.

Lemma clean_line_lstrip l : clean_line l → Py.lstrip l = l.
Proof. intros (_ & <- & _). apply lstrip_strip. Qed.

(** The line of a clean key and a clean rest is stored as it is. *)
Lemma strip_record k v :
  clean_key k → clean_rest v →
  Py.strip (k +:+ "," +:+ v) = k +:+ "," +:+ v.
Proof.
  intros [Hk _] [Hv _]. unfold Py.strip.
  assert (Py.rstrip ("," +:+ v) = "," +:+ v) as Hrest.
  { change ("," +:+ v) with (String "," v). rewrite rstrip_cons, Hv.
    case_bool_decide as Hempty; [by rewrite Hempty|done]. }
  rewrite rstrip_app by (by rewrite Hrest). rewrite Hrest.
  apply lstrip_app; [by destruct Hk|by apply clean_line_lstrip].
Qed.

Lemma csv_record_clean data k v :
  clean_key k → clean_rest v →
  csv_record data (k +:+ "," +:+ v) = <[k := v]> data.
Proof.
  intros Hk Hv. unfold csv_record. rewrite (strip_record _ _ Hk Hv).
  destruct Hk as [(Hne & Hstrip & _) Hcomma].
  rewrite bool_decide_eq_false_2 by (by destruct k).
  change ("," +:+ v) with (String "," v).
  rewrite (find_app _ _ _ Hcomma).
  rewrite bool_decide_eq_true_2 by (destruct k; [done|simpl; lia]).
  by rewrite take_app, drop_app, Hstrip.
Qed.

Lemma csv_record_blank data : csv_record data "" = data.
Proof. done. Qed.


Lemma csv_line_rest old_csv rom :
  csv_line old_csv rom = rom +:+ "," +:+ csv_rest old_csv rom.
Proof. apply csv_line_default. Qed.

Lemma foldl_csv_lines old_csv roms data :
  Forall clean_key roms →
  Forall (λ rom, clean_rest (csv_rest old_csv rom)) roms →
  foldl csv_record data (csv_line old_csv <$> roms)
  = foldl (λ m rom, <[rom := csv_rest old_csv rom]> m) data roms.
Proof.
  revert data. induction roms as [|rom roms IH]; intros data Hk Hv; [done|].
  apply Forall_cons in Hk as [Hk Hks]. apply Forall_cons in Hv as [Hv Hvs].
  simpl. rewrite csv_line_rest, csv_record_clean by done. by apply IH.
Qed.

Lemma lookup_foldl_insert (f : string → string) roms (data : gmap string string) k :
  foldl (λ m rom, <[rom := f rom]> m) data roms !! k
  = if bool_decide (k ∈ roms) then Some (f k) else data !! k.
Proof.
  revert data. induction roms as [|rom roms IH]; intros data.
  - case_bool_decide as Hin; [by apply elem_of_nil in Hin|done].
  - cbn [foldl]. rewrite IH.
    case_bool_decide as Hin; case_bool_decide as Hin'; try done.
    + destruct Hin'. by right.
    + apply elem_of_cons in Hin' as [->|?]; [|done].
      by rewrite lookup_insert_eq.
    + rewrite lookup_insert_ne; [done|]. intros ->. destruct Hin'. by left.
Qed.

Lemma single_line_record k v :
  single_line k → single_line v → single_line (k +:+ "," +:+ v).
Proof.
  intros Hk Hv. unfold single_line in *.
  rewrite !string_forall_app. apply andb_prop_intro. split; [done|].
  by apply andb_prop_intro.
Qed.

(** What [generate_csv] writes for clean names, as [load_csv] reads
    it. *)
Lemma parse_generated old_csv roms k :
  Forall clean_key roms →
  Forall (λ rom, clean_rest (csv_rest old_csv rom)) roms →
  parse_csv (Py.join nl (csv_line old_csv <$> roms) +:+ nl) !! k
  = if bool_decide (k ∈ roms) then Some (csv_rest old_csv k) else None.
Proof.
  intros Hk Hv. unfold parse_csv.
  destruct roms as [|rom roms].
  { rewrite bool_decide_eq_false_2 by apply not_elem_of_nil. done. }
  rewrite fmap_cons, file_lines_join.
  2:{ rewrite <- fmap_cons. apply Forall_fmap, Forall_forall. intros r Hr.
      rewrite Forall_forall in Hk, Hv. simpl. rewrite csv_line_rest.
      destruct (Hk r Hr) as [(_ & _ & Hl) _]. destruct (Hv r Hr) as [_ Hl'].
      by apply single_line_record. }
  rewrite app_comm_cons, foldl_snoc, csv_record_blank, <- fmap_cons.
  by rewrite foldl_csv_lines, lookup_foldl_insert.
Qed.

(** The records of a loaded CSV are clean. *)
Lemma csv_record_keeps (P : string → string → Prop) data raw :
  single_line raw →
  (∀ k v, clean_key k → clean_rest v → P k v) →
  map_Forall P data → map_Forall P (csv_record data raw).
Proof.
  intros Hraw HP Hdata. unfold csv_record.
  case_bool_decide as Hblank; [done|].
  destruct (Py.find "," (Py.strip raw)) as [idx|] eqn:Hfind; [|done].
  case_bool_decide as Hidx; [|done].
  apply map_Forall_insert_2; [|done]. apply HP.
  - assert (single_line (Py.strip raw)) as Hline
      by (by apply string_forall_strip).
    split; [split; [|split]|].
    + pose proof (lstrip_strip raw) as Hl.
      destruct (Py.strip raw) as [|c line]; [done|].
      apply lstrip_fixed in Hl. destruct idx as [|i]; [lia|].
      cbn [Py.take]. unfold Py.strip. rewrite rstrip_cons.
      rewrite Hl. case_bool_decide; simpl; by rewrite Hl.
    + apply strip_idem.
    + by apply string_forall_strip, string_forall_take.
    + apply no_char_forall, string_forall_strip, no_char_forall.
      by apply find_take.
  - split.
    + apply rstrip_drop, rstrip_strip.
    + apply string_forall_drop. by apply string_forall_strip.
Qed.

Lemma parse_csv_clean content k v :
  parse_csv content !! k = Some v → clean_key k ∧ clean_rest v.
Proof.
  unfold parse_csv.
  assert (map_Forall (λ k v, clean_key k ∧ clean_rest v)
            (foldl csv_record ∅ (Py.file_lines content))) as Hall.
  { pose proof (split_on_pieces Py.is_newline content) as Hlines.
    fold (Py.file_lines content) in Hlines.
    assert (map_Forall (λ k v, clean_key k ∧ clean_rest v)
              (∅ : gmap string string)) as Hempty by apply map_Forall_empty.
    revert Hempty. generalize (∅ : gmap string string).
    induction Hlines as [|raw lines Hraw _ IH]; intros data Hdata; [done|].
    simpl. apply IH. by apply csv_record_keeps. }
  apply Hall.
Qed.

(** X9. Every record that [load_csv] loads has a key that is not
    empty, has no surrounding whitespace, no comma and no line end, and a
    rest without trailing whitespace and line end. *)
Theorem loaded_csv_is_clean (d : path) (n : string) (t : node)
    (old_csv : gmap string string) (k v : string) :
  load_csv d n t = Ok old_csv → old_csv !! k = Some v →
  (k ≠ "" ∧ Py.strip k = k ∧ single_line k ∧ Py.has_char "," k = false)
  ∧ Py.rstrip v = v ∧ single_line v.
Proof.
  unfold load_csv. destruct (negb _); [by intros [= <-]|].
  destruct (read_text d n t) as [content|e]; [|done]. simpl.
  intros [= <-] Hkv.
  destruct (parse_csv_clean _ _ _ Hkv) as [[(? & ? & ?) ?] [? ?]]. done.
Qed.

Lemma loaded_csv_is_clean_witness :
  ("game.zip" ≠ "" ∧ Py.strip "game.zip" = "game.zip"
   ∧ single_line "game.zip" ∧ Py.has_char "," "game.zip" = false)
  ∧ Py.rstrip "Custom Name,CustomRegion" = "Custom Name,CustomRegion"
  ∧ single_line "Custom Name,CustomRegion".
Proof.
  apply (loaded_csv_is_clean ["GB"] csv_name csv_card
           (parse_csv "game.zip,Custom Name,CustomRegion")); reflexivity.
Defined.


Lemma single_line_stem rom : single_line rom → single_line (stem rom).
Proof.
  unfold stem. destruct (Py.rfind "." rom) as [i|]; [|done].
  case_bool_decide; [|done]. apply string_forall_take.
Qed.

Lemma clean_default_rest rom :
  single_line rom → Py.rstrip (stem rom) = stem rom →
  clean_rest (stem rom +:+ "," +:+ stem rom).
Proof.
  intros Hline Hstem.
  assert (Py.rstrip ("," +:+ stem rom) = "," +:+ stem rom) as Hrest.
  { change ("," +:+ stem rom) with (String "," (stem rom)).
    rewrite rstrip_cons, Hstem.
    case_bool_decide as Hempty; [by rewrite Hempty|done]. }
  split.
  - rewrite rstrip_app by (by rewrite Hrest). by rewrite Hrest.
  - apply single_line_record; by apply single_line_stem.
Qed.



(** ** Commands that print no line of a class *)

Lemma mute_ret {A} P (a : A) : mute P (mret a : M A).
Proof. by intros w. Qed.

Lemma mute_bind {A B} P (m : M A) (k : A → M B) :
  mute P m → (∀ a, mute P (k a)) → mute P (m ≫= k).
Proof.
  intros Hm Hk w. unfold mbind, M_bind. specialize (Hm w).
  destruct (m w) as [[a|e] w1]; [|done]. simpl in Hm.
  by rewrite (Hk a w1).
Qed.

Lemma mute_gets {A} P (f : node → A) : mute P (gets f).
Proof. by intros w. Qed.

Lemma mute_reads {A} P (f : node → result A) : mute P (reads f).
Proof. by intros w. Qed.

Lemma mute_print (P : event → bool) e : P e = false → mute P (print e).
Proof.
  intros He w. simpl.
  rewrite filter_app, filter_cons_False by (rewrite He; intros []).
  apply app_nil_r.
Qed.

Lemma mute_perform P o : mute P (perform o).
Proof. intros w. by rewrite perform_out. Qed.

Lemma mute_try P m h :
  mute P m → (∀ e, mute P (h e)) → mute P (try_except m h).
Proof.
  intros Hm Hh w. unfold try_except. specialize (Hm w).
  destruct (m w) as [[a|e] w1]; [done|]. simpl in Hm.
  by rewrite (Hh e w1).
Qed.

Lemma mute_when P b m : mute P m → mute P (when_ b m).
Proof. destruct b; [done|intros _; apply mute_ret]. Qed.

Lemma mute_for {A} P (l : list A) body :
  (∀ x, mute P (body x)) → mute P (for_ l body).
Proof.
  intros Hb. induction l as [|x l IH]; simpl.
  - apply mute_ret.
  - apply mute_bind; auto.
Qed.

Lemma mute_foldM {A S} P (body : S → A → M S) s (l : list A) :
  (∀ s x, mute P (body s x)) → mute P (foldM body s l).
Proof.
  intros Hb. revert s. induction l as [|x l IH]; intros s; simpl.
  - apply mute_ret.
  - apply mute_bind; auto.
Qed.

Ltac mute_step :=
  match goal with
  | |- mute _ (mret _) => apply mute_ret
  | |- mute _ (gets _) => apply mute_gets
  | |- mute _ (reads _) => apply mute_reads
  | |- mute _ (print _) => by apply mute_print
  | |- mute _ (perform _) => apply mute_perform
  | |- mute _ (best_effort _) => apply mute_try
  | |- mute _ (try_except _ _) => apply mute_try
  | |- mute _ (unless_dry _ _) => apply mute_when
  | |- mute _ (when_ _ _) => apply mute_when
  | |- mute _ (for_ _ _) => apply mute_for
  | |- mute _ (foldM _ _ _) => apply mute_foldM
  | |- mute _ (_ ≫= _) => apply mute_bind
  | |- mute _ (if _ then _ else _) => case_match
  | |- mute _ (match _ with _ => _ end) => case_match
  | |- mute _ (let '(_, _) := _ in _) => case_match
  | |- ∀ _, _ => intro
  end.

(** Steps 1 to 4 print no summary line. *)
Lemma mute_reconcile dry : mute is_summary (reconcile dry).
Proof.
  unfold reconcile, sanitize_platform, rename_comma_roms, rename_comma_images,
    sync_platform, associate_images, associate_image, prune_duplicates,
    prune_orphans, generate_csv, sync_allfiles, catalog_lines, clean_lists,
    valid_rom_keys, clean_list.
  repeat mute_step.
Qed.

Lemma mute_summary : mute is_action summary.
Proof. unfold summary, summary_platform. repeat mute_step. Qed.

Lemma lookup_root_cong p d t t' :
  lookup_path [p] t' = lookup_path [p] t →
  lookup_path (p :: d) t' = lookup_path (p :: d) t.
Proof.
  destruct t as [data|es], t' as [data'|es']; simpl; try done.
  - destruct (es' !! p); [done|]. done.
  - destruct (es !! p); [done|]. done.
  - destruct (es !! p), (es' !! p); simpl; congruence.
Qed.

(** ** A card with stable names *)

(** *** Commands that change and report nothing *)

Lemma inert_ret {A} t (a : A) (Q : A → Prop) : Q a → inert t (mret a) Q.
Proof. intros HQ w Hw. by exists a, w. Qed.

Lemma inert_bind {A B} t (m : M A) (k : A → M B) Q Q' :
  inert t m Q → (∀ a, Q a → inert t (k a) Q') → inert t (m ≫= k) Q'.
Proof.
  intros Hm Hk w Hw.
  destruct (Hm w Hw) as (a & w1 & Hrun & Hd1 & Ht1 & Ho1 & HQ).
  destruct (Hk a HQ w1 Hd1) as (b & w2 & Hrun2 & Hd2 & Ht2 & Ho2 & HQ').
  exists b, w2. rewrite (run_bind _ _ _ _ _ Hrun). repeat split; try done.
  - by rewrite Ht2.
  - by rewrite Ho2.
Qed.

Lemma inert_gets {A} t (f : node → A) : inert t (gets f) (λ a, a = f t).
Proof. intros w Hw. exists (f t), w. unfold gets. by rewrite Hw. Qed.

Lemma inert_reads {A} t (f : node → result A) a :
  f t = Ok a → inert t (reads f) (λ a', a' = a).
Proof. intros Hf w Hw. exists a, w. unfold reads. by rewrite Hw, Hf. Qed.

Lemma inert_print t e : is_action e = false → inert t (print e) (λ _, True).
Proof.
  intros He w Hw. eexists (), _. unfold print. repeat split; try done.
  simpl. unfold actions.
  rewrite filter_app, filter_cons_False by (rewrite He; intros []).
  apply app_nil_r.
Qed.

Lemma inert_when_false t b m : b = false → inert t (when_ b m) (λ _, True).
Proof. intros ->. by apply inert_ret. Qed.

Lemma inert_for {A} t (l : list A) body :
  (∀ x, x ∈ l → inert t (body x) (λ _, True)) →
  inert t (for_ l body) (λ _, True).
Proof.
  induction l as [|x l IH]; intros Hbody; simpl.
  - by apply inert_ret.
  - eapply inert_bind; [apply Hbody; by left|]. intros _ _.
    apply IH. intros y Hy. apply Hbody. by right.
Qed.

Lemma inert_foldM {A S} t (I : S → Prop) (body : S → A → M S) l s :
  I s → (∀ s x, x ∈ l → I s → inert t (body s x) I) →
  inert t (foldM body s l) I.
Proof.
  revert s. induction l as [|x l IH]; intros s Hs Hbody; simpl.
  - by apply inert_ret.
  - eapply inert_bind; [apply Hbody; [by left|done]|]. intros s' Hs'.
    apply IH; [done|]. intros s'' y Hy. apply Hbody. by right.
Qed.

Lemma inert_holds {A} t (m : M A) Q : inert t m Q → holds t m Q.
Proof.
  intros Hm w Hw. destruct (Hm w Hw) as (a & w' & Hrun & Hd & Ht & _ & HQ).
  exists a, w'. repeat split; try done. exists []. by rewrite app_nil_r.
Qed.

Ltac inert_gets := eapply inert_bind; [apply inert_gets|intros ? ->].
Ltac inert_print := eapply inert_bind; [by apply inert_print|intros _ _].
Ltac inert_reads H :=
  eapply inert_bind; [apply inert_reads, H|intros ? ->].

Section stable.
Variable dry : bool.
Variable t : node.
Variable platform : string.
Variable es : gmap string node.
Hypothesis Hes : dir_entries [platform] t = Some es.
Hypothesis Hstable : stable_platform platform es.

Lemma inert_rename_comma_roms :
  inert t (rename_comma_roms dry platform) (λ _, True).
Proof.
  unfold rename_comma_roms. inert_reads (iterdir_entries _ _ _ Hes).
  apply inert_for. intros f _. inert_gets. apply inert_when_false.
  rewrite (is_file_entries' _ _ _ _ Hes).
  destruct (file_in es f) eqn:Hf; [|done].
  destruct (has_ext (rom_exts platform) f) eqn:Hext; [|done]. simpl.
  destruct Hstable as (Hcomma & _). apply Hcomma.
  apply elem_of_game_files. by rewrite Hf, Hext.
Qed.

Lemma inert_rename_comma_images :
  inert t (rename_comma_images dry platform) (λ _, True).
Proof.
  unfold rename_comma_images. inert_gets.
  rewrite (images_exists _ _ _ Hes).
  pose proof (images_entries _ _ _ Hes) as Himgs.
  destruct Hstable as (_ & _ & _ & Himages & _).
  destruct (es !! "images") as [[data|imgs]|]; [done| |].
  - rewrite bool_decide_eq_true_2 by (by eexists). cbn [when_].
    inert_reads (iterdir_entries _ _ _ Himgs).
    apply inert_for. intros f _. inert_gets. apply inert_when_false.
    rewrite (is_file_entries' _ _ _ _ Himgs).
    destruct (file_in imgs f) eqn:Hf; [|done]. simpl.
    apply Himages. by rewrite Hf.
  - rewrite bool_decide_eq_false_2 by (by intros [? ?]).
    by apply inert_when_false.
Qed.

Lemma inert_sanitize_platform :
  inert t (sanitize_platform dry platform) (λ _, True).
Proof.
  unfold sanitize_platform. inert_gets.
  rewrite (path_exists_dir _ _ _ Hes). cbn [when_].
  eapply inert_bind; [apply inert_rename_comma_roms|].
  intros _ _. apply inert_rename_comma_images.
Qed.

Lemma inert_mkdir_images :
  inert t (when_ (negb (path_exists (images_of platform) t)
                  && bool_decide (game_files (rom_exts platform) es ≠ []))
             (unless_dry dry (perform (OpMkdir (images_of platform)));;
              print EvMkdirImages)) (λ _, True).
Proof.
  apply inert_when_false. rewrite (images_exists _ _ _ Hes).
  destruct Hstable as (_ & _ & _ & Himages & _).
  destruct (es !! "images") as [[data|imgs]|]; [done| |].
  - by rewrite bool_decide_eq_true_2 by (by eexists).
  - rewrite Himages. by rewrite (bool_decide_eq_false_2 ([] ≠ []))
      by (by intros []); rewrite andb_false_r.
Qed.

Lemma inert_associate_images :
  inert t (associate_images dry platform
             (game_files (rom_exts platform) es)
             (filter (λ f, file_in es f ∧ has_ext IMG_EXTENSIONS f)
                     ((map_to_list es).*1)))
        (λ _, True).
Proof.
  unfold associate_images.
  destruct (_ && _); [|by apply inert_when_false]. cbn [when_].
  eapply inert_bind; [|intros ? _; by apply inert_ret].
  apply (inert_foldM t (λ _, True)); [done|].
  intros used img Himg _. unfold associate_image.
  apply list_elem_of_filter in Himg as [[Hfile Hext] _].
  destruct Hstable as (_ & Hscore & _).
  rewrite best_rom_none by (intros rom Hrom; by apply Hscore).
  inert_print. by apply inert_ret.
Qed.

Lemma inert_prune_duplicates :
  inert t (prune_duplicates dry platform (game_files (rom_exts platform) es))
        (λ _, True).
Proof.
  unfold prune_duplicates.
  destruct (bool_decide _); [|by apply inert_when_false]. cbn [when_].
  apply inert_for. intros rom Hrom. apply inert_when_false.
  destruct Hstable as (_ & _ & Hdup & _). by apply Hdup.
Qed.

End stable.

Lemma prune_orphans_report dry platform w es :
  dir_entries [platform] (disk w) = Some es →
  (∀ data, es !! "images" ≠ Some (File data)) →
  ∃ w', prune_orphans dry platform w = (Ok (), w')
    ∧ out w' = out w ++ orphan_report platform es.
Proof.
  intros Hes Hnofile. unfold orphan_report.
  pose proof (images_entries _ _ _ Hes) as Himgs.
  destruct (es !! "images") as [[data|imgs]|] eqn:Hi;
    [by destruct (Hnofile data)| |].
  2:{ unfold prune_orphans.
      rewrite run_gets, (images_exists _ _ _ Hes), Hi.
      rewrite bool_decide_eq_false_2 by (by intros [? ?]).
      exists w. by rewrite app_nil_r. }
  unfold prune_orphans.
  pose proof (NoDup_fst_map_to_list imgs) as Hnodup.
  set (roms := game_files (rom_exts platform) es).
  rewrite run_gets, (path_exists_dir _ _ _ Himgs), when_true.
  rewrite (run_reads _ _ _ _ (get_roms_entries _ _ _ _ Hes)). fold roms.
  case_bool_decide as Hroms.
  - rewrite (run_reads _ _ _ _ (iterdir_entries _ _ _ Himgs)), run_gets.
    destruct (orphan_count_loop dry (images_of platform)
                (λ f, bool_decide (stem f ∉ stem <$> roms))
                ((map_to_list imgs).*1) w imgs 0 Hnodup Himgs)
      as (w1 & Hrun & _ & Hout1).
    rewrite (run_bind _ _ _ _ _ Hrun). eexists. split; [done|].
    simpl. rewrite Hout1. do 3 f_equal.
    + f_equal. apply list_filter_iff. intros f.
      by rewrite (is_file_entries' _ _ _ _ Himgs).
    + f_equal. apply list_filter_iff. intros f.
      rewrite andb_true_iff, bool_decide_eq_true, Is_true_true. done.
  - rewrite (run_reads _ _ _ _ (iterdir_entries _ _ _ Himgs)).
    assert (filter (λ f, is_file (images_of platform) f (disk w))
                   ((map_to_list imgs).*1)
            = filter (λ f, file_in imgs f) ((map_to_list imgs).*1)) as Hcount.
    { apply list_filter_iff. intros f.
      by rewrite (is_file_entries' _ _ _ _ Himgs). }
    destruct (decide ((map_to_list imgs).*1 = [])) as [Hnone|Hsome].
    { rewrite bool_decide_eq_false_2 by (by intros []).
      rewrite Hnone. simpl. exists w. by rewrite app_nil_r. }
    rewrite bool_decide_eq_true_2 by done. rewrite when_true.
    rewrite (run_reads _ _ _ _ (iterdir_entries _ _ _ Himgs)), run_gets.
    rewrite Hcount. case_bool_decide; simpl.
    2:{ exists w. by rewrite app_nil_r. }
    rewrite run_print. destruct dry.
    { rewrite unless_dry_true. by eexists. }
    rewrite unless_dry_false. set (w0 := World _ _ _).
    rewrite (run_reads _ _ w0 _ (iterdir_entries _ _ _ Himgs)).
    destruct (orphan_clear_loop (images_of platform) ((map_to_list imgs).*1)
                w0 imgs Hnodup Himgs) as (w1 & Hrun & Hout1).
    exists w1. split; [exact Hrun|]. by rewrite Hout1.
Qed.

Lemma generate_csv_report dry platform w es old :
  dir_entries [platform] (disk w) = Some es →
  es !! csv_name = File <$> old →
  ∃ w', generate_csv dry platform w = (Ok (), w')
    ∧ out w' = out w ++ csv_report platform es.
Proof.
  intros Hes Hcsv. unfold generate_csv, csv_report.
  set (roms := game_files (rom_exts platform) es).
  rewrite (run_reads _ _ _ _ (get_roms_entries _ _ _ _ Hes)).
  rewrite (run_reads _ _ _ _ (load_csv_entries _ _ _ _ _ Hes Hcsv)).
  fold roms. case_bool_decide as Hroms.
  - rewrite length_fmap. destruct dry; [by eexists|].
    lazymatch goal with
    | |- context [perform (OpWrite _ _ ?data)] =>
        destruct (run_write [platform] csv_name data w es old Hes Hcsv)
          as (w1 & Hrun & _ & Hout1)
    end.
    rewrite (run_bind _ _ _ _ _ Hrun). eexists. split; [done|].
    simpl. by rewrite Hout1.
  - rewrite run_gets.
    change [platform; csv_name] with ([platform] ++ [csv_name]).
    rewrite (path_exists_entries _ _ _ _ Hes).
    case_bool_decide as Hex; cbn [when_].
    2:{ exists w. by rewrite app_nil_r. }
    destruct dry; [by eexists|].
    destruct (run_write [platform] csv_name "" w es old Hes Hcsv)
      as (w1 & Hrun & _ & Hout1).
    rewrite (run_bind _ _ _ _ _ Hrun). eexists. split; [done|].
    simpl. by rewrite Hout1.
Qed.

(** The entries of the platform directory after the orphan step and
    after the CSV step, in either mode. *)
Lemma prune_orphans_entries dry platform w w' es :
  dir_entries [platform] (disk w) = Some es →
  (∀ data, es !! "images" ≠ Some (File data)) →
  prune_orphans dry platform w = (Ok (), w') →
  ∃ es', dir_entries [platform] (disk w') = Some es'
         ∧ (∀ f, f ≠ "images" → es' !! f = es !! f)
         ∧ ∀ data, es' !! "images" ≠ Some (File data).
Proof.
  intros Hes Hnofile Hrun. destruct dry.
  - destruct (quiet_prune_orphans platform w) as [Hd _].
    rewrite Hrun in Hd. simpl in Hd. exists es. by rewrite Hd.
  - destruct (prune_orphans_ok _ _ _ _ Hes Hrun) as (es' & Hd' & Hsame & Hi).
    exists es'. split; [done|]. split; [done|]. intros data Hfile.
    destruct (es !! "images") as [[data'|imgs]|]; [done|..];
      by rewrite Hfile in Hi.
Qed.

Lemma generate_csv_entries dry platform w w' es :
  dir_entries [platform] (disk w) = Some es →
  (∀ sub, es !! csv_name ≠ Some (Dir sub)) →
  generate_csv dry platform w = (Ok (), w') →
  ∃ es', dir_entries [platform] (disk w') = Some es'
         ∧ (∀ f, f ≠ csv_name → es' !! f = es !! f)
         ∧ ∀ sub, es' !! csv_name ≠ Some (Dir sub).
Proof.
  intros Hes Hnodir Hrun. destruct dry.
  - destruct (quiet_generate_csv platform w) as [Hd _].
    rewrite Hrun in Hd. simpl in Hd. exists es. by rewrite Hd.
  - destruct (generate_csv_ok _ _ _ _ Hes Hrun) as (es' & Hd' & Hsame & Hc).
    exists es'. split; [done|]. split; [done|]. intros sub Hdir.
    by rewrite Hdir in Hc.
Qed.

Lemma actions_orphan_report platform es :
  actions (orphan_report platform es) = orphan_report platform es.
Proof.
  unfold orphan_report. destruct (es !! "images") as [[data|imgs]|]; try done.
  repeat case_bool_decide; done.
Qed.

Lemma actions_csv_report platform es :
  actions (csv_report platform es) = csv_report platform es.
Proof. unfold csv_report. repeat case_bool_decide; done. Qed.

Lemma rom_not_metadata platform f :
  has_ext (rom_exts platform) f → f ≠ "images" ∧ f ≠ csv_name.
Proof.
  intros Hf. split; intros ->.
  - by rewrite images_not_rom in Hf.
  - by rewrite csv_not_rom in Hf.
Qed.

(** The reports of a platform whose names are stable, in either mode,
    and the directory it is left with: the same GameFiles, no regular file
    at images/, no directory at filelist.csv. *)
Lemma sync_platform_report dry platform w es :
  dir_entries [platform] (disk w) = Some es →
  stable_platform platform es →
  ∃ w' es',
    sync_platform dry platform w = (Ok (), w')
    ∧ actions (out w')
      = actions (out w) ++ orphan_report platform es ++ csv_report platform es
    ∧ dir_entries [platform] (disk w') = Some es'
    ∧ (∀ f, has_ext (rom_exts platform) f → file_in es' f = file_in es f)
    ∧ (∀ data, es' !! "images" ≠ Some (File data))
    ∧ (∀ sub, es' !! csv_name ≠ Some (Dir sub)).
Proof.
  intros Hes Hstable. unfold sync_platform.
  rewrite run_gets, (path_exists_dir _ _ _ Hes). cbn [when_].
  rewrite (run_reads _ _ _ _ (get_roms_entries _ _ _ _ Hes)).
  rewrite (run_reads _ _ _ _ (get_images_entries _ _ _ Hes)).
  rewrite run_print. set (w0 := World _ _ _). rewrite run_gets.
  assert (actions (out w0) = actions (out w)) as Hout0.
  { unfold w0. simpl. rewrite actions_app. apply app_nil_r. }
  destruct (inert_mkdir_images dry (disk w0) platform es Hes Hstable w0 eq_refl)
    as ([] & w1 & Hrun1 & Hd1 & _ & Hout1 & _).
  rewrite (run_bind _ _ _ _ _ Hrun1).
  destruct (inert_associate_images dry (disk w0) platform es Hstable w1 Hd1)
    as ([] & w2 & Hrun2 & Hd2 & _ & Hout2 & _).
  rewrite (run_bind _ _ _ _ _ Hrun2).
  destruct (inert_prune_duplicates dry (disk w0) platform es Hstable w2 Hd2)
    as ([] & w3 & Hrun3 & Hd3 & _ & Hout3 & _).
  rewrite (run_bind _ _ _ _ _ Hrun3).
  assert (dir_entries [platform] (disk w3) = Some es) as Hes3
    by (by rewrite Hd3).
  destruct Hstable as (_ & _ & _ & Himages & Hcsv).
  assert (∀ data, es !! "images" ≠ Some (File data)) as Hnofile.
  { intros data Hi. by rewrite Hi in Himages. }
  destruct (prune_orphans_report dry platform w3 es Hes3 Hnofile)
    as (w4 & Hrun4 & Hout4).
  rewrite (run_bind _ _ _ _ _ Hrun4).
  destruct (prune_orphans_entries _ _ _ _ _ Hes3 Hnofile Hrun4)
    as (es4 & Hes4 & Hsame4 & Hnofile4).
  assert (∀ f, has_ext (rom_exts platform) f → file_in es4 f = file_in es f)
    as Hrom4.
  { intros f [Hf _]%rom_not_metadata. unfold file_in. by rewrite Hsame4. }
  assert (es4 !! csv_name = es !! csv_name) as Hcsv4 by (by apply Hsame4).
  assert (∀ sub, es4 !! csv_name ≠ Some (Dir sub)) as Hnodir4.
  { intros sub. rewrite Hcsv4. apply Hcsv. }
  assert (∃ old, es4 !! csv_name = File <$> old) as [old Hold].
  { destruct (es4 !! csv_name) as [[data|sub]|] eqn:Hc.
    - by exists (Some data).
    - by destruct (Hnodir4 sub).
    - by exists None. }
  destruct (generate_csv_report dry platform w4 es4 old Hes4 Hold)
    as (w5 & Hrun5 & Hout5).
  destruct (generate_csv_entries _ _ _ _ _ Hes4 Hnodir4 Hrun5)
    as (es5 & Hes5 & Hsame5 & Hnodir5).
  exists w5, es5. split; [done|]. split; [|split; [done|split; [|split]]].
  - rewrite Hout5, Hout4, !actions_app, Hout3, Hout2, Hout1, Hout0.
    rewrite actions_orphan_report, actions_csv_report, <- app_assoc.
    do 2 f_equal. unfold csv_report.
    by rewrite (game_files_ext _ _ _ Hrom4), Hcsv4.
  - intros f Hf. rewrite <- Hrom4 by done.
    apply rom_not_metadata in Hf as [_ Hf]. unfold file_in.
    by rewrite Hsame5.
  - intros data. rewrite Hsame5 by done. apply Hnofile4.
  - done.
Qed.

Lemma elem_of_game_keys t key : key ∈ game_keys t ↔ is_game_key t key.
Proof.
  unfold game_keys, is_game_key. rewrite elem_of_list_to_set, list_elem_of_fmap.
  split.
  - intros ([p r] & -> & [Hp Hr]%elem_of_catalog_entries). by exists p, r.
  - intros (p & r & Hp & Hr & ->). exists (p, r). split; [done|].
    by apply elem_of_catalog_entries.
Qed.

Lemma confined_write d n data : confined d n (perform (OpWrite d n data)).
Proof.
  intros w f Hf. unfold perform. simpl.
  destruct (write_text d n data (disk w)) as [t'|e] eqn:Hw; [|done]. simpl.
  apply write_text_ok in Hw as (es & Hd & _ & ->).
  rewrite !lookup_path_snoc, dir_entries_alter_in, Hd. simpl.
  by rewrite lookup_insert_ne.
Qed.

Lemma confined_allfiles dry :
  confined ["cubegm"] "allfiles.lst" (sync_allfiles dry).
Proof.
  unfold sync_allfiles, catalog_lines.
  repeat first [apply confined_write | confined_step].
Qed.

Lemma confined_clean_list dry valid_roms lst_name :
  confined ["cubegm"] lst_name (clean_list dry valid_roms lst_name).
Proof.
  unfold clean_list. repeat first [apply confined_write | confined_step].
Qed.

Lemma sync_allfiles_report dry w :
  platform_dirs_ok (disk w) →
  (∀ sub, lookup_path ["cubegm"; "allfiles.lst"] (disk w) ≠ Some (Dir sub)) →
  ∃ w', sync_allfiles dry w = (Ok (), w')
    ∧ out w' = out w ++ allfiles_report (disk w).
Proof.
  intros Hok Hnodir. unfold sync_allfiles, allfiles_report.
  rewrite run_gets. unfold path_exists at 1.
  change (cubegm ++ ["allfiles.lst"]) with ["cubegm"; "allfiles.lst"].
  destruct (lookup_path ["cubegm"; "allfiles.lst"] (disk w))
    as [[content|sub]|] eqn:Hfile; [|by destruct (Hnodir sub)|].
  2:{ rewrite bool_decide_eq_false_2 by (by intros [? ?]).
      exists w. by rewrite app_nil_r. }
  rewrite bool_decide_eq_true_2 by (by eexists). rewrite when_true.
  destruct (lookup_file_entries cubegm "allfiles.lst" _ _ Hfile)
    as (es & Hes & Hn).
  rewrite (run_reads _ _ _ _ (read_text_entries _ _ _ _ _ Hes Hn)).
  unfold catalog_lines.
  erewrite run_bind; last first.
  { apply (run_platform_scan
             (λ new_lines platform roms,
                new_lines ++ (catalog_line (parse_allfiles content) platform
                                <$> roms))).
    intros ???. by apply platform_dirs_ok_lookup. }
  destruct (catalog_scan_entries (parse_allfiles content) (disk w) platforms [])
    as (lines & -> & Hlines). rewrite app_nil_l.
  apply Forall2_length in Hlines. fold (catalog_entries (disk w)) in Hlines.
  rewrite Hlines. destruct dry; [by eexists|].
  destruct (run_write cubegm "allfiles.lst" (Py.join nl lines +:+ nl)
              w es (Some content) Hes Hn) as (w1 & Hrun & _ & Hout1).
  rewrite (run_bind _ _ _ _ _ Hrun). eexists. split; [done|].
  simpl. by rewrite Hout1.
Qed.

Lemma clean_list_report dry valid_roms lst_name w :
  (∀ sub, lookup_path ["cubegm"; lst_name] (disk w) ≠ Some (Dir sub)) →
  ∃ w', clean_list dry valid_roms lst_name w = (Ok (), w')
    ∧ out w' = out w ++ list_report valid_roms (disk w) lst_name.
Proof.
  intros Hnodir. unfold clean_list, list_report.
  rewrite run_gets. unfold path_exists at 1.
  change (cubegm ++ [lst_name]) with ["cubegm"; lst_name].
  destruct (lookup_path ["cubegm"; lst_name] (disk w))
    as [[content|sub]|] eqn:Hfile; [|by destruct (Hnodir sub)|].
  2:{ rewrite bool_decide_eq_false_2 by (by intros [? ?]).
      exists w. by rewrite app_nil_r. }
  rewrite bool_decide_eq_true_2 by (by eexists). rewrite when_true.
  destruct (lookup_file_entries cubegm lst_name _ _ Hfile) as (es & Hes & Hn).
  rewrite (run_reads _ _ _ _ (read_text_entries _ _ _ _ _ Hes Hn)).
  rewrite filter_list_spec.
  destruct dry; [by eexists|].
  lazymatch goal with
  | |- context [perform (OpWrite _ _ ?data)] =>
      destruct (run_write cubegm lst_name data w es (Some content) Hes Hn)
        as (w1 & Hrun & _ & Hout1)
  end.
  rewrite (run_bind _ _ _ _ _ Hrun). eexists. split; [done|].
  simpl. by rewrite Hout1.
Qed.

Lemma root_readable p t t' :
  lookup_path [p] t' = lookup_path [p] t → readable t' p ↔ readable t p.
Proof.
  intros H. unfold readable.
  by rewrite (root_is_file _ _ _ H), (root_dir_entries _ _ _ H).
Qed.

Lemma root_game_files p t t' :
  lookup_path [p] t' = lookup_path [p] t →
  game_files_of t' p = game_files_of t p.
Proof. intros H. unfold game_files_of. by rewrite (root_dir_entries _ _ _ H). Qed.

Section stable_run.

Variable dry : bool.
Variable t : node.
Hypothesis Hstable : stable_card t.

Lemma platform_missing p :
  p ∈ platforms → dir_entries [p] t = None → path_exists [p] t = false.
Proof.
  intros Hp Hd. destruct Hstable as (Hok & _).
  destruct (platform_lookup t p) as [[Hex _]|[es Hes]]; [|done|].
  - intros data. by apply platform_dirs_ok_lookup.
  - by rewrite Hes in Hd.
Qed.

Lemma stable_readable p : p ∈ platforms → readable t p.
Proof.
  intros Hp. destruct Hstable as (Hok & Hplat & _). split.
  - unfold platform_dirs_ok in Hok. rewrite Forall_forall in Hok.
    by apply Hok.
  - intros es Hes. destruct (Hplat p es Hp Hes) as (_ & _ & _ & Hi & Hc).
    split; [|done]. intros data Hfile. by rewrite Hfile in Hi.
Qed.

Lemma inert_sanitize_all :
  inert t (for_ platforms (sanitize_platform dry)) (λ _, True).
Proof.
  apply inert_for. intros p Hp.
  destruct (dir_entries [p] t) as [es|] eqn:Hd.
  - apply (inert_sanitize_platform dry t p es Hd).
    destruct Hstable as (_ & Hplat & _). by apply Hplat.
  - unfold sanitize_platform. inert_gets.
    apply inert_when_false. by apply platform_missing.
Qed.

(** Step 2 over all platforms: the reports, the platforms not reached
    yet, and the GameFiles of those done. *)
Lemma sync_all_report w :
  disk w = t →
  ∃ w', for_ platforms (sync_platform dry) w = (Ok (), w')
    ∧ actions (out w') = actions (out w) ++ (platforms ≫= platform_report t)
    ∧ lookup_path ["cubegm"] (disk w') = lookup_path ["cubegm"] t
    ∧ ∀ p, p ∈ platforms →
        readable (disk w') p
        ∧ game_files_of (disk w') p = game_files_of t p.
Proof.
  intros Hw.
  destruct (for_inv (λ done w',
              actions (out w') = actions (out w) ++ (done ≫= platform_report t)
              ∧ (∀ p, p ∉ done → lookup_path [p] (disk w') = lookup_path [p] t)
              ∧ (∀ p, p ∈ done →
                   readable (disk w') p
                   ∧ game_files_of (disk w') p = game_files_of t p))
              (sync_platform dry) platforms w)
    as (w' & Hrun & Hout & Hrest & Hdone).
  { split; [by rewrite app_nil_r|]. split; [by intros p _; rewrite Hw|].
    by intros p Hp%elem_of_nil. }
  2:{ exists w'. split; [done|]. split; [done|]. split; [|done].
      apply Hrest. intros Hin. by apply (cubegm_not_platform "cubegm"). }
  intros done x rest w1 Hl (Hout1 & Hrest1 & Hdone1).
  pose proof (prefix_fresh _ _ _ _ platforms_NoDup Hl) as Hx.
  assert (x ∈ platforms) as Hin.
  { rewrite Hl. apply elem_of_app. right. by left. }
  pose proof (root_dir_entries _ _ _ (Hrest1 x Hx)) as Hdx.
  assert (∃ w2, sync_platform dry x w1 = (Ok (), w2)
            ∧ actions (out w2) = actions (out w1) ++ platform_report t x
            ∧ readable (disk w2) x
            ∧ game_files_of (disk w2) x = game_files_of t x)
    as (w2 & Hrun2 & Hout2 & Hfile2 & Hgames2).
  { unfold platform_report, game_files_of.
    destruct (dir_entries [x] t) as [es|] eqn:Hes.
    - destruct Hstable as (_ & Hplat & _).
      destruct (sync_platform_report dry x w1 es Hdx (Hplat x es Hin Hes))
        as (w2 & es2 & Hrun2 & Hout2 & Hes2 & Hsame2 & Hi2 & Hc2).
      exists w2. split; [done|]. split; [by rewrite Hout2, app_assoc|].
      unfold readable. rewrite Hes2. split; [|by apply game_files_ext].
      split; [|by intros ? [= <-]].
      unfold is_file. simpl app. unfold dir_entries in Hes2.
      by destruct (lookup_path [x] (disk w2)) as [[?|?]|].
    - exists w1. unfold sync_platform. rewrite run_gets.
      assert (path_exists [x] (disk w1) = false) as ->.
      { unfold path_exists. rewrite (Hrest1 x Hx).
        by apply platform_missing. }
      split; [done|]. split; [by rewrite app_nil_r|].
      rewrite Hdx. split; [|done].
      apply (root_readable _ _ _ (Hrest1 x Hx)). by apply stable_readable. }
  exists w2. split; [done|].
  assert (∀ p, p ≠ x → lookup_path [p] (disk w2) = lookup_path [p] (disk w1))
    as Hframe.
  { intros p Hp.
    by apply (confined_root _ _ _ _ _ _ (confined_sync_platform dry x) Hrun2). }
  split; [|split].
  - rewrite Hout2, Hout1, <- app_assoc. f_equal.
    rewrite bind_app. simpl. by rewrite app_nil_r.
  - intros p Hp. rewrite elem_of_app, list_elem_of_singleton in Hp.
    rewrite Hframe by tauto. apply Hrest1. tauto.
  - intros p [Hp|Hp%list_elem_of_singleton]%elem_of_app; [|by subst p].
    assert (p ≠ x) as Hne by (by intros ->).
    rewrite (root_readable _ _ _ (Hframe p Hne)).
    rewrite (root_game_files _ _ _ (Hframe p Hne)). by apply Hdone1.
Qed.

End stable_run.

Lemma summary_platform_returns p w :
  readable (disk w) p → ∃ w', summary_platform p w = (Ok (), w').
Proof.
  intros [Hfile Hread]. unfold summary_platform. rewrite run_gets.
  destruct (platform_lookup (disk w) p) as [[Hex _]|[es Hes]].
  { intros data Hp. unfold is_file in Hfile. simpl app in Hfile.
    by rewrite Hp in Hfile. }
  { rewrite Hex. by eexists. }
  rewrite (path_exists_dir _ _ _ Hes). cbn [when_].
  rewrite (run_reads _ _ _ _ (get_roms_entries _ _ _ _ Hes)).
  rewrite run_gets, (images_exists _ _ _ Hes).
  destruct (Hread es Hes) as [Hi Hc].
  pose proof (images_entries _ _ _ Hes) as Himgs.
  assert (∃ n w1,
            (if bool_decide (is_Some (es !! "images")) then
               names ← reads (iterdir (images_of p));
               gets (λ t, length (filter (λ f, is_file (images_of p) f t)
                                         names))
             else mret 0) w = (Ok n, w1) ∧ disk w1 = disk w)
    as (n & w1 & Hrun1 & Hd1).
  { destruct (es !! "images") as [[data|imgs]|].
    - by destruct (Hi data).
    - rewrite bool_decide_eq_true_2 by (by eexists).
      rewrite (run_reads _ _ _ _ (iterdir_entries _ _ _ Himgs)).
      by eexists _, w.
    - rewrite bool_decide_eq_false_2 by (by intros [? ?]). by eexists _, w. }
  rewrite (run_bind _ _ _ _ _ Hrun1). rewrite run_gets, Hd1.
  change [p; csv_name] with ([p] ++ [csv_name]).
  rewrite (path_exists_entries _ _ _ _ Hes).
  destruct (es !! csv_name) as [[data|sub]|] eqn:Hcsv.
  - rewrite bool_decide_eq_true_2 by (by eexists).
    rewrite <- Hd1 in Hes. rewrite run_assoc.
    rewrite (run_reads _ _ _ _ (read_text_entries _ _ _ _ _ Hes Hcsv)).
    by eexists.
  - by destruct (Hc sub).
  - rewrite bool_decide_eq_false_2 by (by intros [? ?]). by eexists.
Qed.

Lemma summary_returns w :
  (∀ p, p ∈ platforms → readable (disk w) p) →
  ∃ w', summary w = (Ok (), w').
Proof.
  intros Hread. unfold summary.
  destruct (for_inv (λ _ w', disk w' = disk w) summary_platform platforms w)
    as (w' & Hrun & _); [done| |by exists w'].
  intros done x rest w1 Hl Hd1.
  destruct (summary_platform_returns x w1) as (w2 & Hrun2).
  { rewrite Hd1. apply Hread. rewrite Hl. apply elem_of_app. right. by left. }
  exists w2. split; [done|].
  destruct (quiet_summary_platform x w1) as [Hd _].
  rewrite Hrun2 in Hd. simpl in Hd. by rewrite Hd.
Qed.

Lemma catalog_entries_ext t t' :
  (∀ p, p ∈ platforms → game_files_of t' p = game_files_of t p) →
  catalog_entries t' = catalog_entries t.
Proof.
  unfold catalog_entries. generalize platforms.
  induction l as [|p l IH]; intros Hsame; [done|].
  rewrite !bind_cons, Hsame by left. f_equal. apply IH. intros q Hq.
  apply Hsame. by right.
Qed.

Lemma game_keys_ext t t' :
  (∀ p, p ∈ platforms → game_files_of t' p = game_files_of t p) →
  game_keys t' = game_keys t.
Proof. intros H. unfold game_keys. by rewrite (catalog_entries_ext _ _ H). Qed.

Lemma actions_allfiles_report t :
  actions (allfiles_report t) = allfiles_report t.
Proof.
  unfold allfiles_report.
  by destruct (lookup_path _ t) as [[content|sub]|].
Qed.

Lemma actions_list_report valid_roms t lst_name :
  actions (list_report valid_roms t lst_name)
  = list_report valid_roms t lst_name.
Proof.
  unfold list_report.
  by destruct (lookup_path _ t) as [[content|sub]|].
Qed.

Lemma confined_lookup {A} d n (m : M A) w r w' f :
  confined d n m → m w = (r, w') → f ≠ n →
  lookup_path (d ++ [f]) (disk w') = lookup_path (d ++ [f]) (disk w).
Proof. intros Hm Hrun Hf. specialize (Hm w f Hf). by rewrite Hrun in Hm. Qed.

(** On a card whose names are stable a run returns, in either mode,
    and reports the actions of [run_report]. *)
Lemma stable_run_report dry t :
  stable_card t →
  (run dry t).1 = Ok () ∧ actions (out (run dry t).2) = run_report t.
Proof.
  intros Hstable. pose proof Hstable as (Hok & Hplat & Hmeta).
  unfold run, sync_sd_card, reconcile.
  destruct (inert_sanitize_all dry t Hstable (World t [] []) eq_refl)
    as ([] & w1 & Hrun1 & Hd1 & _ & Hout1 & _).
  rewrite (run_assoc _ _ _ _), (run_bind _ _ _ _ _ Hrun1).
  destruct (sync_all_report dry t Hstable w1 Hd1)
    as (w2 & Hrun2 & Hout2 & Hcube2 & Hplat2).
  rewrite (run_assoc _ _ _ _), (run_bind _ _ _ _ _ Hrun2).
  assert (∀ w : world,
            (∀ p, p ∈ platforms → readable (disk w) p) →
            platform_dirs_ok (disk w)) as Hdirs.
  { intros w Hread. apply Forall_forall. intros p Hp. by apply Hread. }
  assert (∀ n, lookup_path ["cubegm"; n] (disk w2)
               = lookup_path ["cubegm"; n] t) as Hmeta2.
  { intros n. by apply lookup_root_cong. }
  assert ("allfiles.lst" ∈ ["allfiles.lst"; "favorites.lst"; "recent.lst"])
    as Hall by (by left).
  assert ("favorites.lst" ∈ ["allfiles.lst"; "favorites.lst"; "recent.lst"])
    as Hfav by (right; by left).
  assert ("recent.lst" ∈ ["allfiles.lst"; "favorites.lst"; "recent.lst"])
    as Hrecent by (do 2 right; by left).
  destruct (sync_allfiles_report dry w2) as (w3 & Hrun3 & Hout3).
  { apply Hdirs. intros p Hp. by apply Hplat2. }
  { intros sub. rewrite Hmeta2. by apply Hmeta. }
  rewrite (run_assoc _ _ _ _), (run_bind _ _ _ _ _ Hrun3).
  assert (∀ p, p ∈ platforms →
            lookup_path [p] (disk w3) = lookup_path [p] (disk w2)) as Hframe3.
  { intros p Hp.
    apply (confined_root _ _ _ _ _ _ (confined_sync_allfiles dry) Hrun3).
    by apply cubegm_not_platform. }
  assert (∀ p, p ∈ platforms →
            readable (disk w3) p
            ∧ game_files_of (disk w3) p = game_files_of t p) as Hplat3.
  { intros p Hp. rewrite (root_readable _ _ _ (Hframe3 p Hp)).
    rewrite (root_game_files _ _ _ (Hframe3 p Hp)). by apply Hplat2. }
  assert (∀ n, n ≠ "allfiles.lst" →
            lookup_path ["cubegm"; n] (disk w3)
            = lookup_path ["cubegm"; n] t) as Hmeta3.
  { intros n Hn.
    pose proof (confined_lookup ["cubegm"] _ _ _ _ _ n
                  (confined_allfiles dry) Hrun3 Hn) as Hc.
    change (["cubegm"] ++ [n]) with ["cubegm"; n] in Hc.
    by rewrite Hc. }
  unfold clean_lists.
  destruct (run_valid_rom_keys w3) as (valid_roms & Hrun4 & Hvalid).
  { apply Hdirs. intros p Hp. by apply Hplat3. }
  assert (valid_roms = game_keys t) as ->.
  { apply set_eq. intros key.
    rewrite Hvalid, <- elem_of_game_keys.
    rewrite (game_keys_ext t (disk w3)); [done|].
    intros p Hp. by apply Hplat3. }
  rewrite (run_assoc _ _ _ _), (run_bind _ _ _ _ _ Hrun4). cbn [for_].
  destruct (clean_list_report dry (game_keys t) "favorites.lst" w3)
    as (w4 & Hrun5 & Hout5).
  { intros sub. rewrite Hmeta3 by done. by apply Hmeta. }
  rewrite (run_assoc _ _ _ _), (run_bind _ _ _ _ _ Hrun5).
  assert (lookup_path ["cubegm"; "recent.lst"] (disk w4)
          = lookup_path ["cubegm"; "recent.lst"] t) as Hrec.
  { pose proof (confined_lookup ["cubegm"] _ _ _ _ _ "recent.lst"
                  (confined_clean_list dry (game_keys t) "favorites.lst")
                  Hrun5 ltac:(done)) as Hc.
    change (["cubegm"] ++ ["recent.lst"]) with ["cubegm"; "recent.lst"] in Hc.
    rewrite Hc. by apply Hmeta3. }
  destruct (clean_list_report dry (game_keys t) "recent.lst" w4)
    as (w5 & Hrun6 & Hout6).
  { intros sub. rewrite Hrec. by apply Hmeta. }
  rewrite (run_assoc _ _ _ _), (run_bind _ _ _ _ _ Hrun6).
  rewrite run_ret.
  assert (∀ p, p ∈ platforms →
            lookup_path [p] (disk w5) = lookup_path [p] (disk w3)) as Hframe5.
  { intros p Hp. pose proof (cubegm_not_platform p Hp) as Hne.
    pose proof (confined_clean_lists dry) as H3.
    assert (clean_lists dry w3 = (Ok (), w5)) as Hrun.
    { unfold clean_lists. rewrite (run_bind _ _ _ _ _ Hrun4). cbn [for_].
      rewrite (run_bind _ _ _ _ _ Hrun5), (run_bind _ _ _ _ _ Hrun6). done. }
    by apply (confined_root _ _ _ _ _ _ H3 Hrun). }
  destruct (summary_returns w5) as (w6 & Hrun7).
  { intros p Hp. rewrite (root_readable _ _ _ (Hframe5 p Hp)).
    by apply Hplat3. }
  rewrite Hrun7. split; [done|]. simpl.
  pose proof (mute_summary w5) as Hsilent. rewrite Hrun7 in Hsilent.
  change (actions (out w6) = actions (out w5)) in Hsilent.
  rewrite Hsilent, Hout6, Hout5, Hout3.
  rewrite !actions_app, Hout2, Hout1.
  change (actions (out (World t [] []))) with ([] : list event).
  rewrite app_nil_l, actions_allfiles_report, !actions_list_report.
  unfold run_report. rewrite <- !app_assoc. f_equal. f_equal; [|f_equal].
  - unfold allfiles_report. rewrite Hmeta2.
    rewrite (catalog_entries_ext t (disk w2)); [done|].
    intros p Hp. by apply Hplat2.
  - unfold list_report. by rewrite Hmeta3.
  - unfold list_report. by rewrite Hrec.
Qed.

(** X11. On a card where a run has nothing to rename, create, move or
    de-duplicate (no GameFile and no file of images/ with a comma, no image
    at a platform root that matches a GameFile, no duplicate of a .zip,
    images/ present where a GameFile is, no regular file in place of a
    platform or of images/, no directory in place of a metadata file) the
    two modes return and report the same actions, in the same order: for
    each platform the count of orphan images and the count of CSV entries,
    then the catalog and the two lists. *)
Theorem stable_card_parity (t : node) :
  stable_card t →
  (run true t).1 = Ok () ∧ (run false t).1 = Ok ()
  ∧ actions (out (run true t).2) = actions (out (run false t).2)
  ∧ actions (out (run false t).2) = run_report t.
Proof.
  intros Hstable.
  destruct (stable_run_report true t Hstable) as [Hdry Hdry_out].
  destruct (stable_run_report false t Hstable) as [Hexec Hexec_out].
  split; [exact Hdry|]. split; [exact Hexec|]. split; [|exact Hexec_out].
  rewrite Hdry_out. symmetry. exact Hexec_out.
Qed.

Lemma orphan_gb_stable : stable_platform "GB" orphan_gb.
Proof.
  unfold stable_platform.
  assert (game_files (rom_exts "GB") orphan_gb = ["mario.zip"]) as ->
    by (by vm_compute).
  split; [|split; [|split; [|split]]].
  - intros rom ->%list_elem_of_singleton. by vm_compute.
  - intros img rom Hf Hext ->%list_elem_of_singleton. revert Hext.
    apply Is_true_true, file_in_spec in Hf as [data Hf].
    apply elem_of_list_to_map_2 in Hf.
    repeat (apply elem_of_cons in Hf as [Heq|Hf];
            [simplify_eq; by vm_compute|]).
    by apply elem_of_nil in Hf.
  - intros rom ->%list_elem_of_singleton. by vm_compute.
  - change (orphan_gb !! "images") with (Some (Dir orphan_images)).
    intros f Hf.
    apply Is_true_true, file_in_spec in Hf as [data Hf].
    apply elem_of_list_to_map_2 in Hf.
    repeat (apply elem_of_cons in Hf as [Heq|Hf];
            [simplify_eq; by vm_compute|]).
    by apply elem_of_nil in Hf.
  - intros sub. by vm_compute.
Qed.

Lemma orphan_card_stable : stable_card orphan_card.
Proof.
  split; [|split].
  - unfold platform_dirs_ok. apply (bool_decide_unpack _). by vm_compute.
  - intros platform es Hin Hd. rewrite platforms_list in Hin.
    repeat (apply elem_of_cons in Hin as [->|Hin]);
      try (by vm_compute in Hd); try (by apply elem_of_nil in Hin).
    change (dir_entries ["GB"] orphan_card) with (Some orphan_gb) in Hd.
    injection Hd as <-. apply orphan_gb_stable.
  - intros lst_name sub Hin.
    repeat (apply elem_of_cons in Hin as [->|Hin]); try by vm_compute.
Qed.

Lemma stable_card_parity_witness :
  (run true orphan_card).1 = Ok () ∧ (run false orphan_card).1 = Ok ()
  ∧ actions (out (run true orphan_card).2)
    = actions (out (run false orphan_card).2)
  ∧ actions (out (run false orphan_card).2) = run_report orphan_card.
Proof. exact (stable_card_parity orphan_card orphan_card_stable). Defined.

(** ** What a run leaves alone *)

Lemma keeps_ret {A} I (a : A) : keeps I (mret a : M A).
Proof. by intros w. Qed.

Lemma keeps_bind {A B} I (m : M A) (k : A → M B) :
  keeps I m → (∀ a, keeps I (k a)) → keeps I (m ≫= k).
Proof.
  intros Hm Hk w Hw. unfold mbind, M_bind. specialize (Hm w Hw).
  destruct (m w) as [[a|e] w1]; [|done]. by apply Hk.
Qed.

Lemma keeps_gets {A} I (f : node → A) : keeps I (gets f).
Proof. by intros w. Qed.

Lemma keeps_reads {A} I (f : node → result A) : keeps I (reads f).
Proof. by intros w. Qed.

(** The value of a read is one that the read function returns. *)
Lemma keeps_reads_bind {A B} I (f : node → result A) (k : A → M B) :
  (∀ a, (∃ t, f t = Ok a) → keeps I (k a)) → keeps I (reads f ≫= k).
Proof.
  intros Hk w Hw. unfold mbind, M_bind, reads.
  destruct (f (disk w)) as [a|e] eqn:Hf; [|done].
  apply Hk; [by exists (disk w)|done].
Qed.

Lemma keeps_print I e : keeps I (print e).
Proof. by intros w. Qed.

Lemma keeps_perform I o :
  (∀ t t', I t → apply_op o t = Ok t' → I t') → keeps I (perform o).
Proof.
  intros Ho w Hw. unfold perform.
  destruct (apply_op o (disk w)) as [t'|e] eqn:Hop; [|done].
  by apply (Ho (disk w)).
Qed.

Lemma keeps_try I m h :
  keeps I m → (∀ e, keeps I (h e)) → keeps I (try_except m h).
Proof.
  intros Hm Hh w Hw. unfold try_except. specialize (Hm w Hw).
  destruct (m w) as [[a|e] w1]; [done|]. by apply Hh.
Qed.

Lemma keeps_when I (b : bool) m : (b → keeps I m) → keeps I (when_ b m).
Proof. destruct b; [auto|intros _; apply keeps_ret]. Qed.

Lemma keeps_for {A} I (l : list A) body :
  (∀ x, x ∈ l → keeps I (body x)) → keeps I (for_ l body).
Proof.
  induction l as [|x l IH]; intros Hbody; [apply keeps_ret|].
  apply keeps_bind; [apply Hbody; by left|]. intros _.
  apply IH. intros y Hy. apply Hbody. by right.
Qed.

Lemma keeps_foldM {A S} I (body : S → A → M S) s (l : list A) :
  (∀ s x, x ∈ l → keeps I (body s x)) → keeps I (foldM body s l).
Proof.
  revert s. induction l as [|x l IH]; intros s Hbody; [apply keeps_ret|].
  apply keeps_bind; [apply Hbody; by left|]. intros s'.
  apply IH. intros s'' y Hy. apply Hbody. by right.
Qed.

Lemma quiet_keeps {A} I (m : M A) : quiet m → keeps I m.
Proof. intros Hm w Hw. by destruct (Hm w) as [-> _]. Qed.

(** What a command confined to another entry of the root does not
    reach. *)
Lemma confined_keeps {A} (I : node → Prop) n q (m : M A) :
  (∀ t t', lookup_path [n] t' = lookup_path [n] t → I t → I t') →
  confined [] q m → q ≠ n → keeps I m.
Proof.
  intros HI Hm Hq w Hw. apply (HI (disk w)); [|done].
  apply (Hm w n). by intros ->.
Qed.

(** The steps of a run, one by one. *)
Lemma keeps_run I dry t :
  (∀ q, q ∈ platforms → keeps I (sanitize_platform dry q)) →
  (∀ q, q ∈ platforms → keeps I (sync_platform dry q)) →
  keeps I (sync_allfiles dry) → keeps I (clean_lists dry) →
  I t → I (disk (run dry t).2).
Proof.
  intros H1 H2 H3 H4 Ht.
  assert (keeps I (sync_sd_card dry)) as Hrun.
  { unfold sync_sd_card, reconcile.
    apply keeps_bind; [|intros _; apply quiet_keeps, quiet_summary].
    apply keeps_bind; [by apply keeps_for|intros _].
    apply keeps_bind; [by apply keeps_for|intros _].
    by apply keeps_bind. }
  by apply (Hrun (World t [] [])).
Qed.

(** X12. A run, in either mode and whether it returns or raises, leaves
    alone every entry of the root of the card that is neither a platform
    directory nor cubegm, with all that is below it. *)
Theorem run_leaves_other_entries (dry : bool) (t : node) (n : string)
    (below : path) :
  n ∉ platforms → n ≠ "cubegm" →
  lookup_path (n :: below) (disk (run dry t).2) = lookup_path (n :: below) t.
Proof.
  intros Hn Hcube. apply lookup_root_cong.
  apply (keeps_run (λ t', lookup_path [n] t' = lookup_path [n] t));
    [..|done].
  - intros q Hq.
    apply (confined_keeps _ n q); [congruence|apply confined_sanitize_platform|].
    by intros ->.
  - intros q Hq.
    apply (confined_keeps _ n q); [congruence|apply confined_sync_platform|].
    by intros ->.
  - by apply (confined_keeps _ n "cubegm");
      [congruence|apply confined_sync_allfiles|].
  - by apply (confined_keeps _ n "cubegm");
      [congruence|apply confined_clean_lists|].
Qed.

Lemma run_leaves_other_entries_witness :
  lookup_path ["saves"; "slot1"] (disk (run false keepsake_card).2)
  = lookup_path ["saves"; "slot1"] keepsake_card.
Proof.
  apply run_leaves_other_entries; [|done].
  rewrite platforms_list. apply (bool_decide_unpack _). by vm_compute.
Defined.

(** *** Files of a platform directory *)

Lemma lookup_child p g t es :
  dir_entries [p] t = Some es → lookup_path [p; g] t = es !! g.
Proof.
  intros Hd. change [p; g] with ([p] ++ [g]).
  by rewrite lookup_path_snoc, Hd.
Qed.

Lemma lookup_child_alter p g h t es :
  dir_entries [p] t = Some es →
  lookup_path [p; g] (alter_in [p] h t) = h es !! g.
Proof.
  intros Hd. change [p; g] with ([p] ++ [g]).
  by rewrite lookup_path_snoc, dir_entries_alter_in, Hd.
Qed.

Section keeps_file.

Variables p f data : string.
Hypothesis f_comma : Py.has_char "," f = false.
Hypothesis f_image : has_ext IMG_EXTENSIONS f = false.
Hypothesis f_rom : has_ext (rom_exts p) f = false ∨ suffix f = ".zip".
Hypothesis f_csv : f ≠ csv_name.
Hypothesis f_images : f ≠ "images".
Hypothesis p_cubegm : p ≠ "cubegm".

Local Abbreviation kept := (file_kept p f data).

(** An operation that changes nothing in the directory outside images/. *)
Lemma kept_frame t t' :
  (∀ g, g ≠ "images" → lookup_path [p; g] t' = lookup_path [p; g] t) →
  kept t → kept t'.
Proof.
  intros Hsame [Hf Hg]. split; [by rewrite Hsame|].
  intros g Hsome Hc. apply Hg; [|done]. rewrite <- Hsame; [done|].
  by intros ->.
Qed.

Lemma kept_other t t' :
  lookup_path [p] t' = lookup_path [p] t → kept t → kept t'.
Proof.
  intros Hsame. apply kept_frame. intros g _. by apply lookup_root_cong.
Qed.

Lemma kept_images o t t' q d' :
  op_dir o = q :: "images" :: d' → kept t → apply_op o t = Ok t' → kept t'.
Proof.
  intros Hdir Hk Hop. destruct (decide (q = p)) as [->|Hq].
  - apply (kept_frame t); [|done]. intros g Hg.
    by apply (apply_op_other o t t' [p] "images" d').
  - apply (kept_other t); [|done].
    by apply (apply_op_other o t t' [] q ("images" :: d')).
Qed.

Lemma kept_elsewhere o t t' q d' :
  op_dir o = q :: d' → q ≠ p → kept t → apply_op o t = Ok t' → kept t'.
Proof.
  intros Hdir Hq Hk Hop. apply (kept_other t); [|done].
  by apply (apply_op_other o t t' [] q d').
Qed.

Lemma kept_unlink n t t' :
  n ≠ f → kept t → unlink [p] n t = Ok t' → kept t'.
Proof.
  intros Hn [Hf Hg] (es & c & Hd & Hc & ->)%unlink_ok. split.
  - rewrite (lookup_child_alter _ _ _ _ _ Hd), lookup_delete_ne by done.
    by rewrite <- (lookup_child _ _ _ _ Hd).
  - intros g. rewrite (lookup_child_alter _ _ _ _ _ Hd).
    intros Hsome Hcomma. apply Hg; [|done].
    rewrite (lookup_child _ _ _ _ Hd).
    destruct (decide (g = n)) as [->|Hne];
      [by rewrite lookup_delete_eq in Hsome; destruct Hsome|].
    by rewrite lookup_delete_ne in Hsome.
Qed.

Lemma kept_write n content t t' :
  n ≠ f → Py.has_char "," n = false →
  kept t → write_text [p] n content t = Ok t' → kept t'.
Proof.
  intros Hn Hcn [Hf Hg] (es & Hd & _ & ->)%write_text_ok. split.
  - rewrite (lookup_child_alter _ _ _ _ _ Hd), lookup_insert_ne by done.
    by rewrite <- (lookup_child _ _ _ _ Hd).
  - intros g. rewrite (lookup_child_alter _ _ _ _ _ Hd).
    intros Hsome Hcomma. apply Hg; [|done].
    rewrite (lookup_child _ _ _ _ Hd).
    destruct (decide (g = n)) as [->|Hne];
      [by rewrite Hcn in Hcomma|].
    by rewrite lookup_insert_ne in Hsome.
Qed.

Lemma kept_rename old t t' :
  Py.has_char "," old →
  kept t → rename [p] old (Py.remove_char "," old) t = Ok t' → kept t'.
Proof.
  intros Hold [Hf Hg] (es & c & Hd & Hc & ->)%rename_ok.
  assert (Py.remove_char "," old ≠ f) as Hnew.
  { apply Hg; [|done]. rewrite (lookup_child _ _ _ _ Hd), Hc. by eexists. }
  assert (old ≠ f) as Hne.
  { intros ->. by rewrite f_comma in Hold. }
  split.
  - rewrite (lookup_child_alter _ _ _ _ _ Hd).
    rewrite lookup_insert_ne, lookup_delete_ne by done.
    by rewrite <- (lookup_child _ _ _ _ Hd).
  - intros g. rewrite (lookup_child_alter _ _ _ _ _ Hd).
    intros Hsome Hcomma. apply Hg; [|done].
    rewrite (lookup_child _ _ _ _ Hd).
    destruct (decide (g = Py.remove_char "," old)) as [->|Hg1].
    { by rewrite has_char_remove_char in Hcomma. }
    rewrite lookup_insert_ne in Hsome by done.
    destruct (decide (g = old)) as [->|Hg2];
      [by rewrite lookup_delete_eq in Hsome; destruct Hsome|].
    by rewrite lookup_delete_ne in Hsome.
Qed.

Ltac keeps_step :=
  match goal with
  | |- keeps _ (mret _) => apply keeps_ret
  | |- keeps _ (gets _) => apply keeps_gets
  | |- keeps _ (reads _) => apply keeps_reads
  | |- keeps _ (print _) => apply keeps_print
  | |- keeps _ (best_effort _) => apply keeps_try
  | |- keeps _ (try_except _ _) => apply keeps_try
  | |- keeps _ (unless_dry _ _) => apply keeps_when; intros _
  | |- keeps _ (when_ _ _) => apply keeps_when; intros ?
  | |- keeps _ (for_ _ _) => apply keeps_for; intros ? ?
  | |- keeps _ (foldM _ _ _) => apply keeps_foldM; intros ? ? ?
  | |- keeps _ (_ ≫= _) => apply keeps_bind; [|intros ?]
  | |- keeps _ (if _ then _ else _) => case_match
  | |- keeps _ (match _ with _ => _ end) => case_match
  | |- keeps _ (let '(_, _) := _ in _) => case_match
  | |- ∀ _, _ => intro
  end.

Lemma keeps_op_images o q d' :
  op_dir o = q :: "images" :: d' → keeps kept (perform o).
Proof.
  intros Hdir. apply keeps_perform. intros t t' Hk Hop.
  by apply (kept_images o t t' q d').
Qed.

Lemma keeps_sanitize_platform dry q : keeps kept (sanitize_platform dry q).
Proof.
  unfold sanitize_platform, rename_comma_roms, rename_comma_images.
  repeat first
    [ by eapply keeps_op_images
    | match goal with
      | |- keeps _ (perform (OpRename [_] _ _)) => fail 1
      | |- _ => keeps_step
      end ].
  apply keeps_perform. intros t t' Hk Hop.
  destruct (decide (q = p)) as [->|Hq].
  - eapply (kept_rename _ t); [|done..].
    by repeat match goal with
              | H : Is_true (_ && _) |- _ => apply andb_prop_elim in H as [? ?]
              end.
  - by refine (kept_elsewhere _ t t' q [] _ Hq Hk Hop).
Qed.

Lemma get_images_ext d t imgs img :
  get_images d t = Ok imgs → img ∈ imgs → has_ext IMG_EXTENSIONS img.
Proof.
  unfold get_images. destruct (negb _); [by intros [= <-] ?%elem_of_nil|].
  destruct (iterdir d t) as [names|e]; [|done]. simpl.
  by intros [= <-] [[_ Hext] _]%list_elem_of_filter.
Qed.

Lemma get_roms_ext d exts t roms rom :
  get_roms d exts t = Ok roms → rom ∈ roms → has_ext exts rom.
Proof.
  intros [(_ & _ & ->)|(es & _ & ->)]%get_roms_ok.
  - by intros ?%elem_of_nil.
  - by intros [_ Hext]%elem_of_game_files.
Qed.

Lemma keeps_associate_images dry q rom_files direct_images :
  (∀ img, img ∈ direct_images → has_ext IMG_EXTENSIONS img) →
  keeps kept (associate_images dry q rom_files direct_images).
Proof.
  intros Himgs. unfold associate_images, associate_image.
  repeat first
    [ by eapply keeps_op_images
    | match goal with
      | |- keeps _ (perform (OpUnlink [_] _)) => fail 1
      | |- _ => keeps_step
      end ].
  apply keeps_perform. intros t t' Hk Hop.
  destruct (decide (q = p)) as [->|Hq].
  - eapply (kept_unlink _ t); [|done..].
    intros ->. match goal with H : _ ∈ direct_images |- _ =>
      apply Himgs in H; by rewrite f_image in H end.
  - by refine (kept_elsewhere _ t t' q [] _ Hq Hk Hop).
Qed.

Lemma keeps_prune_duplicates dry q rom_files :
  (∀ rom, rom ∈ rom_files → has_ext (rom_exts q) rom) →
  keeps kept (prune_duplicates dry q rom_files).
Proof.
  intros Hroms. unfold prune_duplicates.
  repeat match goal with
         | |- keeps _ (perform _) => fail 1
         | |- _ => keeps_step
         end.
  apply keeps_perform. intros t t' Hk Hop.
  destruct (decide (q = p)) as [->|Hq].
  - eapply (kept_unlink _ t); [|done..].
    intros ->.
    match goal with H : Is_true (_ && _) |- _ =>
      apply andb_prop_elim in H as [Hzip%bool_decide_unpack _] end.
    match goal with H : _ ∈ rom_files |- _ => apply Hroms in H as Hext end.
    destruct f_rom as [Hno|Hsuffix]; [by rewrite Hno in Hext|done].
  - by refine (kept_elsewhere _ t t' q [] _ Hq Hk Hop).
Qed.

Lemma keeps_prune_orphans dry q : keeps kept (prune_orphans dry q).
Proof.
  unfold prune_orphans.
  repeat first [ by eapply keeps_op_images | keeps_step ].
Qed.

Lemma csv_name_comma : Py.has_char "," csv_name = false.
Proof. done. Qed.

Lemma keeps_generate_csv dry q : keeps kept (generate_csv dry q).
Proof.
  unfold generate_csv.
  repeat match goal with
         | |- keeps _ (perform _) => fail 1
         | |- _ => keeps_step
         end;
    (apply keeps_perform; intros t t' Hk Hop;
     destruct (decide (q = p)) as [->|Hq];
     [by eapply (kept_write csv_name); [| |exact Hk|exact Hop]
     |by refine (kept_elsewhere _ t t' q [] _ Hq Hk Hop)]).
Qed.

Lemma keeps_sync_platform dry q : keeps kept (sync_platform dry q).
Proof.
  unfold sync_platform.
  apply keeps_bind; [apply keeps_gets|intros ex].
  apply keeps_when. intros _.
  apply keeps_reads_bind. intros rom_files [t1 Hroms].
  apply keeps_reads_bind. intros direct_images [t2 Himgs].
  apply keeps_bind; [apply keeps_print|intros _].
  apply keeps_bind; [apply keeps_gets|intros has_images].
  apply keeps_bind; [|intros _].
  { apply keeps_when. intros _.
    apply keeps_bind; [|intros _; apply keeps_print].
    apply keeps_when. intros _. by eapply keeps_op_images. }
  apply keeps_bind; [|intros _].
  { apply keeps_associate_images. intros img. by apply (get_images_ext _ _ _ _ Himgs). }
  apply keeps_bind; [|intros _].
  { apply keeps_prune_duplicates. intros rom. by apply (get_roms_ext _ _ _ _ _ Hroms). }
  apply keeps_bind; [apply keeps_prune_orphans|intros _].
  apply keeps_generate_csv.
Qed.

Lemma keeps_cubegm_write n content :
  keeps kept (perform (OpWrite cubegm n content)).
Proof.
  apply keeps_perform. intros t t' Hk Hop.
  refine (kept_elsewhere _ t t' "cubegm" [] _ _ Hk Hop); [done|].
  by intros <-.
Qed.

Lemma keeps_sync_allfiles dry : keeps kept (sync_allfiles dry).
Proof.
  unfold sync_allfiles, catalog_lines.
  repeat first [ apply keeps_cubegm_write | keeps_step ].
Qed.

Lemma keeps_clean_lists dry : keeps kept (clean_lists dry).
Proof.
  unfold clean_lists, valid_rom_keys, clean_list.
  repeat first [ apply keeps_cubegm_write | keeps_step ].
Qed.

Lemma run_keeps dry t : kept t → kept (disk (run dry t).2).
Proof.
  apply keeps_run.
  - intros q _. apply keeps_sanitize_platform.
  - intros q _. apply keeps_sync_platform.
  - apply keeps_sync_allfiles.
  - apply keeps_clean_lists.
Qed.

End keeps_file.

(** X13. A run, in either mode and whether it returns or raises, leaves
    in place and with its content every file of a directory other than
    cubegm that it has no reason to touch: a file without comma in its
    name that is no image and no filelist.csv and that is no GameFile or
    is a .zip, provided that no entry of the directory has a name with
    commas that the removal of the commas turns into the name of that
    file. *)
Theorem run_keeps_other_files (dry : bool) (t : node) (p f data : string) :
  p ≠ "cubegm" →
  lookup_path [p; f] t = Some (File data) →
  Py.has_char "," f = false →
  has_ext IMG_EXTENSIONS f = false →
  has_ext (rom_exts p) f = false ∨ suffix f = ".zip" →
  f ≠ "filelist.csv" → f ≠ "images" →
  (∀ g, is_Some (lookup_path [p; g] t) → Py.has_char "," g →
        Py.remove_char "," g ≠ f) →
  lookup_path [p; f] (disk (run dry t).2) = Some (File data).
Proof.
  intros Hp Hf Hcomma Himg Hrom Hcsv Himages Hg.
  by apply (run_keeps p f data Hcomma Himg Hrom Hcsv Himages Hp dry t).
Qed.

Lemma run_keeps_other_files_witness :
  lookup_path ["GB"; "zelda.sav"] (disk (run false keepsake_card).2)
  = Some (File "save").
Proof.
  apply run_keeps_other_files; try done.
  - by left.
  - intros g [c Hc] Hcomma. revert Hcomma.
    rewrite (lookup_child "GB" g keepsake_card keepsake_gb eq_refl) in Hc.
    apply elem_of_list_to_map_2 in Hc.
    repeat (apply elem_of_cons in Hc as [Heq|Hc]; [by simplify_eq|]).
    by apply elem_of_nil in Hc.
Defined.

(** ** A move loses no image *)

Lemma lookup_path_app a b t :
  lookup_path (a ++ b) t = lookup_path a t ≫= lookup_path b.
Proof.
  revert t. induction a as [|x a IH]; intros t; [done|].
  destruct t as [data|es]; [done|]. simpl.
  destruct (es !! x) as [c|]; [|done]. simpl. apply IH.
Qed.

Lemma lookup_after_write d n content t t' :
  write_text d n content t = Ok t' →
  lookup_path (d ++ [n]) t' = Some (File content).
Proof.
  intros (es & Hd & _ & ->)%write_text_ok.
  rewrite lookup_path_snoc, dir_entries_alter_in, Hd. simpl.
  apply lookup_insert_eq.
Qed.

(** A write below [d / n] leaves the other entries of [d] alone. *)
Lemma write_other d n d' m content t t' f :
  f ≠ n → write_text (d ++ n :: d') m content t = Ok t' →
  lookup_path (d ++ [f]) t' = lookup_path (d ++ [f]) t.
Proof.
  intros Hf Hw.
  by apply (apply_op_other (OpWrite (d ++ n :: d') m content) t t' d n d').
Qed.

(** After a copy the destination holds the content of the source, and
    the source is as it was. *)
Lemma copy2_ok p img target t t' content :
  lookup_path [p; img] t = Some (File content) →
  copy2 [p] img (images_of p) target t = Ok t' →
  lookup_path [p; img] t' = Some (File content)
  ∧ (lookup_path [p; "images"; target] t' = Some (File content)
     ∨ lookup_path [p; "images"; target; img] t' = Some (File content)).
Proof.
  intros Himg. unfold copy2.
  destruct (lookup_file_entries [p] img t content Himg) as (es & Hes & Hn).
  rewrite (read_text_entries _ _ _ _ _ Hes Hn). cbn [result_bind].
  case_bool_decide; [done|].
  assert (img ≠ "images" → ∀ d' m t1,
            write_text ([p] ++ "images" :: d') m content t = Ok t1 →
            lookup_path [p; img] t1 = Some (File content)) as Hkeep.
  { intros Hne d' m t1 Hw. rewrite <- Himg.
    by apply (write_other [p] "images" d' m content t t1 img). }
  assert (∀ d' m t1,
            write_text ([p] ++ "images" :: d') m content t = Ok t1 →
            img ≠ "images") as Hne.
  { intros d' m t1 (sub & Hd & _)%write_text_ok ->.
    unfold dir_entries in Hd. rewrite lookup_path_app in Hd.
    change ([p] ++ ["images"]) with [p; "images"] in *.
    change (lookup_path [p] t ≫= lookup_path ("images" :: d'))
      with (lookup_path [p] t ≫= λ c, lookup_path (["images"] ++ d') c) in Hd.
    unfold dir_entries in Hes.
    destruct (lookup_path [p] t) as [[?|es0]|]; try done. simplify_eq.
    simpl in Hd. rewrite Hn in Hd. simpl in Hd. by destruct d'. }
  destruct (lookup_path (images_of p ++ [target]) t) as [[data'|sub]|] eqn:Ht.
  - intros Hw. split.
    + exact (Hkeep (Hne [] _ _ Hw) [] target _ Hw).
    + left. exact (lookup_after_write (images_of p) target _ _ _ Hw).
  - intros Hw. split.
    + exact (Hkeep (Hne [target] _ _ Hw) [target] img _ Hw).
    + right. exact (lookup_after_write (images_of p ++ [target]) img _ _ _ Hw).
  - intros Hw. split.
    + exact (Hkeep (Hne [] _ _ Hw) [] target _ Hw).
    + left. exact (lookup_after_write (images_of p) target _ _ _ Hw).
Qed.

(** Unlinking a file of [p] leaves what is below images/ alone. *)
Lemma unlink_below p img t t' below :
  img ≠ "images" → unlink [p] img t = Ok t' →
  lookup_path ([p; "images"] ++ below) t'
  = lookup_path ([p; "images"] ++ below) t.
Proof.
  intros Hne (es & data & Hes & Hn & ->)%unlink_ok.
  rewrite !lookup_path_app. f_equal.
  change [p; "images"] with ([p] ++ ["images"]).
  rewrite !lookup_path_snoc, dir_entries_alter_in, Hes. simpl.
  by rewrite lookup_delete_ne.
Qed.


Lemma cover_card_move :
  ∃ w', associate_image false "GB" ["mario.zip"] ∅ "mario.png"
          (World cover_card [] []) = (Ok {["mario.zip"]}, w').
Proof. eexists. vm_compute. reflexivity. Qed.


(** ** Catalog keys *)

Lemma catalog_key_split a b a' b' :
  Py.has_char "/" a = false → Py.has_char "/" a' = false →
  a +:+ "/" +:+ b = a' +:+ "/" +:+ b' → a = a' ∧ b = b'.
Proof.
  revert a'. induction a as [|x a IH]; intros [|x' a'] Ha Ha';
    rewrite ?app_cons, ?app_empty_l; simpl in Ha, Ha'.
  - by intros [= ->].
  - intros [= <- _]. by rewrite Ascii.eqb_refl in Ha'.
  - intros [= -> _]. by rewrite Ascii.eqb_refl in Ha.
  - apply orb_false_elim in Ha as [_ Ha]. apply orb_false_elim in Ha' as [_ Ha'].
    intros [= -> Hrest]. destruct (IH a' Ha Ha' Hrest) as [-> ->]. done.
Qed.

Lemma platforms_no_slash p : p ∈ platforms → Py.has_char "/" p = false.
Proof.
  rewrite platforms_list. intros Hp.
  repeat (apply elem_of_cons in Hp as [->|Hp]; [done|]).
  by apply elem_of_nil in Hp.
Qed.

(** X15. The keys "<platform>/<filename>" of the catalog and of the
    lists are unambiguous: two entries of the card with the same key are
    the same file of the same platform. *)
Theorem catalog_key_unambiguous (t : node) (entry entry' : string * string) :
  entry ∈ catalog_entries t → entry' ∈ catalog_entries t →
  catalog_key entry.1 entry.2 = catalog_key entry'.1 entry'.2 →
  entry = entry'.
Proof.
  destruct entry as [p r], entry' as [p' r'].
  intros [Hp _]%elem_of_catalog_entries [Hp' _]%elem_of_catalog_entries Hkey.
  destruct (catalog_key_split p r p' r') as [-> ->]; try done;
    by apply platforms_no_slash.
Qed.

Lemma catalog_key_unambiguous_witness :
  ("GB", "zelda.zip") = ("GB", "zelda.zip").
Proof.
  apply (catalog_key_unambiguous catalog_card); try done;
    apply (bool_decide_unpack _); by vm_compute.
Defined.

(** ** The summary after an execute run *)

(** The summary line of a tidy platform. *)
Lemma summary_platform_tidy p w :
  is_file [] p (disk w) = false →
  (∀ es, dir_entries [p] (disk w) = Some es → tidy p es) →
  ∃ w' evs, summary_platform p w = (Ok (), w')
    ∧ disk w' = disk w ∧ out w' = out w ++ evs ∧ Forall sound_summary evs.
Proof.
  intros Hfile Htidy. unfold summary_platform. rewrite run_gets.
  destruct (platform_lookup (disk w) p) as [[Hex _]|[es Hes]].
  { intros data Hp. unfold is_file in Hfile. simpl app in Hfile.
    by rewrite Hp in Hfile. }
  { rewrite Hex. exists w, []. by rewrite app_nil_r. }
  rewrite (path_exists_dir _ _ _ Hes). cbn [when_].
  rewrite (run_reads _ _ _ _ (get_roms_entries _ _ _ _ Hes)).
  rewrite run_gets, (images_exists _ _ _ Hes).
  destruct (Htidy es Hes) as (_ & _ & Himages & Hcsv).
  pose proof (images_entries _ _ _ Hes) as Himgs.
  set (roms := game_files (rom_exts p) es) in *.
  assert (∃ n,
            (if bool_decide (is_Some (es !! "images")) then
               names ← reads (iterdir (images_of p));
               gets (λ t, length (filter (λ f, is_file (images_of p) f t)
                                         names))
             else mret 0) w = (Ok n, w) ∧ (roms = [] → n = 0))
    as (n & Hrun1 & Hn).
  { destruct (es !! "images") as [[data|imgs]|]; [done| |].
    - rewrite bool_decide_eq_true_2 by (by eexists).
      rewrite (run_reads _ _ _ _ (iterdir_entries _ _ _ Himgs)).
      eexists. split; [done|]. intros Hroms. simpl.
      rewrite (filter_none _ _); [done|]. intros f _.
      rewrite (is_file_entries' _ _ _ _ Himgs). intros Hf.
      destruct (Himages f Hf) as [_ Hstem]. rewrite Hroms in Hstem.
      by apply elem_of_nil in Hstem.
    - rewrite bool_decide_eq_false_2 by (by intros [? ?]). by exists 0. }
  rewrite (run_bind _ _ _ _ _ Hrun1). rewrite run_gets.
  change [p; csv_name] with ([p] ++ [csv_name]).
  rewrite (path_exists_entries _ _ _ _ Hes).
  assert (∀ c, Forall sound_summary
                 [EvSummary p (length roms) c n
                    (summary_status (length roms) c n)]) as Hsound.
  { intros c. apply Forall_singleton. unfold sound_summary, summary_status.
    destruct roms as [|rom roms'].
    - rewrite Hn by done. by simpl.
    - simpl length. repeat case_bool_decide; try lia; by split. }
  destruct (es !! csv_name) as [[data|sub]|] eqn:Hfilecsv; [|done|].
  - rewrite bool_decide_eq_true_2 by (by eexists). rewrite run_assoc.
    rewrite (run_reads _ _ _ _ (read_text_entries _ _ _ _ _ Hes Hfilecsv)).
    eexists _, _. split; [done|]. simpl. by split.
  - rewrite bool_decide_eq_false_2 by (by intros [? ?]).
    eexists _, _. split; [done|]. simpl. by split.
Qed.

Lemma summary_tidy w :
  (∀ p, p ∈ platforms →
     is_file [] p (disk w) = false
     ∧ ∀ es, dir_entries [p] (disk w) = Some es → tidy p es) →
  ∃ w' evs, summary w = (Ok (), w')
    ∧ out w' = out w ++ evs ∧ Forall sound_summary evs.
Proof.
  intros Htidy. unfold summary.
  destruct (for_inv (λ _ w', disk w' = disk w
                             ∧ ∃ evs, out w' = out w ++ evs
                                      ∧ Forall sound_summary evs)
              summary_platform platforms w)
    as (w' & Hrun & _ & evs & Hout & Hevs).
  - split; [done|]. exists []. by rewrite app_nil_r.
  - intros done x rest w1 Hl (Hd1 & evs1 & Hout1 & Hevs1).
    assert (x ∈ platforms) as Hx.
    { rewrite Hl. apply elem_of_app. right. by left. }
    destruct (summary_platform_tidy x w1) as (w2 & evs2 & Hrun2 & Hd2 & Hout2 & Hevs2).
    { rewrite Hd1. by apply Htidy. }
    { rewrite Hd1. by apply Htidy. }
    exists w2. split; [done|]. split; [by rewrite Hd2|].
    exists (evs1 ++ evs2). rewrite Hout2, Hout1, <- app_assoc.
    split; [done|]. by apply Forall_app.
  - by exists w', evs.
Qed.

(** X16. After an execute run that returns, no line of the summary
    reports a platform as PAS DE ROMS: a platform without GameFile has no
    file left in images/ and is reported VIDE. *)
Theorem execute_run_summary_sound (t : node) (platform : string)
    (roms csv img : nat) (st : status) :
  (run false t).1 = Ok () →
  EvSummary platform roms csv img st ∈ out (run false t).2 →
  st ≠ PAS_DE_ROMS ∧ (roms = 0 → img = 0 ∧ st = VIDE).
Proof.
  intros Hret Hin. pose proof (run_tidies t Hret) as Htidy. revert Hret Hin Htidy.
  unfold run, sync_sd_card.
  pose proof (mute_reconcile false (World t [] [])) as Hmute.
  unfold mbind, M_bind.
  destruct (reconcile false (World t [] [])) as [[[]|e] w4]; [|done].
  simpl in Hmute. intros _ Hin Htidy.
  destruct (quiet_summary w4) as [Hd4 _].
  destruct (summary_tidy w4) as (w5 & evs & Hrun & Hout & Hevs).
  { intros p Hp. rewrite <- Hd4. by apply Htidy. }
  rewrite Hrun in Hin. simpl in Hin. rewrite Hout in Hin.
  apply elem_of_app in Hin as [Hin|Hin].
  - assert (EvSummary platform roms csv img st ∈ filter is_summary (out w4))
      as Hf by (by apply list_elem_of_filter).
    rewrite Hmute in Hf. by apply elem_of_nil in Hf.
  - rewrite Forall_forall in Hevs. apply (Hevs _ Hin).
Qed.

Lemma execute_run_summary_sound_witness :
  STATUS_OK ≠ PAS_DE_ROMS ∧ (1 = 0 → 1 = 0 ∧ STATUS_OK = VIDE).
Proof.
  apply (execute_run_summary_sound orphan_card "GB" 1 1 1 STATUS_OK).
  - by vm_compute.
  - apply (bool_decide_unpack _). by vm_compute.
Defined.

(** X17. An execute run that returns leaves every platform directory
    tidy: no GameFile and no file of images/ has a comma in its name, no
    GameFile is a duplicate of a .zip, images/ is a directory whose files
    all have the stem of a GameFile, and filelist.csv is a regular file;
    images/ or filelist.csv are missing only where no GameFile is. *)
Theorem execute_run_tidies (t : node) (platform : string)
    (es : gmap string node) :
  (run false t).1 = Ok () →
  platform ∈ platforms →
  dir_entries [platform] (disk (run false t).2) = Some es →
  tidy platform es.
Proof.
  intros Hret Hp Hes. by destruct (run_tidies t Hret platform Hp) as [_ H]; apply H.
Qed.

Lemma orphan_card_reconciled :
  disk (run false orphan_card).2 = reconciled_card.
Proof. by vm_compute. Qed.

Lemma execute_run_tidies_witness : tidy "GB" reconciled_gb.
Proof.
  apply (execute_run_tidies orphan_card "GB" reconciled_gb).
  - by vm_compute.
  - rewrite platforms_list. right. right. by left.
  - by rewrite orphan_card_reconciled.
Defined.
